(** * GAMBO-Website: the virtual TV, hover glow and night-vision auto-gain

    A shallow embedding of the stateful parts of [src/main.js]:

    - [NightVision]: the auto-gain ("eye adaptation") feedback loop,
      [updateNightVisionAutoGain] and [setNightVision];
    - [Glow]: the per-mesh hover glow state, [setGlowTarget] and [updateGlow];
    - [Tv]: the TV state machine, its canvas, the photo / video / model
      adapters, [setTvPower] and the TV part of [onPointerDown].

    Conventions.  JavaScript numbers are modelled as exact rationals ([Q]):
    every theorem below is about the arithmetic the code writes down, not
    about IEEE-754 rounding.  Module-level [let] variables become the fields
    of a state record that every function takes and returns.  Values the
    browser supplies ([performance.now()], the pixels read back from the GPU,
    the outcome of a [play()] promise, the dimensions of a decoded image) are
    explicit arguments.  [console.log] and DOM styling are left out. *)

From stdpp Require Import base option list gmap.
From Stdlib Require Import ZArith QArith Qminmax Qpower Qabs Lqa Lia Bool Ascii String.
Import ListNotations.

Local Open Scope Q_scope.

(* ================================================================== *)
(** ** Night-vision auto-gain *)
(* ================================================================== *)

Module NightVision.

(** [const AE_SIZE = 32], the side of the tiny render target. *)
Definition AE_SIZE : Z := 32.

(** [let aeTargetLuma = 0.18; let aeMinGain = 0.80; let aeMaxGain = 3.20].
    They are declared with [let] but never assigned again. *)
Definition aeTargetLuma : Q := 0.18.
Definition aeMinGain : Q := 0.80.
Definition aeMaxGain : Q := 3.20.

(** The gain [aeGain] starts from, and is reset to by [setNightVision(true)]. *)
Definition aeInitialGain : Q := 1.45.

(** The two uniforms of the shader pass that the controller writes. *)
Record Pass := mkPass {
  uOn : Q;
  uGain : Q
}.

Record State := mkState {
  nightVisionOn : bool;
  nightVisionPass : option Pass;      (* null when post FX are disabled *)
  aeGain : Q;
  aeSampleAccum : Q;
  baseExposure : Q;
  toneMappingExposure : Q;
  hemiIntensity : Q
}.

(** The state after the module-level initialisers have run.  [initPostFX]
    creates the pass with [uOn = 0] and [uGain = 1.45]; on the mobile
    profile the pass stays [null]. *)
Definition initialPass : Pass := mkPass 0 1.45.

Definition init (postFX : bool) (exposure : Q) : State :=
  {| nightVisionOn := false;
     nightVisionPass := if postFX then Some initialPass else None;
     aeGain := 1.45;
     aeSampleAccum := 0;
     baseExposure := exposure;
     toneMappingExposure := exposure;
     hemiIntensity := 0 |}.

(** The luminance loop of [updateNightVisionAutoGain]:
    [for (i = 0; i < aePixels.length; i += 4) sum += 0.2126 r + 0.7152 g + 0.0722 b]
    over the RGBA bytes read back from the render target. *)
Fixpoint lumaLoop (aePixels : list Z) (sum : Q) : Q :=
  match aePixels with
  | r :: g :: b :: _ :: rest =>
      lumaLoop rest
        (sum + (0.2126 * (inject_Z r / 255)
                + 0.7152 * (inject_Z g / 255)
                + 0.0722 * (inject_Z b / 255)))
  | _ => sum
  end.

(** [const n = AE_SIZE * AE_SIZE; const avgLuma = sum / n]. *)
Definition avgLuma (aePixels : list Z) : Q :=
  lumaLoop aePixels 0 / inject_Z (AE_SIZE * AE_SIZE).

(** [const eps = 1e-4]. *)
Definition eps : Q := 0.0001.

(** [Math.max(aeMinGain, Math.min(aeMaxGain, aeTargetLuma / Math.max(eps, avgLuma)))]. *)
Definition desiredGain (luma : Q) : Q :=
  Qmax aeMinGain (Qmin aeMaxGain (aeTargetLuma / Qmax eps luma)).

Definition adapt : Q := 0.10.

Definition setGainUniform (g : Q) (p : option Pass) : option Pass :=
  match p with
  | Some pass => Some (mkPass (uOn pass) g)
  | None => None
  end.

(** [updateNightVisionAutoGain(dt)].  [aePixels] is what
    [renderer.readRenderTargetPixels] returns for this frame. *)
Definition updateNightVisionAutoGain (dt : Q) (aePixels : list Z) (s : State) : State :=
  if negb (nightVisionOn s) || negb (bool_decide (is_Some (nightVisionPass s))) then s
  else
    let accum := aeSampleAccum s + dt in
    if Qlt_le_dec accum (1 / 12) then
      {| nightVisionOn := nightVisionOn s;
         nightVisionPass := nightVisionPass s;
         aeGain := aeGain s;
         aeSampleAccum := accum;
         baseExposure := baseExposure s;
         toneMappingExposure := toneMappingExposure s;
         hemiIntensity := hemiIntensity s |}
    else
      let desired := desiredGain (avgLuma aePixels) in
      let gain := aeGain s + (desired - aeGain s) * adapt in
      {| nightVisionOn := nightVisionOn s;
         nightVisionPass := setGainUniform gain (nightVisionPass s);
         aeGain := gain;
         aeSampleAccum := 0;
         baseExposure := baseExposure s;
         toneMappingExposure := toneMappingExposure s;
         hemiIntensity := hemiIntensity s |}.

(** [setNightVision(on)]. *)
Definition setNightVision (on : bool) (s : State) : State :=
  let pass1 :=
    match nightVisionPass s with
    | Some pass => Some (mkPass (if on then 1 else 0) (uGain pass))
    | None => None
    end in
  if on then
    {| nightVisionOn := true;
       nightVisionPass := setGainUniform 1.45 pass1;
       aeGain := 1.45;
       aeSampleAccum := 0;
       baseExposure := toneMappingExposure s;
       toneMappingExposure := 1.10;
       hemiIntensity := 0.06 |}
  else
    {| nightVisionOn := false;
       nightVisionPass := pass1;
       aeGain := aeGain s;
       aeSampleAccum := aeSampleAccum s;
       baseExposure := baseExposure s;
       toneMappingExposure := baseExposure s;
       hemiIntensity := 0 |}.

(** What can happen to the controller: the lamp click toggles night vision,
    and every displayed frame [animate] calls the update when night vision
    is on and the pass exists. *)
Inductive Event :=
| EvSetNightVision (on : bool)
| EvFrame (dt : Q) (aePixels : list Z).

Definition step (s : State) (e : Event) : State :=
  match e with
  | EvSetNightVision on => setNightVision on s
  | EvFrame dt px =>
      if nightVisionOn s && bool_decide (is_Some (nightVisionPass s))
      then updateNightVisionAutoGain dt px s
      else s
  end.

Definition run (evs : list Event) (s : State) : State := fold_left step evs s.

(** A call is a sample tick when the accumulated time reaches 1/12 s. *)
Definition isSampleTick (dt : Q) (s : State) : bool :=
  if Qlt_le_dec (aeSampleAccum s + dt) (1 / 12) then false else true.

(** Frames fed to a controller that stays enabled, and the number of
    sample ticks among them. *)
Fixpoint runFrames (frames : list (Q * list Z)) (s : State) : State :=
  match frames with
  | [] => s
  | (dt, px) :: rest => runFrames rest (updateNightVisionAutoGain dt px s)
  end.

Fixpoint sampleTicks (frames : list (Q * list Z)) (s : State) : nat :=
  match frames with
  | [] => O
  | (dt, px) :: rest =>
      ((if isSampleTick dt s then 1 else 0)
       + sampleTicks rest (updateNightVisionAutoGain dt px s))%nat
  end.

(** The invariant of the gain, and of the uniform the shader reads. *)
Definition gainInRange (s : State) : Prop :=
  aeMinGain <= aeGain s <= aeMaxGain /\
  match nightVisionPass s with
  | Some pass => aeMinGain <= uGain pass <= aeMaxGain
  | None => True
  end.

(** The controller runs: night vision is on and the shader pass exists. *)
Definition enabled (s : State) : Prop :=
  nightVisionOn s = true /\ is_Some (nightVisionPass s).

(** A concrete readback: all 32 x 32 pixels are RGBA (44, 18, 10, 255),
    whose luminance is [(0.2126*44 + 0.7152*18 + 0.0722*10) / 255 = 0.09]. *)
Definition dimFrame : list Z :=
  List.concat (repeat [44; 18; 10; 255]%Z (Z.to_nat (AE_SIZE * AE_SIZE))).

(** Night vision just switched on, then three frames 0.1 s apart. *)
Definition dimState : State := setNightVision true (init true 0.8).

Definition dimFrames : list (Q * list Z) :=
  [(0.1, dimFrame); (0.1, dimFrame); (0.1, dimFrame)].

End NightVision.

(* ================================================================== *)
(** ** Hover glow of the remote's buttons *)
(* ================================================================== *)

Module Glow.

(** A [THREE.Color], as its three components. *)
Record Color := mkColor { cr : Q; cg : Q; cb : Q }.

Definition colorOfHex (hex : Z) : Color :=
  {| cr := inject_Z (Z.land (Z.shiftr hex 16) 255) / 255;
     cg := inject_Z (Z.land (Z.shiftr hex 8) 255) / 255;
     cb := inject_Z (Z.land hex 255) / 255 |}.

(** [a.equals(b)] and [a.lerp(b, alpha)]. *)
Definition colorEquals (a b : Color) : bool :=
  Qeq_bool (cr a) (cr b) && Qeq_bool (cg a) (cg b) && Qeq_bool (cb a) (cb b).

Definition colorLerp (a b : Color) (alpha : Q) : Color :=
  {| cr := cr a + (cr b - cr a) * alpha;
     cg := cg a + (cg b - cg a) * alpha;
     cb := cb a + (cb b - cb a) * alpha |}.

Definition REMOTE_GLOW_COLOR : Color := colorOfHex 0xf5f8ff.
Definition POWER_GLOW_COLOR : Color := colorOfHex 0xff3a3a.
Definition REMOTE_GLOW_INTENSITY : Q := 0.70.
Definition POWER_GLOW_INTENSITY : Q := 0.50.
Definition GLOW_TINT_STRENGTH : Q := 0.20.
Definition GLOW_LERP_IN : Q := 0.22.
Definition GLOW_LERP_OUT : Q := 0.22.
Definition POWER_GLOW_LERP_OUT : Q := 0.45.
Definition MAX_GLOW_HOVER_MS : Q := 2000.

(** A mesh is known by its identity; the scene gives the emissive material
    of those meshes that have one (the first entry of a multi-material).
    A mesh without a material, or whose material has no [emissive] and
    [emissiveIntensity], has no entry. *)
Definition Mesh := positive.

Record Material := mkMaterial {
  emissive : Color;
  emissiveIntensity : Q
}.

(** The value type of [glowState]. *)
Record GlowSt := mkGlowSt {
  baseE : Color;
  baseI : Q;
  t : Q;
  target : Q;
  color : Color;
  hoverStartMs : Q;
  forcedOff : bool
}.

Record State := mkState {
  glowState : gmap Mesh GlowSt;
  scene : gmap Mesh Material
}.

Definition withGlowState (g : gmap Mesh GlowSt) (s : State) : State :=
  {| glowState := g; scene := scene s |}.

(** [ensureGlowState(mesh, glowColor)]. *)
Definition ensureGlowState (mesh : option Mesh) (glowColor : Color) (s : State) : State :=
  match mesh with
  | None => s
  | Some m =>
      match scene s !! m with
      | None => s
      | Some mat =>
          match glowState s !! m with
          | Some _ => s
          | None =>
              withGlowState
                (<[m := {| baseE := emissive mat;
                           baseI := emissiveIntensity mat;
                           t := 0;
                           target := 0;
                           color := glowColor;
                           hoverStartMs := 0;
                           forcedOff := false |}]> (glowState s)) s
          end
      end
  end.

(** The body of [setGlowTarget] once the entry [st] has been fetched. *)
Definition retarget (targetOn : bool) (glowColor : Color) (now : Q) (st : GlowSt) : GlowSt :=
  if targetOn then
    let start := if Qeq_bool (hoverStartMs st) 0 then now else hoverStartMs st in
    if forcedOff st then
      {| baseE := baseE st; baseI := baseI st; t := t st;
         target := 0;
         color := glowColor; hoverStartMs := start; forcedOff := forcedOff st |}
    else if Qle_bool MAX_GLOW_HOVER_MS (now - start) then
      {| baseE := baseE st; baseI := baseI st; t := t st;
         target := 0;
         color := glowColor; hoverStartMs := start; forcedOff := true |}
    else
      {| baseE := baseE st; baseI := baseI st; t := t st;
         target := 1;
         color := glowColor; hoverStartMs := start; forcedOff := forcedOff st |}
  else
    {| baseE := baseE st; baseI := baseI st; t := t st;
       target := 0;
       color := glowColor; hoverStartMs := 0; forcedOff := false |}.

(** [setGlowTarget(mesh, targetOn, glowColor)]; [now] is [performance.now()]. *)
Definition setGlowTarget (mesh : option Mesh) (targetOn : bool) (glowColor : Color)
    (now : Q) (s : State) : State :=
  match mesh with
  | None => s
  | Some m =>
      let s1 := ensureGlowState (Some m) glowColor s in
      match glowState s1 !! m with
      | None => s1
      | Some st =>
          withGlowState (<[m := retarget targetOn glowColor now st]> (glowState s1)) s1
      end
  end.

(** One iteration of the [forEach] of [updateGlow], on the entry [st] of a
    mesh whose material is [mat] (if any): first the hover cutoff, then,
    for a mesh that has a material, the smoothing of [t]. *)
Definition cutoff (now : Q) (st : GlowSt) : GlowSt :=
  if Qeq_bool (target st) 1 && negb (Qeq_bool (hoverStartMs st) 0) && negb (forcedOff st)
     && Qle_bool MAX_GLOW_HOVER_MS (now - hoverStartMs st)
  then
    {| baseE := baseE st; baseI := baseI st; t := t st;
       target := 0;
       color := color st; hoverStartMs := hoverStartMs st; forcedOff := true |}
  else st.

Definition lerpSpeed (st : GlowSt) : Q :=
  if Qlt_le_dec (t st) (target st) then GLOW_LERP_IN
  else if colorEquals (color st) POWER_GLOW_COLOR then POWER_GLOW_LERP_OUT
  else GLOW_LERP_OUT.

Definition smooth (st : GlowSt) : GlowSt :=
  {| baseE := baseE st; baseI := baseI st;
     t := t st + (target st - t st) * lerpSpeed st;
     target := target st;
     color := color st; hoverStartMs := hoverStartMs st; forcedOff := forcedOff st |}.

Definition tickEntry (now : Q) (mat : option Material) (st : GlowSt) : GlowSt :=
  match mat with
  | None => cutoff now st
  | Some _ => smooth (cutoff now st)
  end.

(** What the iteration writes into the material. *)
Definition glowMaterial (st : GlowSt) : Material :=
  let glowI :=
    if colorEquals (color st) POWER_GLOW_COLOR
    then POWER_GLOW_INTENSITY else REMOTE_GLOW_INTENSITY in
  {| emissive := colorLerp (baseE st) (color st) (t st * GLOW_TINT_STRENGTH);
     emissiveIntensity := baseI st + glowI * t st |}.

(** [updateGlow()], called once per displayed frame. *)
Definition updateGlow (now : Q) (s : State) : State :=
  let g := map_imap (fun m st => Some (tickEntry now (scene s !! m) st)) (glowState s) in
  {| glowState := g;
     scene := map_imap (fun m mat =>
                 match g !! m with
                 | Some st => Some (glowMaterial st)
                 | None => Some mat
                 end) (scene s) |}.

(** Pointer moves and leaves call [setGlowTarget]; frames call [updateGlow]. *)
Inductive Event :=
| EvSetGlowTarget (mesh : option Mesh) (targetOn : bool) (glowColor : Color) (now : Q)
| EvUpdateGlow (now : Q).

Definition step (s : State) (e : Event) : State :=
  match e with
  | EvSetGlowTarget mesh targetOn glowColor now => setGlowTarget mesh targetOn glowColor now s
  | EvUpdateGlow now => updateGlow now s
  end.

Definition run (evs : list Event) (s : State) : State := fold_left step evs s.

(** The glow target of a mesh, when it has an entry. *)
Definition targetOf (s : State) (m : Mesh) : option Q := target <$> glowState s !! m.

(** The mesh [m] is not being hovered: it has no entry yet, or its entry
    is as the end of a hover leaves it. *)
Definition notHovered (s : State) (m : Mesh) : Prop :=
  match glowState s !! m with
  | None => True
  | Some st => hoverStartMs st = 0 /\ forcedOff st = false
  end.

(** The event does not end the hover of [m]. *)
Definition keepsHover (m : Mesh) (e : Event) : Prop :=
  match e with
  | EvSetGlowTarget (Some m') false _ _ => m' <> m
  | _ => True
  end.

(** The event looks at the hover clock of [m] at a time [now] at least
    [MAX_GLOW_HOVER_MS] after [t0]: a pointer move still over [m], or a frame. *)
Definition pastCutoff (m : Mesh) (t0 : Q) (e : Event) : Prop :=
  match e with
  | EvSetGlowTarget (Some m') true _ now => m' = m /\ MAX_GLOW_HOVER_MS <= now - t0
  | EvUpdateGlow now => MAX_GLOW_HOVER_MS <= now - t0
  | _ => False
  end.

(** While a hover that began at [t0] lasts, the entry is in one of two
    shapes: glowing, or forced off. *)
Definition glowing (t0 : Q) (st : GlowSt) : Prop :=
  hoverStartMs st = t0 /\ forcedOff st = false /\ target st = 1.

Definition forced (t0 : Q) (st : GlowSt) : Prop :=
  hoverStartMs st = t0 /\ forcedOff st = true /\ target st = 0.

Definition entryIs (P : GlowSt -> Prop) (m : Mesh) (s : State) : Prop :=
  is_Some (scene s !! m) /\ exists st, glowState s !! m = Some st /\ P st.

(** The entry [ensureGlowState] creates. *)
Definition freshEntry (mat : Material) (c : Color) : GlowSt :=
  {| baseE := emissive mat; baseI := emissiveIntensity mat; t := 0; target := 0;
     color := c; hoverStartMs := 0; forcedOff := false |}.

Definition hovering (t0 : Q) (st : GlowSt) : Prop := glowing t0 st \/ forced t0 st.

(** A scene with the power button (mesh 1) and the OK button (mesh 2). *)
Definition demoScene : State :=
  {| glowState := ∅;
     scene := <[1%positive := mkMaterial (mkColor 0 0 0) 0]>
              (<[2%positive := mkMaterial (mkColor 0 0 0) 0]> ∅) |}.

(** The pointer enters the power button at 1000 ms and stays: a frame at
    1500 ms, a pointer move at 3000.5 ms, a frame at 3010 ms. *)
Definition demoHover : list Event :=
  [EvUpdateGlow 1500;
   EvSetGlowTarget (Some 1%positive) true POWER_GLOW_COLOR 3000.5;
   EvUpdateGlow 3010].

End Glow.

(* ================================================================== *)
(** ** The virtual TV *)
(* ================================================================== *)

Module Tv.

(** *** Data *)

(** [tvUiState]: ["MENU"], ["PHOTO"], ["VIDEO"], ["3D MODEL"], or
    [undefined] when [MENU_ITEMS[menuIndex]] is read out of range. *)
Inductive UiState := MENU | PHOTO | VIDEO | MODEL3D | UiUndefined.

Definition UiState_eqb (a b : UiState) : bool :=
  match a, b with
  | MENU, MENU | PHOTO, PHOTO | VIDEO, VIDEO | MODEL3D, MODEL3D
  | UiUndefined, UiUndefined => true
  | _, _ => false
  end.

Definition MENU_ITEMS : list UiState := [PHOTO; VIDEO; MODEL3D].

Definition PHOTO_PATHS : list string :=
  ["./assets/Photo/01-sweet.jpg"; "./assets/Photo/02-carti.jpg";
   "./assets/Photo/03-james.jpg"; "./assets/Photo/04-roof.jpg";
   "./assets/Photo/05-scan.jpg"; "./assets/Photo/06-nyc.jpg";
   "./assets/Photo/07-nardo.jpg"]%string.

Definition VIDEO_PATHS : list string :=
  ["./assets/Video/01-sweet93-OG.mp4"; "./assets/Video/02-sweet93-chopped.mp4";
   "./assets/Video/03-sweet93-snow.mp4"]%string.

Definition MODEL_PATHS : list string :=
  ["./assets/3D Model/01-Gate.mp4"; "./assets/3D Model/02-Skateboard.mp4";
   "./assets/3D Model/03-Skateboard-2.mp4"; "./assets/3D Model/04-UAP.mp4";
   "./assets/3D Model/05-website.jpg"]%string.

(** [array[i]] for an integer [i]: [undefined] out of range. *)
Definition jsIndex {A} (l : list A) (i : Z) : option A :=
  if (i <? 0)%Z then None else nth_error l (Z.to_nat i).

(** [(i + n) % n]: the remainder of JavaScript has the sign of the dividend. *)
Definition wrapIndex (i n : Z) : Z := Z.rem (i + n) n.

Definition zlength {A} (l : list A) : Z := Z.of_nat (List.length l).

(** An [HTMLImageElement] once decoded. *)
Record Image := mkImage {
  imgSrc : option string;
  imgWidth : Z;
  imgHeight : Z
}.

(** A [<video>] element: what the code reads and writes of it. *)
Record VideoEl := mkVideoEl {
  vSrc : option string;
  vPaused : bool;
  vCurrentTime : Q;
  vLoop : bool;
  vVideoWidth : Z;
  vVideoHeight : Z
}.

Inductive MediaType := MediaVideo | MediaImage.

(** What [drawImage] was given, as it was at the time of the call. *)
Inductive Source :=
| FromImage (img : Image)
| FromVideo (el : VideoEl).

(** The drawing calls on [tvCtx].  [FillRect] is a [fillRect] with an opaque
    [fillStyle] at full alpha; the translucent overlays have constructors
    of their own, each standing for the block of canvas calls that draws it. *)
Inductive DrawOp :=
| ClearRect (x y w h : Q)
| FillRect (fillStyle : string) (x y w h : Q)
| DrawImage (src : Source) (dx dy dw dh : Q)
| MenuHighlight (elapsedSeconds : Q) (x y w h : Q)
| FillText (text : string) (x y : Q)
| MenuButton (hover : bool) (x y w h : Q)
| PausedBanner (w h : Q)
| TapDot (x y age : Q).

(** What is known of a pixel after a sequence of calls (newest first):
    cleared, of one opaque colour, or painted over by some other call. *)
Inductive Paint :=
| Cleared
| Solid (fillStyle : string)
| Painted (op : DrawOp) (under : Paint).

Definition inRect (x y w h px py : Q) : bool :=
  Qle_bool x px && negb (Qle_bool (x + w) px) &&
  Qle_bool y py && negb (Qle_bool (y + h) py).

Fixpoint paintAt (ops : list DrawOp) (px py : Q) : Paint :=
  match ops with
  | [] => Cleared
  | ClearRect x y w h :: older =>
      if inRect x y w h px py then Cleared else paintAt older px py
  | FillRect c x y w h :: older =>
      if inRect x y w h px py then Solid c else paintAt older px py
  | op :: older => Painted op (paintAt older px py)
  end.

(** The source of the picture on screen: the newest [drawImage]. *)
Fixpoint shownSource (ops : list DrawOp) : option Source :=
  match ops with
  | [] => None
  | DrawImage src _ _ _ _ :: _ => Some src
  | ClearRect _ _ _ _ :: _ => None
  | _ :: older => shownSource older
  end.

(** [tvCanvas.width], [tvCanvas.height]. *)
Definition canvasWidth : Q := 1920.
Definition canvasHeight : Q := 1080.

(** [TV_MENU_BTN]. *)
Record MenuBtn := mkMenuBtn { pad : Q; btnW : Q; btnH : Q }.
Definition TV_MENU_BTN : MenuBtn := {| pad := 36; btnW := 220; btnH := 86 |}.

(** [tvTex.repeat] and [tvTex.offset]; the code reads them with [?.] and [??]. *)
Record Texture := mkTexture {
  texRepeat : option (Q * Q);
  texOffset : option (Q * Q)
}.

(** [tvScreenMatRef]: whether [map] and [emissiveMap] hold [tvTex]. *)
Record ScreenMat := mkScreenMat {
  map : bool;
  emissiveMap : bool
}.

(** [tvAnim = { from, to, t0 }]. *)
Record Anim := mkAnim { animFrom : Z; animTo : Z; animT0 : Q }.

(** A load started by [imgLoader.load]: its callbacks close over [url]. *)
Record PhotoRequest := mkPhotoRequest { reqUrl : option string }.

(** [tvTapDebug]. *)
Record TapDebug := mkTapDebug { tapOn : bool; tapX : Q; tapY : Q; tapT : Q }.

(** *** The state: the module-level variables of the TV, by subsystem *)

(** The power switch, the menu and the power animation. *)
Record Ui := mkUi {
  tvOn : bool;
  tvUiState : UiState;
  menuIndex : Z;
  blinkT0 : Q;
  menuHover : bool;
  tvAnim : option Anim;
  tvPower : Q;
  tvBootT0 : Q;
  tvBooting : bool
}.

(** The photo gallery. *)
Record Photo := mkPhoto {
  photoIndex : Z;
  photoImage : option Image;
  photoLoading : bool;
  currentPhotoUrl : option string;
  photoRequests : list PhotoRequest;
  overlayOpen : bool
}.

(** The video gallery. *)
Record Video := mkVideo {
  videoIndex : Z;
  videoEl : option VideoEl;
  videoReady : bool;
  videoPlaying : bool;
  videoWantsAutoPlay : bool;
  videoOverlayOpen : bool;
  tvVideoSuppressed : bool
}.

(** The 3D-model gallery (videos and one image). *)
Record Model := mkModel {
  modelIndex : Z;
  modelVideoEl : option VideoEl;
  modelImageEl : option Image;
  modelMediaType : MediaType;
  modelReady : bool;
  modelPlaying : bool;
  modelWantsAutoPlay : bool;
  currentModelUrl : option string;
  modelImageLoading : bool;
  modelOverlayOpen : bool;
  tvModelSuppressed : bool;
  tvTapDebug : TapDebug
}.

(** The canvas, its texture, the screen mesh and the redraw throttle
    ([window.__tvRedrawAcc]). *)
Record Screen := mkScreen {
  canvas : list DrawOp;
  tvTexNeedsUpdate : bool;
  tvTex : Texture;
  tvScreenMatRef : option ScreenMat;
  tvScreenMeshRef : bool;
  tvRedrawAcc : Q
}.

Record State := mkState {
  ui : Ui;
  photo : Photo;
  video : Video;
  model : Model;
  screen : Screen
}.

(** Field updates, written out. *)

Definition set_tvOn (v : bool) (r : Ui) : Ui :=
  mkUi v (tvUiState r) (menuIndex r) (blinkT0 r) (menuHover r) (tvAnim r) (tvPower r)
    (tvBootT0 r) (tvBooting r).

Definition set_tvUiState (v : UiState) (r : Ui) : Ui :=
  mkUi (tvOn r) v (menuIndex r) (blinkT0 r) (menuHover r) (tvAnim r) (tvPower r)
    (tvBootT0 r) (tvBooting r).

Definition set_menuIndex (v : Z) (r : Ui) : Ui :=
  mkUi (tvOn r) (tvUiState r) v (blinkT0 r) (menuHover r) (tvAnim r) (tvPower r)
    (tvBootT0 r) (tvBooting r).

Definition set_blinkT0 (v : Q) (r : Ui) : Ui :=
  mkUi (tvOn r) (tvUiState r) (menuIndex r) v (menuHover r) (tvAnim r) (tvPower r)
    (tvBootT0 r) (tvBooting r).

Definition set_menuHover (v : bool) (r : Ui) : Ui :=
  mkUi (tvOn r) (tvUiState r) (menuIndex r) (blinkT0 r) v (tvAnim r) (tvPower r)
    (tvBootT0 r) (tvBooting r).

Definition set_tvAnim (v : option Anim) (r : Ui) : Ui :=
  mkUi (tvOn r) (tvUiState r) (menuIndex r) (blinkT0 r) (menuHover r) v (tvPower r)
    (tvBootT0 r) (tvBooting r).

Definition set_tvPower (v : Q) (r : Ui) : Ui :=
  mkUi (tvOn r) (tvUiState r) (menuIndex r) (blinkT0 r) (menuHover r) (tvAnim r) v
    (tvBootT0 r) (tvBooting r).

Definition set_tvBootT0 (v : Q) (r : Ui) : Ui :=
  mkUi (tvOn r) (tvUiState r) (menuIndex r) (blinkT0 r) (menuHover r) (tvAnim r)
    (tvPower r) v (tvBooting r).

Definition set_tvBooting (v : bool) (r : Ui) : Ui :=
  mkUi (tvOn r) (tvUiState r) (menuIndex r) (blinkT0 r) (menuHover r) (tvAnim r)
    (tvPower r) (tvBootT0 r) v.

Definition set_photoIndex (v : Z) (r : Photo) : Photo :=
  mkPhoto v (photoImage r) (photoLoading r) (currentPhotoUrl r) (photoRequests r)
    (overlayOpen r).

Definition set_photoImage (v : option Image) (r : Photo) : Photo :=
  mkPhoto (photoIndex r) v (photoLoading r) (currentPhotoUrl r) (photoRequests r)
    (overlayOpen r).

Definition set_photoLoading (v : bool) (r : Photo) : Photo :=
  mkPhoto (photoIndex r) (photoImage r) v (currentPhotoUrl r) (photoRequests r)
    (overlayOpen r).

Definition set_currentPhotoUrl (v : option string) (r : Photo) : Photo :=
  mkPhoto (photoIndex r) (photoImage r) (photoLoading r) v (photoRequests r)
    (overlayOpen r).

Definition set_photoRequests (v : list PhotoRequest) (r : Photo) : Photo :=
  mkPhoto (photoIndex r) (photoImage r) (photoLoading r) (currentPhotoUrl r) v
    (overlayOpen r).

Definition set_overlayOpen (v : bool) (r : Photo) : Photo :=
  mkPhoto (photoIndex r) (photoImage r) (photoLoading r) (currentPhotoUrl r)
    (photoRequests r) v.

Definition set_videoIndex (v : Z) (r : Video) : Video :=
  mkVideo v (videoEl r) (videoReady r) (videoPlaying r) (videoWantsAutoPlay r)
    (videoOverlayOpen r) (tvVideoSuppressed r).

Definition set_videoEl (v : option VideoEl) (r : Video) : Video :=
  mkVideo (videoIndex r) v (videoReady r) (videoPlaying r) (videoWantsAutoPlay r)
    (videoOverlayOpen r) (tvVideoSuppressed r).

Definition set_videoReady (v : bool) (r : Video) : Video :=
  mkVideo (videoIndex r) (videoEl r) v (videoPlaying r) (videoWantsAutoPlay r)
    (videoOverlayOpen r) (tvVideoSuppressed r).

Definition set_videoPlaying (v : bool) (r : Video) : Video :=
  mkVideo (videoIndex r) (videoEl r) (videoReady r) v (videoWantsAutoPlay r)
    (videoOverlayOpen r) (tvVideoSuppressed r).

Definition set_videoWantsAutoPlay (v : bool) (r : Video) : Video :=
  mkVideo (videoIndex r) (videoEl r) (videoReady r) (videoPlaying r) v
    (videoOverlayOpen r) (tvVideoSuppressed r).

Definition set_videoOverlayOpen (v : bool) (r : Video) : Video :=
  mkVideo (videoIndex r) (videoEl r) (videoReady r) (videoPlaying r)
    (videoWantsAutoPlay r) v (tvVideoSuppressed r).

Definition set_tvVideoSuppressed (v : bool) (r : Video) : Video :=
  mkVideo (videoIndex r) (videoEl r) (videoReady r) (videoPlaying r)
    (videoWantsAutoPlay r) (videoOverlayOpen r) v.

Definition set_modelIndex (v : Z) (r : Model) : Model :=
  mkModel v (modelVideoEl r) (modelImageEl r) (modelMediaType r) (modelReady r)
    (modelPlaying r) (modelWantsAutoPlay r) (currentModelUrl r) (modelImageLoading r)
    (modelOverlayOpen r) (tvModelSuppressed r) (tvTapDebug r).

Definition set_modelVideoEl (v : option VideoEl) (r : Model) : Model :=
  mkModel (modelIndex r) v (modelImageEl r) (modelMediaType r) (modelReady r)
    (modelPlaying r) (modelWantsAutoPlay r) (currentModelUrl r) (modelImageLoading r)
    (modelOverlayOpen r) (tvModelSuppressed r) (tvTapDebug r).

Definition set_modelImageEl (v : option Image) (r : Model) : Model :=
  mkModel (modelIndex r) (modelVideoEl r) v (modelMediaType r) (modelReady r)
    (modelPlaying r) (modelWantsAutoPlay r) (currentModelUrl r) (modelImageLoading r)
    (modelOverlayOpen r) (tvModelSuppressed r) (tvTapDebug r).

Definition set_modelMediaType (v : MediaType) (r : Model) : Model :=
  mkModel (modelIndex r) (modelVideoEl r) (modelImageEl r) v (modelReady r)
    (modelPlaying r) (modelWantsAutoPlay r) (currentModelUrl r) (modelImageLoading r)
    (modelOverlayOpen r) (tvModelSuppressed r) (tvTapDebug r).

Definition set_modelReady (v : bool) (r : Model) : Model :=
  mkModel (modelIndex r) (modelVideoEl r) (modelImageEl r) (modelMediaType r) v
    (modelPlaying r) (modelWantsAutoPlay r) (currentModelUrl r) (modelImageLoading r)
    (modelOverlayOpen r) (tvModelSuppressed r) (tvTapDebug r).

Definition set_modelPlaying (v : bool) (r : Model) : Model :=
  mkModel (modelIndex r) (modelVideoEl r) (modelImageEl r) (modelMediaType r)
    (modelReady r) v (modelWantsAutoPlay r) (currentModelUrl r) (modelImageLoading r)
    (modelOverlayOpen r) (tvModelSuppressed r) (tvTapDebug r).

Definition set_modelWantsAutoPlay (v : bool) (r : Model) : Model :=
  mkModel (modelIndex r) (modelVideoEl r) (modelImageEl r) (modelMediaType r)
    (modelReady r) (modelPlaying r) v (currentModelUrl r) (modelImageLoading r)
    (modelOverlayOpen r) (tvModelSuppressed r) (tvTapDebug r).

Definition set_currentModelUrl (v : option string) (r : Model) : Model :=
  mkModel (modelIndex r) (modelVideoEl r) (modelImageEl r) (modelMediaType r)
    (modelReady r) (modelPlaying r) (modelWantsAutoPlay r) v (modelImageLoading r)
    (modelOverlayOpen r) (tvModelSuppressed r) (tvTapDebug r).

Definition set_modelImageLoading (v : bool) (r : Model) : Model :=
  mkModel (modelIndex r) (modelVideoEl r) (modelImageEl r) (modelMediaType r)
    (modelReady r) (modelPlaying r) (modelWantsAutoPlay r) (currentModelUrl r) v
    (modelOverlayOpen r) (tvModelSuppressed r) (tvTapDebug r).

Definition set_modelOverlayOpen (v : bool) (r : Model) : Model :=
  mkModel (modelIndex r) (modelVideoEl r) (modelImageEl r) (modelMediaType r)
    (modelReady r) (modelPlaying r) (modelWantsAutoPlay r) (currentModelUrl r)
    (modelImageLoading r) v (tvModelSuppressed r) (tvTapDebug r).

Definition set_tvModelSuppressed (v : bool) (r : Model) : Model :=
  mkModel (modelIndex r) (modelVideoEl r) (modelImageEl r) (modelMediaType r)
    (modelReady r) (modelPlaying r) (modelWantsAutoPlay r) (currentModelUrl r)
    (modelImageLoading r) (modelOverlayOpen r) v (tvTapDebug r).

Definition set_tvTapDebug (v : TapDebug) (r : Model) : Model :=
  mkModel (modelIndex r) (modelVideoEl r) (modelImageEl r) (modelMediaType r)
    (modelReady r) (modelPlaying r) (modelWantsAutoPlay r) (currentModelUrl r)
    (modelImageLoading r) (modelOverlayOpen r) (tvModelSuppressed r) v.

Definition set_canvas (v : list DrawOp) (r : Screen) : Screen :=
  mkScreen v (tvTexNeedsUpdate r) (tvTex r) (tvScreenMatRef r) (tvScreenMeshRef r)
    (tvRedrawAcc r).

Definition set_tvTexNeedsUpdate (v : bool) (r : Screen) : Screen :=
  mkScreen (canvas r) v (tvTex r) (tvScreenMatRef r) (tvScreenMeshRef r) (tvRedrawAcc r).

Definition set_tvTex (v : Texture) (r : Screen) : Screen :=
  mkScreen (canvas r) (tvTexNeedsUpdate r) v (tvScreenMatRef r) (tvScreenMeshRef r)
    (tvRedrawAcc r).

Definition set_tvScreenMatRef (v : option ScreenMat) (r : Screen) : Screen :=
  mkScreen (canvas r) (tvTexNeedsUpdate r) (tvTex r) v (tvScreenMeshRef r)
    (tvRedrawAcc r).

Definition set_tvScreenMeshRef (v : bool) (r : Screen) : Screen :=
  mkScreen (canvas r) (tvTexNeedsUpdate r) (tvTex r) (tvScreenMatRef r) v (tvRedrawAcc r).

Definition set_tvRedrawAcc (v : Q) (r : Screen) : Screen :=
  mkScreen (canvas r) (tvTexNeedsUpdate r) (tvTex r) (tvScreenMatRef r)
    (tvScreenMeshRef r) v.

Definition withUi (f : Ui -> Ui) (s : State) : State :=
  mkState (f (ui s)) (photo s) (video s) (model s) (screen s).

Definition withPhoto (f : Photo -> Photo) (s : State) : State :=
  mkState (ui s) (f (photo s)) (video s) (model s) (screen s).

Definition withVideo (f : Video -> Video) (s : State) : State :=
  mkState (ui s) (photo s) (f (video s)) (model s) (screen s).

Definition withModel (f : Model -> Model) (s : State) : State :=
  mkState (ui s) (photo s) (video s) (f (model s)) (screen s).

Definition withScreen (f : Screen -> Screen) (s : State) : State :=
  mkState (ui s) (photo s) (video s) (model s) (f (screen s)).
(** *** Drawing on the canvas *)

Definition draw (op : DrawOp) (s : State) : State :=
  withScreen (fun r => set_canvas (op :: canvas r) r) s.

Definition texNeedsUpdate (s : State) : State :=
  withScreen (set_tvTexNeedsUpdate true) s.

Definition isUi (st : UiState) (s : State) : bool := UiState_eqb (tvUiState (ui s)) st.

(** [clearTvScreen()]. *)
Definition clearTvScreen (s : State) : State :=
  let w := canvasWidth in
  let h := canvasHeight in
  let s := draw (ClearRect 0 0 w h) s in
  let s := draw (FillRect "#000000" 0 0 w h) s in
  texNeedsUpdate s.

(** [applyTvTextureEnabled(enabled)]. *)
Definition applyTvTextureEnabled (enabled : bool) (s : State) : State :=
  match tvScreenMatRef (screen s) with
  | None => s
  | Some _ => withScreen (set_tvScreenMatRef (Some (mkScreenMat enabled enabled))) s
  end.

(** [drawTvMenu()]; [now] is [performance.now()]. *)
Definition drawTvMenu (now : Q) (s : State) : State :=
  let w := canvasWidth in
  let h := canvasHeight in
  let s := draw (ClearRect 0 0 w h) s in
  let s := draw (FillRect "#111111" 0 0 w h) s in
  let cx := w * 0.5 in
  let startY := h * 0.35 in
  let gapY := 130 in
  let t := (now - blinkT0 (ui s)) * 0.001 in
  let selY := startY + inject_Z (menuIndex (ui s)) * gapY in
  let s := draw (MenuHighlight t (w * 0.22) (selY - 55) (w * 0.56) 110) s in
  let s := draw (FillText "PHOTO" cx (startY + 0 * gapY)) s in
  let s := draw (FillText "VIDEO" cx (startY + 1 * gapY)) s in
  let s := draw (FillText "3D MODEL" cx (startY + 2 * gapY)) s in
  texNeedsUpdate s.

(** [drawPhotoToTv(img)]. *)
Definition drawPhotoToTv (img : Image) (s : State) : State :=
  let w := canvasWidth in
  let h := canvasHeight in
  let s := draw (ClearRect 0 0 w h) s in
  let s := draw (FillRect "#000" 0 0 w h) s in
  let iw := inject_Z (imgWidth img) in
  let ih := inject_Z (imgHeight img) in
  let scale := Qmax (w / iw) (h / ih) in
  let overscan := 1.02 in
  let dw := iw * scale * overscan in
  let dh := ih * scale * overscan in
  let dx := (w - dw) * 0.5 in
  let dy := (h - dh) * 0.5 in
  let s := draw (DrawImage (FromImage img) dx dy dw dh) s in
  let s :=
    if tvOn (ui s) && (isUi PHOTO s || isUi MODEL3D s) then
      let bx := w - pad TV_MENU_BTN - btnW TV_MENU_BTN in
      let by_ := pad TV_MENU_BTN in
      draw (MenuButton (menuHover (ui s)) bx by_ (btnW TV_MENU_BTN) (btnH TV_MENU_BTN)) s
    else s in
  texNeedsUpdate s.

(** [x || d] on a number: [d] when [x] is 0. *)
Definition orElse (x d : Z) : Z := if (x =? 0)%Z then d else x.

(** [drawVideoFrameToTv()]. *)
Definition drawVideoFrameToTv (s : State) : State :=
  match videoEl (video s) with
  | None => s
  | Some el =>
      if negb (videoReady (video s)) then s
      else
        let w := canvasWidth in
        let h := canvasHeight in
        let s := draw (ClearRect 0 0 w h) s in
        let s := draw (FillRect "#000" 0 0 w h) s in
        let iw := inject_Z (orElse (vVideoWidth el) 16) in
        let ih := inject_Z (orElse (vVideoHeight el) 9) in
        let scale := Qmax (w / iw) (h / ih) in
        let overscan := 1.02 in
        let dw := iw * scale * overscan in
        let dh := ih * scale * overscan in
        let dx := (w - dw) * 0.5 in
        let dy := (h - dh) * 0.5 in
        let s := draw (DrawImage (FromVideo el) dx dy dw dh) s in
        let s :=
          if tvOn (ui s) && isUi VIDEO s then
            let bx := w - pad TV_MENU_BTN - btnW TV_MENU_BTN in
            let by_ := pad TV_MENU_BTN in
            draw (MenuButton (menuHover (ui s)) bx by_ (btnW TV_MENU_BTN) (btnH TV_MENU_BTN)) s
          else s in
        let s := if vPaused el then draw (PausedBanner w h) s else s in
        texNeedsUpdate s
  end.

(** [drawModelFrameToTv()]; [now] is read for the fading debug dot. *)
Definition drawModelFrameToTv (now : Q) (s : State) : State :=
  match modelMediaType (model s), modelVideoEl (model s) with
  | MediaImage, _ => s
  | MediaVideo, None => s
  | MediaVideo, Some el =>
      if negb (modelReady (model s)) then s
      else
        let w := canvasWidth in
        let h := canvasHeight in
        let s := draw (ClearRect 0 0 w h) s in
        let s := draw (FillRect "#000" 0 0 w h) s in
        let iw := inject_Z (orElse (vVideoWidth el) 16) in
        let ih := inject_Z (orElse (vVideoHeight el) 9) in
        let scale := Qmax (w / iw) (h / ih) in
        let overscan := 1.02 in
        let dw := iw * scale * overscan in
        let dh := ih * scale * overscan in
        let dx := (w - dw) * 0.5 in
        let dy := (h - dh) * 0.5 in
        let s := draw (DrawImage (FromVideo el) dx dy dw dh) s in
        let s :=
          if tvOn (ui s) && isUi MODEL3D s then
            let bx := w - pad TV_MENU_BTN - btnW TV_MENU_BTN in
            let by_ := pad TV_MENU_BTN in
            draw (MenuButton (menuHover (ui s)) bx by_ (btnW TV_MENU_BTN) (btnH TV_MENU_BTN)) s
          else s in
        let s := if vPaused el then draw (PausedBanner w h) s else s in
        let tap := tvTapDebug (model s) in
        let s :=
          if tapOn tap then
            let age := (now - tapT tap) / 1000 in
            if Qlt_le_dec age 1 then draw (TapDot (tapX tap) (tapY tap) age) s
            else withModel (set_tvTapDebug (mkTapDebug false (tapX tap) (tapY tap) (tapT tap))) s
          else s in
        texNeedsUpdate s
  end.

(** [drawModelToTv()]. *)
Definition drawModelToTv (now : Q) (s : State) : State :=
  match modelMediaType (model s) with
  | MediaImage =>
      match modelImageEl (model s) with
      | None => s
      | Some img => if negb (modelReady (model s)) then s else drawPhotoToTv img s
      end
  | MediaVideo => drawModelFrameToTv now s
  end.

(** *** Photo adapter *)

(** [loadPhotoAt(index)]: sets the cursor and starts a load whose callbacks
    run later, when the browser delivers the image or gives up. *)
Definition loadPhotoAt (index : Z) (s : State) : State :=
  if negb (tvOn (ui s)) then s
  else if negb (isUi PHOTO s) then s
  else
    let n := zlength PHOTO_PATHS in
    let i := wrapIndex index n in
    let url := jsIndex PHOTO_PATHS i in
    withPhoto (fun r =>
      set_photoRequests (photoRequests r ++ [mkPhotoRequest url])
        (set_photoLoading true (set_currentPhotoUrl url (set_photoIndex i r)))) s.

(** The in-flight load number [k] leaves the list when it settles. *)
Definition settle (k : nat) (s : State) : State :=
  withPhoto (fun r =>
    set_photoRequests (take k (photoRequests r) ++ drop (S k) (photoRequests r)) r) s.

(** The success callback of the load number [k]; the browser supplies the
    decoded image's dimensions. *)
Definition photoLoaded (k : nat) (width height : Z) (s : State) : State :=
  match photoRequests (photo s) !! k with
  | None => s
  | Some req =>
      let img := mkImage (reqUrl req) width height in
      let s := settle k s in
      let s := withPhoto (fun r => set_photoLoading false (set_photoImage (Some img) r)) s in
      drawPhotoToTv img s
  end.

(** The error callback of the load number [k]. *)
Definition photoFailed (k : nat) (s : State) : State :=
  match photoRequests (photo s) !! k with
  | None => s
  | Some _ => withPhoto (set_photoLoading false) (settle k s)
  end.

(** [nextPhoto(delta)]. *)
Definition nextPhoto (delta : Z) (s : State) : State :=
  if negb (tvOn (ui s)) then s
  else if negb (isUi PHOTO s) then s
  else if photoLoading (photo s) then s
  else loadPhotoAt (photoIndex (photo s) + delta) s.

(** [openPhotoOverlay(url)] and [closePhotoOverlay()], as far as the TV goes. *)
Definition openPhotoOverlay (url : option string) (s : State) : State :=
  match url with
  | None => s
  | Some u => if String.eqb u "" then s else withPhoto (set_overlayOpen true) s
  end.

Definition closePhotoOverlay (s : State) : State := withPhoto (set_overlayOpen false) s.

(** *** Video adapter *)

(** The events of a media element that the code listens to, or could. *)
Inductive MediaEvent := LoadedData | PauseEvent | PlayEvent | Ended.

Definition updVideoEl (f : VideoEl -> VideoEl) (s : State) : State :=
  withVideo (fun r => set_videoEl (f <$> videoEl r) r) s.

Definition elPause (el : VideoEl) : VideoEl :=
  mkVideoEl (vSrc el) true (vCurrentTime el) (vLoop el) (vVideoWidth el) (vVideoHeight el).
Definition elPlay (el : VideoEl) : VideoEl :=
  mkVideoEl (vSrc el) false (vCurrentTime el) (vLoop el) (vVideoWidth el) (vVideoHeight el).
Definition elSeek (time : Q) (el : VideoEl) : VideoEl :=
  mkVideoEl (vSrc el) (vPaused el) time (vLoop el) (vVideoWidth el) (vVideoHeight el).
(** [el.src = url; el.load()]: the element forgets the previous resource. *)
Definition elLoad (url : option string) (el : VideoEl) : VideoEl :=
  mkVideoEl url true 0 (vLoop el) 0 0.
Definition elDecoded (width height : Z) (el : VideoEl) : VideoEl :=
  mkVideoEl (vSrc el) (vPaused el) (vCurrentTime el) (vLoop el) width height.

(** [ensureVideoEl()]: one persistent element, created paused, with
    [loop = true]; its listeners are [videoListener] below. *)
Definition ensureVideoEl (s : State) : State :=
  match videoEl (video s) with
  | Some _ => s
  | None => withVideo (set_videoEl (Some (mkVideoEl None true 0 true 0 0))) s
  end.

(** [playVideo()].  [allowed] says whether the promise of [videoEl.play()]
    resolves (the browser lets it play) or rejects; the [await] is taken in
    one step. *)
Definition playVideo (allowed : bool) (s : State) : State :=
  if negb (tvOn (ui s)) then s
  else if negb (isUi VIDEO s) then s
  else
    match videoEl (video s) with
    | None => s
    | Some _ =>
        if allowed then withVideo (set_videoPlaying true) (updVideoEl elPlay s)
        else withVideo (set_videoPlaying false) s
    end.

(** The listeners [ensureVideoEl] registers on the element: ["loadeddata"],
    ["pause"] and ["play"].  No listener is registered for ["ended"]. *)
Definition videoListener (ev : MediaEvent) (allowed : bool) (s : State) : State :=
  match ev with
  | LoadedData =>
      let s := withVideo (set_videoReady true) s in
      let s := if tvOn (ui s) && isUi VIDEO s then drawVideoFrameToTv s else s in
      if tvOn (ui s) && isUi VIDEO s && videoWantsAutoPlay (video s)
         && match videoEl (video s) with Some el => vPaused el | None => false end
      then withVideo (set_videoWantsAutoPlay false) (playVideo allowed s)
      else s
  | PauseEvent => withVideo (set_videoPlaying false) s
  | PlayEvent => withVideo (set_videoPlaying true) s
  | Ended => s
  end.

(** [pauseVideo()]. *)
Definition pauseVideo (s : State) : State :=
  match videoEl (video s) with
  | None => s
  | Some _ =>
      let s := videoListener PauseEvent false (updVideoEl elPause s) in
      withVideo (set_videoPlaying false) s
  end.

(** [stopVideoCompletely()]. *)
Definition stopVideoCompletely (s : State) : State :=
  match videoEl (video s) with
  | None => s
  | Some _ =>
      let s := videoListener PauseEvent false (updVideoEl elPause s) in
      let s := withVideo (set_videoPlaying false) s in
      let s := updVideoEl (elSeek 0) s in
      withVideo (set_videoReady false) s
  end.

(** [loadVideoAt(index, { autoPlay })].  The one-shot [done] listeners and
    the 8 s timer it sets up only release the loader's progress tracker,
    which for videos is a function that does nothing. *)
Definition loadVideoAt (index : Z) (autoPlay allowed : bool) (s : State) : State :=
  if negb (tvOn (ui s)) then s
  else if negb (isUi VIDEO s) then s
  else
    let s := ensureVideoEl s in
    let n := zlength VIDEO_PATHS in
    let i := wrapIndex index n in
    let s := withVideo (set_videoIndex i) s in
    let url := jsIndex VIDEO_PATHS i in
    let s := withVideo (fun r => set_videoPlaying false (set_videoReady false r)) s in
    let s := videoListener PauseEvent false (updVideoEl elPause s) in
    let s := updVideoEl (elSeek 0) s in
    let s := updVideoEl (elLoad url) s in
    let s := clearTvScreen s in
    if autoPlay then playVideo allowed s else s.

(** [toggleVideoPlayPause()]. *)
Definition toggleVideoPlayPause (allowed : bool) (s : State) : State :=
  match videoEl (video s) with
  | None => s
  | Some el => if vPaused el then playVideo allowed s else pauseVideo s
  end.

(** [nextVideo(delta)]. *)
Definition nextVideo (delta : Z) (allowed : bool) (s : State) : State :=
  if negb (tvOn (ui s)) then s
  else if negb (isUi VIDEO s) then s
  else
    let shouldPlay :=
      videoPlaying (video s)
      && match videoEl (video s) with Some el => negb (vPaused el) | None => false end in
    loadVideoAt (videoIndex (video s) + delta) shouldPlay allowed s.

(** The browser has decoded the first frame: the element gets its
    dimensions and ["loadeddata"] is dispatched. *)
Definition videoLoadedData (width height : Z) (allowed : bool) (s : State) : State :=
  match videoEl (video s) with
  | None => s
  | Some _ => videoListener LoadedData allowed (updVideoEl (elDecoded width height) s)
  end.

(** Playback reaches the end of the resource.  An element with [loop]
    seeks back to the start and keeps playing, and no event is dispatched;
    one without [loop] gets an ["ended"] event. *)
Definition videoReachesEnd (s : State) : State :=
  match videoEl (video s) with
  | None => s
  | Some el =>
      if vLoop el then updVideoEl (elSeek 0) s
      else videoListener Ended false s
  end.

(** *** Model adapter *)

(** [url.split("?")[0]]. *)
Fixpoint beforeQuery (u : string) : string :=
  match u with
  | EmptyString => EmptyString
  | String c rest => if Ascii.eqb c "?"%char then EmptyString else String c (beforeQuery rest)
  end.

Definition lowerAscii (c : Ascii.ascii) : Ascii.ascii :=
  let n := Ascii.nat_of_ascii c in
  if ((65 <=? n) && (n <=? 90))%nat then Ascii.ascii_of_nat (n + 32) else c.

Fixpoint lowerCase (u : string) : string :=
  match u with
  | EmptyString => EmptyString
  | String c rest => String (lowerAscii c) (lowerCase rest)
  end.

Fixpoint endsWith (suffix u : string) : bool :=
  if String.eqb u suffix then true
  else match u with
       | EmptyString => false
       | String _ rest => endsWith suffix rest
       end.

(** [isImageUrl(url)]: the test of [/\.(png|jpe?g|webp|gif)$/i]. *)
Definition isImageUrl (url : option string) : bool :=
  let u := lowerCase (beforeQuery (default EmptyString url)) in
  existsb (fun ext => endsWith ext u) [".png"; ".jpg"; ".jpeg"; ".webp"; ".gif"]%string.

Definition updModelVideoEl (f : VideoEl -> VideoEl) (s : State) : State :=
  withModel (fun r => set_modelVideoEl (f <$> modelVideoEl r) r) s.

(** [ensureModelVideoEl()] and [ensureModelImageEl()]. *)
Definition ensureModelVideoEl (s : State) : State :=
  match modelVideoEl (model s) with
  | Some _ => s
  | None => withModel (set_modelVideoEl (Some (mkVideoEl None true 0 true 0 0))) s
  end.

Definition ensureModelImageEl (s : State) : State :=
  match modelImageEl (model s) with
  | Some _ => s
  | None => withModel (set_modelImageEl (Some (mkImage None 0 0))) s
  end.

(** [playModel()]; [allowed] as for [playVideo]. *)
Definition playModel (allowed : bool) (s : State) : State :=
  if negb (tvOn (ui s)) then s
  else if negb (isUi MODEL3D s) then s
  else
    match modelVideoEl (model s) with
    | None => s
    | Some _ =>
        if allowed then withModel (set_modelPlaying true) (updModelVideoEl elPlay s)
        else withModel (set_modelPlaying false) s
    end.

(** The listeners [ensureModelVideoEl] registers: ["loadeddata"], ["pause"]
    and ["play"]. *)
Definition modelListener (ev : MediaEvent) (now : Q) (allowed : bool) (s : State) : State :=
  match ev with
  | LoadedData =>
      let s := withModel (set_modelReady true) s in
      let s := if tvOn (ui s) && isUi MODEL3D s then drawModelToTv now s else s in
      if tvOn (ui s) && isUi MODEL3D s && modelWantsAutoPlay (model s)
         && match modelVideoEl (model s) with Some el => vPaused el | None => false end
      then withModel (set_modelWantsAutoPlay false) (playModel allowed s)
      else s
  | PauseEvent => withModel (set_modelPlaying false) s
  | PlayEvent => withModel (set_modelPlaying true) s
  | Ended => s
  end.

(** [modelVideoEl.pause()] with its ["pause"] listener. *)
Definition modelElPause (s : State) : State :=
  modelListener PauseEvent 0 false (updModelVideoEl elPause s).

(** [pauseModel()]. *)
Definition pauseModel (s : State) : State :=
  match modelMediaType (model s), modelVideoEl (model s) with
  | MediaImage, _ => s
  | MediaVideo, None => s
  | MediaVideo, Some _ => withModel (set_modelPlaying false) (modelElPause s)
  end.

(** [stopModelCompletely()]. *)
Definition stopModelCompletely (s : State) : State :=
  match modelVideoEl (model s) with
  | None => s
  | Some _ =>
      let s := modelElPause s in
      let s := withModel (set_modelPlaying false) s in
      let s := updModelVideoEl (elSeek 0) s in
      withModel (set_modelReady false) s
  end.

(** [loadModelAt(index, { autoPlay })]. *)
Definition loadModelAt (index : Z) (autoPlay allowed : bool) (s : State) : State :=
  if negb (tvOn (ui s)) then s
  else if negb (isUi MODEL3D s) then s
  else
    let n := zlength MODEL_PATHS in
    let i := wrapIndex index n in
    let url := jsIndex MODEL_PATHS i in
    let s := withModel (fun r =>
               set_modelPlaying false (set_modelReady false
                 (set_currentModelUrl url (set_modelIndex i r)))) s in
    let s := clearTvScreen s in
    if isImageUrl url then
      let s := withModel (set_modelMediaType MediaImage) s in
      let s := ensureModelImageEl s in
      let s := match modelVideoEl (model s) with
               | Some _ => modelElPause s
               | None => s
               end in
      let s := withModel (fun r => set_modelImageLoading true (set_modelPlaying false r)) s in
      withModel (set_modelImageEl (Some (mkImage url 0 0))) s
    else
      let s := withModel (set_modelMediaType MediaVideo) s in
      let s := ensureModelVideoEl s in
      let s := modelElPause s in
      let s := updModelVideoEl (elSeek 0) s in
      let s := updModelVideoEl (elLoad url) s in
      if autoPlay then playModel allowed s else pauseModel s.

(** [modelImageEl.onload] and [modelImageEl.onerror]. *)
Definition modelImageLoaded (width height : Z) (now : Q) (s : State) : State :=
  match modelImageEl (model s) with
  | None => s
  | Some img =>
      let s := withModel (fun r =>
                 set_modelReady true (set_modelImageLoading false
                   (set_modelImageEl (Some (mkImage (imgSrc img) width height)) r))) s in
      drawModelToTv now s
  end.

Definition modelImageFailed (s : State) : State :=
  withModel (set_modelImageLoading false) s.

(** The model video has decoded its first frame. *)
Definition modelLoadedData (width height : Z) (now : Q) (allowed : bool) (s : State) : State :=
  match modelVideoEl (model s) with
  | None => s
  | Some _ => modelListener LoadedData now allowed (updModelVideoEl (elDecoded width height) s)
  end.

(** [toggleModelPlayPause()]. *)
Definition toggleModelPlayPause (allowed : bool) (s : State) : State :=
  match modelMediaType (model s), modelVideoEl (model s) with
  | MediaImage, _ => s
  | MediaVideo, None => s
  | MediaVideo, Some el => if vPaused el then playModel allowed s else pauseModel s
  end.

(** [nextModel(delta)]. *)
Definition nextModel (delta : Z) (allowed : bool) (s : State) : State :=
  if negb (tvOn (ui s)) then s
  else if negb (isUi MODEL3D s) then s
  else
    let shouldPlay :=
      modelPlaying (model s)
      && match modelVideoEl (model s) with Some el => negb (vPaused el) | None => false end in
    loadModelAt (modelIndex (model s) + delta) shouldPlay allowed s.

(** *** Menu and power *)

(** [moveMenuSelection(delta)]. *)
Definition moveMenuSelection (delta : Z) (now : Q) (s : State) : State :=
  if negb (tvOn (ui s)) then s
  else if negb (isUi MENU s) then s
  else
    let n := zlength MENU_ITEMS in
    let s := withUi (fun r => set_menuIndex (Z.rem (menuIndex r + delta + n) n) r) s in
    let s := withUi (set_blinkT0 now) s in
    drawTvMenu now s.

(** [confirmMenuSelection()]. *)
Definition confirmMenuSelection (now : Q) (allowed : bool) (s : State) : State :=
  if negb (tvOn (ui s)) then s
  else if negb (isUi MENU s) then s
  else
    let selected := default UiUndefined (jsIndex MENU_ITEMS (menuIndex (ui s))) in
    let s := withUi (set_tvUiState selected) s in
    match selected with
    | PHOTO =>
        let s := withPhoto (fun r => set_photoLoading false (set_photoImage None r)) s in
        loadPhotoAt 0 s
    | VIDEO => loadVideoAt 0 true allowed (ensureVideoEl s)
    | MODEL3D => loadModelAt 0 true allowed (ensureModelVideoEl s)
    | _ => drawTvMenu now s
    end.

(** [setTvPower(nextOn)]. *)
Definition setTvPower (nextOn : bool) (now : Q) (s : State) : State :=
  let from := if tvOn (ui s) then 1%Z else 0%Z in
  let to := if nextOn then 1%Z else 0%Z in
  if (from =? to)%Z then s
  else
    let s := withUi (set_tvOn nextOn) s in
    let s :=
      if negb (tvOn (ui s)) then
        let s := stopVideoCompletely s in
        let s := stopModelCompletely s in
        let s := clearTvScreen s in
        applyTvTextureEnabled false s
      else applyTvTextureEnabled true s in
    let s :=
      if tvOn (ui s) then
        let s := withUi (fun r => set_menuIndex 0 (set_tvUiState MENU (set_blinkT0 now r))) s in
        let s := withUi (fun r => set_tvBooting true (set_tvBootT0 now r)) s in
        drawTvMenu now s
      else s in
    withUi (set_tvAnim (Some (mkAnim from to (now / 1000)))) s.

(** The duration of the power animation, [const DUR = 0.55] seconds. *)
Definition DUR : Q := 0.55.

(** [updateTv()], as far as the variables of the program go: the eased
    power level, the end of the boot flicker, and the end of the animation.
    What it writes into the mesh and its material is not modelled. *)
Definition updateTv (now : Q) (s : State) : State :=
  match tvAnim (ui s), tvScreenMatRef (screen s) with
  | Some anim, Some _ =>
      if negb (tvScreenMeshRef (screen s)) then s
      else
        let dt := now / 1000 - animT0 anim in
        let t := Qmin (dt / DUR) 1 in
        let t := 1 - (1 - t) * (1 - t) * (1 - t) in
        let a := inject_Z (animFrom anim) + (inject_Z (animTo anim) - inject_Z (animFrom anim)) * t in
        let s := withUi (set_tvPower a) s in
        let s :=
          if tvBooting (ui s) then
            let dtBoot := (now - tvBootT0 (ui s)) / 1000 in
            if Qlt_le_dec dtBoot 0.23 then s else withUi (set_tvBooting false) s
          else s in
        if Qle_bool DUR dt then
          withUi (fun r => set_tvPower (if tvOn r then 1 else 0) (set_tvAnim None r)) s
        else s
  | _, _ => s
  end.

(** *** Fullscreen overlays, as far as the TV goes *)

(** [openVideoOverlay()]. *)
Definition openVideoOverlay (s : State) : State :=
  match videoEl (video s) with
  | None => s
  | Some _ =>
      let s := withVideo (fun r => set_tvVideoSuppressed false (set_videoOverlayOpen true r)) s in
      let s := pauseVideo s in
      if tvOn (ui s) && isUi VIDEO s && videoReady (video s) then drawVideoFrameToTv s else s
  end.

(** [closeVideoOverlay()]; the overlay player's [src], [currentTime] and
    [paused] are the browser's. *)
Definition closeVideoOverlay (overlayHasSrc : bool) (overlayTime : Q) (overlayPaused : bool)
    (allowed : bool) (s : State) : State :=
  let s := withVideo (fun r => set_tvVideoSuppressed false (set_videoOverlayOpen false r)) s in
  match videoEl (video s) with
  | Some el =>
      if overlayHasSrc then
        let time := if Qeq_bool overlayTime 0 then vCurrentTime el else overlayTime in
        let s := updVideoEl (elSeek time) s in
        if negb overlayPaused then playVideo allowed s else pauseVideo s
      else s
  | None => s
  end.

(** [openModelOverlay()]. *)
Definition openModelOverlay (now : Q) (s : State) : State :=
  let blocked :=
    match modelMediaType (model s) with
    | MediaVideo => negb (bool_decide (is_Some (modelVideoEl (model s))))
    | MediaImage =>
        match currentModelUrl (model s) with
        | None => true
        | Some u => String.eqb u ""
        end
    end in
  if blocked then s
  else
    let s := withModel (fun r => set_tvModelSuppressed false (set_modelOverlayOpen true r)) s in
    let s := pauseModel s in
    if tvOn (ui s) && isUi MODEL3D s && modelReady (model s)
    then drawModelFrameToTv now s else s.

(** [closeModelOverlay()]. *)
Definition closeModelOverlay (overlayHasSrc : bool) (overlayTime : Q) (overlayPaused : bool)
    (allowed : bool) (s : State) : State :=
  let s := withModel (fun r => set_tvModelSuppressed false (set_modelOverlayOpen false r)) s in
  match modelVideoEl (model s) with
  | Some el =>
      if overlayHasSrc then
        let time := if Qeq_bool overlayTime 0 then vCurrentTime el else overlayTime in
        let s := updModelVideoEl (elSeek time) s in
        if negb overlayPaused then playModel allowed s else pauseModel s
      else s
  | None => s
  end.

(** The overlay's prev / next controls and arrow keys. *)
Definition overlayNextPhoto (delta : Z) (s : State) : State :=
  if negb (overlayOpen (photo s)) then s
  else
    let s := nextPhoto delta s in
    openPhotoOverlay (currentPhotoUrl (photo s)) s.

(** [overlayNextVideo(delta)] and [overlayNextModel(delta)]. *)
Definition overlayNextVideo (delta : Z) (allowed : bool) (s : State) : State :=
  if negb (videoOverlayOpen (video s)) then s
  else if negb (isUi VIDEO s) then s
  else
    let n := zlength VIDEO_PATHS in
    let s := withVideo (fun r => set_videoIndex (Z.rem (videoIndex r + delta + n) n) r) s in
    loadVideoAt (videoIndex (video s)) false allowed s.

Definition overlayNextModel (delta : Z) (allowed : bool) (s : State) : State :=
  if negb (modelOverlayOpen (model s)) then s
  else if negb (isUi MODEL3D s) then s
  else
    let n := zlength MODEL_PATHS in
    let s := withModel (fun r => set_modelIndex (Z.rem (modelIndex r + delta + n) n) r) s in
    loadModelAt (modelIndex (model s)) false allowed s.

(** The [fullscreenchange] handlers: entering fullscreen on the overlay
    player freezes the TV ([freezeTvVideoForOverlay], [freezeTvModelForOverlay]),
    leaving it redraws the TV. *)
Definition videoFullscreenChange (isOverlayFs : bool) (s : State) : State :=
  if isOverlayFs then pauseVideo (withVideo (set_tvVideoSuppressed true) s)
  else
    let s := withVideo (set_tvVideoSuppressed false) s in
    if tvOn (ui s) && isUi VIDEO s && videoReady (video s) then drawVideoFrameToTv s else s.

Definition modelFullscreenChange (isOverlayFs : bool) (now : Q) (s : State) : State :=
  if isOverlayFs then pauseModel (withModel (set_tvModelSuppressed true) s)
  else
    let s := withModel (set_tvModelSuppressed false) s in
    if tvOn (ui s) && isUi MODEL3D s && modelReady (model s)
    then drawModelFrameToTv now s else s.

(** *** Pointer input *)

(** The first raycast hit: the interactive mesh whose subtree contains the
    hit object ([isInHierarchy] against the resolved mesh references), and
    the hit's UV coordinate when the geometry has one.  [HitOther] is any
    other object: the lamp, the props that open links, the speaker. *)
Inductive HitTarget :=
| HitPower | HitOk | HitUp | HitDown | HitLeft | HitRight | HitTvScreen | HitOther.

Definition HitTarget_eqb (a b : HitTarget) : bool :=
  match a, b with
  | HitPower, HitPower | HitOk, HitOk | HitUp, HitUp | HitDown, HitDown
  | HitLeft, HitLeft | HitRight, HitRight | HitTvScreen, HitTvScreen
  | HitOther, HitOther => true
  | _, _ => false
  end.

Record Hit := mkHit { hitObject : HitTarget; hitUv : option (Q * Q) }.

(** The screen-space hit mapper: a UV coordinate to canvas pixels,
    [u = uv.x * (tvTex.repeat?.x ?? 1) + (tvTex.offset?.x ?? 0)],
    [px = u * w], and the same for [v] and [py].  The source repeats these
    lines in each branch that uses them. *)
Definition hitPixel (tex : Texture) (uv : Q * Q) : Q * Q :=
  let w := canvasWidth in
  let h := canvasHeight in
  let u := fst uv * match texRepeat tex with Some r => fst r | None => 1 end
           + match texOffset tex with Some o => fst o | None => 0 end in
  let v := snd uv * match texRepeat tex with Some r => snd r | None => 1 end
           + match texOffset tex with Some o => snd o | None => 0 end in
  (u * w, v * h).

(** [bx = w - TV_MENU_BTN.pad - TV_MENU_BTN.w; by = TV_MENU_BTN.pad]. *)
Definition menuBtnX : Q := canvasWidth - pad TV_MENU_BTN - btnW TV_MENU_BTN.
Definition menuBtnY : Q := pad TV_MENU_BTN.

(** [px >= bx && px <= bx + w && py >= by && py <= by + h]. *)
Definition inMenuBtn (p : Q * Q) : bool :=
  Qle_bool menuBtnX (fst p) && Qle_bool (fst p) (menuBtnX + btnW TV_MENU_BTN) &&
  Qle_bool menuBtnY (snd p) && Qle_bool (snd p) (menuBtnY + btnH TV_MENU_BTN).

Definition clickedMenuBtn (uv : option (Q * Q)) (s : State) : bool :=
  match uv with
  | Some c => inMenuBtn (hitPixel (tvTex (screen s)) c)
  | None => false
  end.

(** The three lines every MENU-button branch ends with:
    [tvUiState = "MENU"; blinkT0 = performance.now(); drawTvMenu()]. *)
Definition backToMenu (now : Q) (s : State) : State :=
  let s := withUi (set_tvUiState MENU) s in
  let s := withUi (set_blinkT0 now) s in
  drawTvMenu now s.

(** [onPointerDown(e)], for what it does to the TV.  [hit] is [None] when
    the pointer is outside the viewport or the ray hits nothing.  The
    branches are in the order of the source.  Arming the press animation
    of the button under the pointer, the lamp, the props and the speaker do
    not touch the TV's variables. *)
Definition onPointerDown (hit : option Hit) (now : Q) (allowed : bool) (s : State) : State :=
  match hit with
  | None => s
  | Some h =>
      let on := tvOn (ui s) in
      let hits t := HitTarget_eqb (hitObject h) t in
      if overlayOpen (photo s) || videoOverlayOpen (video s) || modelOverlayOpen (model s)
      then s
      else if on && isUi PHOTO s && hits HitTvScreen then
        if clickedMenuBtn (hitUv h) s then backToMenu now s
        else openPhotoOverlay (currentPhotoUrl (photo s)) s
      else if on && isUi VIDEO s && hits HitTvScreen then
        if clickedMenuBtn (hitUv h) s then backToMenu now (stopVideoCompletely s)
        else openVideoOverlay s
      else if hits HitPower then setTvPower (negb on) now s
      else if on && isUi MENU s && hits HitDown then moveMenuSelection 1 now s
      else if on && isUi MENU s && hits HitUp then moveMenuSelection (-1) now s
      else if on && isUi MENU s && hits HitOk then confirmMenuSelection now allowed s
      else if on && isUi PHOTO s && hits HitRight then nextPhoto 1 s
      else if on && isUi PHOTO s && hits HitLeft then nextPhoto (-1) s
      else if on && isUi VIDEO s && hits HitOk then
        drawVideoFrameToTv (toggleVideoPlayPause allowed s)
      else if on && isUi VIDEO s && hits HitRight then nextVideo 1 allowed s
      else if on && isUi VIDEO s && hits HitLeft then nextVideo (-1) allowed s
      else if on && isUi MODEL3D s && hits HitOk then
        drawModelFrameToTv now (toggleModelPlayPause allowed s)
      else if on && isUi MODEL3D s && hits HitRight then nextModel 1 allowed s
      else if on && isUi MODEL3D s && hits HitLeft then nextModel (-1) allowed s
      else if on && isUi MODEL3D s && hits HitTvScreen then
        let s :=
          match hitUv h with
          | Some c =>
              let p := hitPixel (tvTex (screen s)) c in
              withModel (set_tvTapDebug (mkTapDebug true (fst p) (snd p) now)) s
          | None => s
          end in
        if clickedMenuBtn (hitUv h) s then backToMenu now (stopModelCompletely s)
        else openModelOverlay now s
      else s
  end.

(** *** The render loop *)

(** The TV part of [animate()]: the power animation, then the redraw of the
    canvas, throttled to 12 Hz. *)
Definition animate (dt now : Q) (s : State) : State :=
  let s := updateTv now s in
  let s := withScreen (fun r => set_tvRedrawAcc (tvRedrawAcc r + dt) r) s in
  if tvOn (ui s) && bool_decide (is_Some (tvScreenMatRef (screen s)))
     && negb (Qle_bool (tvRedrawAcc (screen s)) (1 / 12))
  then
    let s := withScreen (set_tvRedrawAcc 0) s in
    match tvUiState (ui s) with
    | MENU => drawTvMenu now s
    | PHOTO =>
        let s :=
          if negb (bool_decide (is_Some (photoImage (photo s)))) && negb (photoLoading (photo s))
          then loadPhotoAt (photoIndex (photo s)) s else s in
        match photoImage (photo s) with
        | Some img => drawPhotoToTv img s
        | None => s
        end
    | VIDEO =>
        if videoReady (video s) && negb (tvVideoSuppressed (video s))
        then drawVideoFrameToTv s else s
    | MODEL3D =>
        if modelReady (model s) && negb (tvModelSuppressed (model s))
        then drawModelToTv now s else s
    | UiUndefined => s
    end
  else s.

(** *** Events *)

(** Everything that runs TV code: pointer presses, displayed frames, the
    photo loader's callbacks, the media elements' events, and the closing
    of an overlay. *)
Inductive Event :=
| EvPointerDown (hit : option Hit) (now : Q) (allowed : bool)
| EvAnimate (dt now : Q)
| EvPhotoLoaded (k : nat) (width height : Z)
| EvPhotoFailed (k : nat)
| EvVideoLoadedData (width height : Z) (allowed : bool)
| EvVideoReachesEnd
| EvModelLoadedData (width height : Z) (now : Q) (allowed : bool)
| EvModelImageLoaded (width height : Z) (now : Q)
| EvModelImageFailed
| EvClosePhotoOverlay
| EvCloseVideoOverlay (overlayHasSrc : bool) (overlayTime : Q) (overlayPaused allowed : bool)
| EvCloseModelOverlay (overlayHasSrc : bool) (overlayTime : Q) (overlayPaused allowed : bool)
| EvOverlayNextPhoto (delta : Z)
| EvOverlayNextVideo (delta : Z) (allowed : bool)
| EvOverlayNextModel (delta : Z) (allowed : bool)
| EvVideoFullscreenChange (isOverlayFs : bool)
| EvModelFullscreenChange (isOverlayFs : bool) (now : Q).

Definition step (s : State) (e : Event) : State :=
  match e with
  | EvPointerDown hit now allowed => onPointerDown hit now allowed s
  | EvAnimate dt now => animate dt now s
  | EvPhotoLoaded k w h => photoLoaded k w h s
  | EvPhotoFailed k => photoFailed k s
  | EvVideoLoadedData w h allowed => videoLoadedData w h allowed s
  | EvVideoReachesEnd => videoReachesEnd s
  | EvModelLoadedData w h now allowed => modelLoadedData w h now allowed s
  | EvModelImageLoaded w h now => modelImageLoaded w h now s
  | EvModelImageFailed => modelImageFailed s
  | EvClosePhotoOverlay => closePhotoOverlay s
  | EvCloseVideoOverlay src time paused allowed => closeVideoOverlay src time paused allowed s
  | EvCloseModelOverlay src time paused allowed => closeModelOverlay src time paused allowed s
  | EvOverlayNextPhoto delta => overlayNextPhoto delta s
  | EvOverlayNextVideo delta allowed => overlayNextVideo delta allowed s
  | EvOverlayNextModel delta allowed => overlayNextModel delta allowed s
  | EvVideoFullscreenChange fs => videoFullscreenChange fs s
  | EvModelFullscreenChange fs now => modelFullscreenChange fs now s
  end.

Definition run (evs : list Event) (s : State) : State := fold_left step evs s.

(** The state once the scene is loaded: the TV is off, nothing is loaded,
    the canvas is empty.  The screen mesh and its material may be missing. *)
Definition init (now : Q) (hasScreen : bool) : State :=
  {| ui := mkUi false MENU 0 now false None 0 0 false;
     photo := mkPhoto 0 None false None [] false;
     video := mkVideo 0 None false false false false false;
     model := mkModel 0 None None MediaVideo false false false None false false false
                (mkTapDebug false 0 0 0);
     screen := mkScreen [] hasScreen (mkTexture (Some (1, 1)) (Some (0, 0)))
                 (if hasScreen then Some (mkScreenMat true true) else None)
                 hasScreen 0 |}.

(** *** Cover fit, in the words of the specification *)

(** Follows the specification, not the code: "scale = max(bufferW/imgW,
    bufferH/imgH)", drawn width and height "source dimensions * scale *
    1.02", "centered". *)
Record CoverFit := mkCoverFit {
  cfScale : Q;
  cfWidth : Q;
  cfHeight : Q;
  cfX : Q;
  cfY : Q
}.

Definition coverFitSpec (bufferW bufferH imgW imgH : Q) : CoverFit :=
  let scale := Qmax (bufferW / imgW) (bufferH / imgH) in
  let width := imgW * scale * 1.02 in
  let height := imgH * scale * 1.02 in
  {| cfScale := scale;
     cfWidth := width;
     cfHeight := height;
     cfX := (bufferW - width) / 2;
     cfY := (bufferH - height) / 2 |}.

(** The destination rectangle of the newest [drawImage] on the canvas. *)
Fixpoint drawnRect (ops : list DrawOp) : option (Q * Q * Q * Q) :=
  match ops with
  | [] => None
  | DrawImage _ dx dy dw dh :: _ => Some (dx, dy, dw, dh)
  | _ :: older => drawnRect older
  end.

Definition matchesCover (r : option (Q * Q * Q * Q)) (c : CoverFit) : Prop :=
  match r with
  | Some (dx, dy, dw, dh) =>
      dx == cfX c /\ dy == cfY c /\ dw == cfWidth c /\ dh == cfHeight c
  | None => False
  end.

(** *** Consistency of the players *)

(** A player that does not exist is not playing, and the elements the code
    creates loop. *)
Definition wfVideo (v : Video) : Prop :=
  match videoEl v with
  | None => videoPlaying v = false
  | Some el => vLoop el = true
  end.

Definition wfModel (m : Model) : Prop :=
  match modelVideoEl m with
  | None => modelPlaying m = false
  | Some el => vLoop el = true
  end.

Definition wf (s : State) : Prop := wfVideo (video s) /\ wfModel (model s).

(** *** Concrete states used in the examples *)

Definition press (t : HitTarget) (now : Q) : Event :=
  EvPointerDown (Some (mkHit t None)) now true.

(** A press on the TV screen at UV (0.95, 0.05): the top-right corner. *)
Definition pressMenuButton (now : Q) : Event :=
  EvPointerDown (Some (mkHit HitTvScreen (Some (0.95, 0.05)))) now true.

(** Power on, OK on the first menu item: the photo gallery, first load in flight. *)
Definition photoMode : State := run [press HitPower 1000; press HitOk 2000] (init 0 true).

(** Power on, down, OK, first frame decoded: the first video is playing. *)
Definition videoMode : State :=
  run [press HitPower 1000; press HitDown 1500; press HitOk 2000;
       EvVideoLoadedData 1280 720 true] (init 0 true).

(** The photo gallery with two loads in flight, both for the first photo:
    the first OK's, then, after a trip back to the menu, the second OK's. *)
Definition stalePhotoTrace : list Event :=
  [press HitPower 1000; press HitOk 2000; pressMenuButton 3000; press HitOk 4000;
   EvPhotoLoaded 1 1024 768;      (* the second load delivers photo 0 *)
   press HitRight 5000;           (* nextPhoto(+1): a load of photo 1 *)
   EvPhotoLoaded 1 1024 768;      (* it delivers photo 1 *)
   EvPhotoLoaded 0 800 600;       (* the first load of photo 0 delivers, late *)
   EvAnimate 0.1 6000].

(** Power on, down, down, OK, first frame decoded: the first model video is playing. *)
Definition modelMode : State :=
  run [press HitPower 1000; press HitDown 1500; press HitDown 1700; press HitOk 2000;
       EvModelLoadedData 1280 720 2100 true] (init 0 true).


End Tv.

(* ================================================================== *)
(** ** Further definitions used to state properties of the code above *)
(* ================================================================== *)

Module NightVisionProps.
Import NightVision.

(** A value a [Uint8Array] can hold. *)
Definition isByte (b : Z) : bool := ((0 <=? b) && (b <=? 255))%Z.

(** The shader's gain uniform holds the controller's gain. *)
Definition uniformInSync (s : State) : Prop :=
  match nightVisionPass s with
  | Some pass => uGain pass = aeGain s
  | None => True
  end.

(** The luminance below which the desired gain is clamped to [aeMaxGain],
    [0.18 / 3.20], and the one above which it is clamped to [aeMinGain],
    [0.18 / 0.80]. *)
Definition darkLuma : Q := 0.05625.
Definition brightLuma : Q := 0.225.

End NightVisionProps.

Module GlowProps.
Import Glow.

(** The smoothed glow level is a fraction and the target is 0 or 1. *)
Definition entryOk (st : GlowSt) : Prop :=
  0 <= t st <= 1 /\ (target st = 0 \/ target st = 1).

(** Two colours, two materials with equal components. *)
Definition colorEq (a b : Color) : Prop :=
  cr a == cr b /\ cg a == cg b /\ cb a == cb b.

Definition materialEq (a b : Material) : Prop :=
  colorEq (emissive a) (emissive b) /\ emissiveIntensity a == emissiveIntensity b.

(** With respect to the scene as loaded, [scene0]: an entry remembers the
    emissive colour and intensity its mesh was loaded with, and the material
    of a mesh without an entry is still the loaded one. *)
Definition remembersBase (scene0 : gmap Mesh Material) (s : State) : Prop :=
  forall m,
    match glowState s !! m with
    | Some st => exists mat0, scene0 !! m = Some mat0 /\
                   baseE st = emissive mat0 /\ baseI st = emissiveIntensity mat0
    | None => scene s !! m = scene0 !! m
    end.

(** The rate at which an entry fades out. *)
Definition fadeOutSpeed (st : GlowSt) : Q :=
  if colorEquals (color st) POWER_GLOW_COLOR then POWER_GLOW_LERP_OUT else GLOW_LERP_OUT.

(** The state as the scene is loaded: no entry yet. *)
Definition loaded (scene0 : gmap Mesh Material) : State :=
  {| glowState := ∅; scene := scene0 |}.

(** [frames] displayed frames in a row, at the given clock readings. *)
Definition frames (nows : list Q) : list Event := List.map EvUpdateGlow nows.

(** The scene of the remote's power button (mesh 1), whose material is
    loaded with a dim emissive colour. *)
Definition remoteScene : gmap Mesh Material :=
  {[ 1%positive := mkMaterial (mkColor 0.1 0.1 0.1) 0.25 ]}.

(** The pointer enters the power button at 1000 ms and leaves at 1400 ms. *)
Definition shortHover : list Event :=
  [EvSetGlowTarget (Some 1%positive) true POWER_GLOW_COLOR 1000;
   EvUpdateGlow 1016;
   EvSetGlowTarget (Some 1%positive) false POWER_GLOW_COLOR 1400].

(** The power button after a hover that has just ended at full glow. *)
Definition fadingEntry : GlowSt :=
  {| baseE := mkColor 0 0 0; baseI := 0; t := 1; target := 0;
     color := POWER_GLOW_COLOR; hoverStartMs := 0; forcedOff := false |}.

Definition fadingPower : State :=
  {| glowState := {[ 1%positive := fadingEntry ]};
     scene := {[ 1%positive := mkMaterial (mkColor 0 0 0) 0 ]} |}.

End GlowProps.

Module TvProps.
Import Tv.

(** The rectangle [(dx, dy, dw, dh)] leaves no pixel of the canvas bare. *)
Definition coversCanvas (r : Q * Q * Q * Q) : Prop :=
  let '(dx, dy, dw, dh) := r in
  dx <= 0 /\ dy <= 0 /\ canvasWidth <= dx + dw /\ canvasHeight <= dy + dh.

(** The rectangle has the proportions of a source [iw] by [ih], and
    overshoots the canvas by exactly 2% in the dimension that binds. *)
Definition keepsAspect (iw ih : Q) (r : Q * Q * Q * Q) : Prop :=
  let '(_, _, dw, dh) := r in
  dw * ih == dh * iw /\ (dw == 1.02 * canvasWidth \/ dh == 1.02 * canvasHeight).



(** A player that has been stopped: paused, rewound, not ready. *)
Definition stopped (el : option VideoEl) (ready playing : bool) : Prop :=
  ready = false /\ playing = false /\
  match el with
  | Some e => vPaused e = true /\ vCurrentTime e = 0
  | None => True
  end.

(** The first video is on screen, and the element has not yet reported
    its dimensions. *)
Definition sizelessVideo : VideoEl := mkVideoEl None false 0 true 0 0.

Definition sizelessVideoMode : State :=
  withVideo (set_videoEl (Some sizelessVideo)) videoMode.

(** Neither player is waiting to start by itself when its data arrives. *)
Definition noAutoPlay (s : State) : Prop :=
  videoWantsAutoPlay (video s) = false /\ modelWantsAutoPlay (model s) = false.

(** While the gallery waits for a photo, the load started last is in
    flight, and it is a load of the current photo. *)
Definition photoOk (s : State) : Prop :=
  photoLoading (photo s) = true ->
  exists req, last (photoRequests (photo s)) = Some req /\
              reqUrl req = currentPhotoUrl (photo s).

(** The cursors: the screen shown, the menu selection and the item of
    each gallery. *)
Definition cursors (s : State) : UiState * Z * Z * Z * Z :=
  (tvUiState (ui s), menuIndex (ui s), photoIndex (photo s), videoIndex (video s),
   modelIndex (model s)).

(** Every cursor points at something: the screen shown is one of the four
    the code knows, and each index is within its list. *)
Definition cursorsOk (s : State) : Prop :=
  tvUiState (ui s) <> UiUndefined /\
  (0 <= menuIndex (ui s) < zlength MENU_ITEMS)%Z /\
  (0 <= photoIndex (photo s) < zlength PHOTO_PATHS)%Z /\
  (0 <= videoIndex (video s) < zlength VIDEO_PATHS)%Z /\
  (0 <= modelIndex (model s) < zlength MODEL_PATHS)%Z.

(** A step of one item, forwards or backwards: what the remote's arrows
    and the overlays' controls pass as [delta]. *)
Definition unitStep (delta : Z) : Prop := delta = 1%Z \/ delta = (-1)%Z.

(** The events as the page produces them: the overlays' controls and
    arrow keys step by one item. *)
Definition pageEvent (e : Event) : Prop :=
  match e with
  | EvOverlayNextPhoto delta | EvOverlayNextVideo delta _ | EvOverlayNextModel delta _ =>
      unitStep delta
  | _ => True
  end.

(** Three views of the state: the power switch and the screen shown; the
    video player's playing flag and its element's paused state; the model
    player's. *)
Definition mode (s : State) : bool * UiState := (tvOn (ui s), tvUiState (ui s)).

Definition videoPlayer (s : State) : bool * option bool :=
  (videoPlaying (video s), vPaused <$> videoEl (video s)).

Definition modelPlayer (s : State) : bool * option bool :=
  (modelPlaying (model s), vPaused <$> modelVideoEl (model s)).

(** What plays, plays in its own gallery: a player whose playing flag is
    set belongs to the gallery on screen, the TV is on, and its element
    exists and is not paused. *)
Definition playingOk (s : State) : Prop :=
  (videoPlaying (video s) = true ->
     tvOn (ui s) = true /\ tvUiState (ui s) = VIDEO /\
     vPaused <$> videoEl (video s) = Some false) /\
  (modelPlaying (model s) = true ->
     tvOn (ui s) = true /\ tvUiState (ui s) = MODEL3D /\
     vPaused <$> modelVideoEl (model s) = Some false).

(** The state [x] differs from [s] in neither the mode nor the video
    player, and its model player is not playing; and the same with the
    players exchanged. *)
Definition modelQuietAs (s x : State) : Prop :=
  modelPlaying (model x) = false /\ mode x = mode s /\ videoPlayer x = videoPlayer s.

Definition videoQuietAs (s x : State) : Prop :=
  videoPlaying (video x) = false /\ mode x = mode s /\ modelPlayer x = modelPlayer s.

(** Every pixel of the canvas is opaque black. *)
Definition blackScreen (ops : list DrawOp) : Prop :=
  forall px py, 0 <= px -> px < canvasWidth -> 0 <= py -> py < canvasHeight ->
    paintAt ops px py = Solid "#000000".

(** [i mod n], the mathematical remainder, for comparison with [wrapIndex]. *)
Definition cyclic (i n : Z) : Z := (i mod n)%Z.

End TvProps.

(* ================================================================== *)
(** ** Proofs: night-vision auto-gain *)
(* ================================================================== *)

Section NightVisionFacts.
Import NightVision.

Lemma desiredGain_range (luma : Q) :
  aeMinGain <= desiredGain luma <= aeMaxGain.
Proof.
  unfold desiredGain. split.
  - apply Q.le_max_l.
  - apply Q.max_lub.
    + unfold aeMinGain, aeMaxGain. lra.
    + apply Q.le_min_l.
Qed.

Lemma desiredGain_at_009 (luma : Q) :
  luma == 0.09 -> desiredGain luma == 2.
Proof.
  intros H. unfold desiredGain.
  assert (M : Qmax eps luma == 0.09).
  { destruct (Q.max_spec eps luma) as [[_ E]|[L E]]; rewrite E; unfold eps in *; lra. }
  assert (D : aeTargetLuma / Qmax eps luma == 2).
  { rewrite M. reflexivity. }
  rewrite D.
  assert (N : Qmin aeMaxGain 2 == 2).
  { destruct (Q.min_spec aeMaxGain 2) as [[L E]|[L E]]; rewrite E; unfold aeMaxGain in *; lra. }
  rewrite N.
  destruct (Q.max_spec aeMinGain 2) as [[L E]|[L E]]; rewrite E; unfold aeMinGain in *; lra.
Qed.

(** The only two things a call of the update can do to the gain. *)
Lemma update_gain_cases (dt : Q) (px : list Z) (s : State) :
  let s' := updateNightVisionAutoGain dt px s in
  (aeGain s' = aeGain s /\ nightVisionPass s' = nightVisionPass s) \/
  (nightVisionOn s = true /\ isSampleTick dt s = true /\
   aeGain s' = aeGain s + (desiredGain (avgLuma px) - aeGain s) * adapt /\
   nightVisionPass s' = setGainUniform (aeGain s') (nightVisionPass s)).
Proof.
  unfold updateNightVisionAutoGain, isSampleTick.
  destruct (nightVisionOn s); cbn [negb orb]; [|left; split; reflexivity].
  destruct (bool_decide (is_Some (nightVisionPass s))); cbn [negb];
    [|left; split; reflexivity].
  destruct (Qlt_le_dec (aeSampleAccum s + dt) (1 / 12)); cbn.
  - left; split; reflexivity.
  - right; repeat split; reflexivity.
Qed.

Lemma smoothing_stays_between (lo hi g d : Q) :
  lo <= g <= hi -> lo <= d <= hi -> lo <= g + (d - g) * adapt <= hi.
Proof. unfold adapt. intros [? ?] [? ?]. split; lra. Qed.

Lemma setGainUniform_range (g : Q) (p : option Pass) :
  aeMinGain <= g <= aeMaxGain ->
  match setGainUniform g p with
  | Some pass => aeMinGain <= uGain pass <= aeMaxGain
  | None => True
  end.
Proof. intros H. destruct p; cbn; auto. Qed.

Lemma update_preserves_range (dt : Q) (px : list Z) (s : State) :
  gainInRange s -> gainInRange (updateNightVisionAutoGain dt px s).
Proof.
  intros [Hg Hp]. unfold gainInRange.
  destruct (update_gain_cases dt px s) as [[Eg Ep]|(_ & _ & Eg & Ep)];
    rewrite Ep, ?Eg.
  - auto.
  - assert (R : aeMinGain <= aeGain s + (desiredGain (avgLuma px) - aeGain s) * adapt
                <= aeMaxGain)
      by (apply smoothing_stays_between; [exact Hg | apply desiredGain_range]).
    split; [exact R | apply setGainUniform_range; exact R].
Qed.

Lemma setNightVision_preserves_range (on : bool) (s : State) :
  gainInRange s -> gainInRange (setNightVision on s).
Proof.
  intros [Hg Hp]. unfold gainInRange, setNightVision.
  destruct on; cbn.
  - split; [unfold aeMinGain, aeMaxGain; lra|].
    destruct (nightVisionPass s); cbn; [unfold aeMinGain, aeMaxGain; lra | exact I].
  - split; [exact Hg|]. destruct (nightVisionPass s); cbn; auto.
Qed.

Lemma init_in_range (postFX : bool) (exposure : Q) :
  gainInRange (init postFX exposure).
Proof.
  unfold gainInRange, init; cbn.
  split; [unfold aeMinGain, aeMaxGain; lra|].
  destruct postFX; cbn; [unfold aeMinGain, aeMaxGain; lra | exact I].
Qed.

Lemma step_preserves_range (s : State) (e : Event) :
  gainInRange s -> gainInRange (step s e).
Proof.
  intros H. destruct e as [on|dt px]; cbn.
  - apply setNightVision_preserves_range, H.
  - destruct (nightVisionOn s && bool_decide (is_Some (nightVisionPass s)));
      [apply update_preserves_range, H | exact H].
Qed.

Lemma run_preserves_range (evs : list Event) (s : State) :
  gainInRange s -> gainInRange (run evs s).
Proof.
  revert s. induction evs as [|e evs IH]; intros s H; cbn.
  - exact H.
  - apply IH, step_preserves_range, H.
Qed.

(** C10. The night-vision gain is always within
    [aeMinGain, aeMaxGain] = [0.80, 3.20]: it is initialised to 1.45, reset
    to 1.45 whenever night vision is switched on, every update either keeps
    it or replaces it with the convex combination
    [(1 - 0.10) * gain + 0.10 * desired] of itself and a value clamped into
    the interval, and so every gain reachable from the initial state by lamp
    toggles and frames (and the [uGain] uniform written from it) stays
    inside the interval. *)
Theorem aeGain_always_in_range :
  aeMinGain == 0.80 /\ aeMaxGain == 3.20 /\
  (forall postFX exposure, aeGain (init postFX exposure) = 1.45) /\
  (forall s, aeGain (setNightVision true s) = 1.45) /\
  (forall s, aeGain (setNightVision false s) = aeGain s) /\
  (forall dt px s,
     aeGain (updateNightVisionAutoGain dt px s) = aeGain s \/
     exists d, aeMinGain <= d <= aeMaxGain /\
       aeGain (updateNightVisionAutoGain dt px s)
         == (1 - 0.10) * aeGain s + 0.10 * d) /\
  (forall postFX exposure evs,
     let s := run evs (init postFX exposure) in
     0.80 <= aeGain s <= 3.20 /\
     match nightVisionPass s with
     | Some pass => 0.80 <= uGain pass <= 3.20
     | None => True
     end).
Proof.
  split; [reflexivity|]. split; [reflexivity|].
  split; [reflexivity|]. split; [reflexivity|]. split; [reflexivity|].
  split.
  - intros dt px s.
    destruct (update_gain_cases dt px s) as [[Eg _]|(_ & _ & Eg & _)].
    + left; exact Eg.
    + right. exists (desiredGain (avgLuma px)).
      split; [apply desiredGain_range|].
      rewrite Eg. unfold adapt. ring.
  - intros postFX exposure evs s.
    exact (run_preserves_range evs _ (init_in_range postFX exposure)).
Qed.

(** *** Constant luminance 0.09 *)

(** The luminance loop over a frame whose pixels are all the same. *)
Lemma lumaLoop_uniform (r g b a : Z) (n : nat) (sum : Q) :
  lumaLoop (List.concat (repeat [r; g; b; a] n)) sum
  == sum + inject_Z (Z.of_nat n)
           * (0.2126 * (inject_Z r / 255) + 0.7152 * (inject_Z g / 255)
              + 0.0722 * (inject_Z b / 255)).
Proof.
  revert sum. induction n as [|n IH]; intros sum.
  - cbn [repeat List.concat lumaLoop]. change (inject_Z (Z.of_nat 0)) with 0. ring.
  - change (List.concat (repeat [r; g; b; a] (S n)))
      with (r :: g :: b :: a :: List.concat (repeat [r; g; b; a] n)).
    cbn [lumaLoop]. rewrite IH.
    rewrite Nat2Z.inj_succ, <- Z.add_1_r, inject_Z_plus.
    change (inject_Z 1) with 1. ring.
Qed.

Lemma dimFrame_luma : avgLuma dimFrame == 0.09.
Proof.
  unfold avgLuma, dimFrame. rewrite lumaLoop_uniform. reflexivity.
Qed.

Lemma update_keeps_enabled (dt : Q) (px : list Z) (s : State) :
  enabled s -> enabled (updateNightVisionAutoGain dt px s).
Proof.
  intros [On [pass Ep]]. unfold enabled, updateNightVisionAutoGain.
  rewrite On, Ep. cbn.
  destruct (Qlt_le_dec _ _); cbn; (split; [reflexivity | eexists; reflexivity]).
Qed.

Lemma update_when_enabled (dt : Q) (px : list Z) (s : State) :
  enabled s ->
  aeGain (updateNightVisionAutoGain dt px s)
  = if isSampleTick dt s
    then aeGain s + (desiredGain (avgLuma px) - aeGain s) * adapt
    else aeGain s.
Proof.
  intros [On [pass Ep]].
  unfold updateNightVisionAutoGain, isSampleTick. rewrite On, Ep. cbn.
  destruct (Qlt_le_dec _ _); reflexivity.
Qed.

Lemma pow09_succ (k : nat) :
  0.9 ^ Z.of_nat (S k) == 0.9 * 0.9 ^ Z.of_nat k.
Proof.
  rewrite Nat2Z.inj_succ, <- Z.add_1_l, Qpower_plus by (intros H; discriminate H).
  reflexivity.
Qed.

Lemma pow09_bounds (k : nat) : 0 < 0.9 ^ Z.of_nat k <= 1.
Proof.
  induction k as [|k IH].
  - change (0 < 1 <= 1). split; lra.
  - rewrite pow09_succ. destruct IH. split; lra.
Qed.

(** Bernoulli's inequality, in the form [0.9^k * (9 + k) <= 9]. *)
Lemma pow09_bernoulli (k : nat) :
  0.9 ^ Z.of_nat k * (9 + inject_Z (Z.of_nat k)) <= 9.
Proof.
  induction k as [|k IH].
  - change (1 * (9 + 0) <= 9). lra.
  - rewrite pow09_succ.
    assert (E : inject_Z (Z.of_nat (S k)) == inject_Z (Z.of_nat k) + 1).
    { rewrite Nat2Z.inj_succ, <- Z.add_1_r, inject_Z_plus. reflexivity. }
    rewrite E. destruct (pow09_bounds k) as [P0 P1].
    set (p := 0.9 ^ Z.of_nat k) in *. set (n := inject_Z (Z.of_nat k)) in *.
    assert (R : 0.9 * p * (9 + (n + 1)) == 0.9 * (p * (9 + n)) + 0.9 * p) by ring.
    rewrite R. lra.
Qed.

(** Over frames of luminance 0.09 the distance to 2 shrinks by the factor
    0.9 at each sample tick and is untouched by the other frames. *)
Lemma runFrames_closed_form (frames : list (Q * list Z)) (s : State) :
  enabled s ->
  Forall (fun f => avgLuma (snd f) == 0.09) frames ->
  2 - aeGain (runFrames frames s)
  == 0.9 ^ Z.of_nat (sampleTicks frames s) * (2 - aeGain s).
Proof.
  revert s. induction frames as [|[dt px] rest IH]; intros s En All.
  - change (2 - aeGain s == 1 * (2 - aeGain s)). ring.
  - inversion All as [|f fs Hf Hrest]; subst. cbn in Hf.
    cbn [runFrames sampleTicks].
    rewrite (IH _ (update_keeps_enabled dt px s En) Hrest).
    rewrite (update_when_enabled dt px s En).
    destruct (isSampleTick dt s).
    + change (1 + ?n)%nat with (S n). rewrite pow09_succ.
      rewrite (desiredGain_at_009 _ Hf). unfold adapt. ring.
    + cbn [Nat.add]. ring.
Qed.

Lemma runFrames_app (f1 f2 : list (Q * list Z)) (s : State) :
  runFrames (f1 ++ f2) s = runFrames f2 (runFrames f1 s).
Proof.
  revert s. induction f1 as [|[dt px] f1 IH]; intros s; cbn; [reflexivity | apply IH].
Qed.

Lemma runFrames_keeps_enabled (frames : list (Q * list Z)) (s : State) :
  enabled s -> enabled (runFrames frames s).
Proof.
  revert s. induction frames as [|[dt px] rest IH]; intros s En; cbn.
  - exact En.
  - apply IH, update_keeps_enabled, En.
Qed.

(** The factor [0.9^k] gets below any positive bound. *)
Lemma pow09_vanishes (d e : Q) :
  0 <= d -> 0 < e ->
  exists K : nat, forall k : nat, (K <= k)%nat -> 0.9 ^ Z.of_nat k * d < e.
Proof.
  intros Hd He.
  destruct (Qarchimedean (9 * d / e)) as [P HP].
  exists (Pos.to_nat P). intros k Hk.
  assert (HP' : 9 * d < inject_Z (Z.pos P) * e).
  { assert (E : 9 * d == 9 * d / e * e) by (field; lra).
    rewrite E. apply Qmult_lt_compat_r; assumption. }
  assert (Hn : inject_Z (Z.pos P) <= inject_Z (Z.of_nat k)).
  { rewrite <- Zle_Qle. lia. }
  destruct (pow09_bounds k) as [P0 P1]. pose proof (pow09_bernoulli k) as B.
  set (p := 0.9 ^ Z.of_nat k) in *. set (n := inject_Z (Z.of_nat k)) in *.
  assert (Hpos : 0 < 9 + n).
  { assert (0 <= n) by (unfold n; rewrite <- (Zle_Qle 0); lia). lra. }
  apply (Qmult_lt_r _ _ (9 + n) Hpos).
  assert (H1 : p * d * (9 + n) <= 9 * d).
  { assert (E : p * d * (9 + n) == p * (9 + n) * d) by ring.
    rewrite E. apply Qmult_le_compat_r; assumption. }
  assert (H2 : inject_Z (Z.pos P) * e <= n * e).
  { apply Qmult_le_compat_r; [exact Hn | lra]. }
  assert (H3 : e * (9 + n) == n * e + 9 * e) by ring.
  rewrite H3. lra.
Qed.

(** C5. With night vision enabled and every measured frame of average
    luminance 0.09 (target 0.18): the clamped desired gain is
    [min(maxGain, 0.18 / 0.09) = 2]; each sample tick updates the gain by
    [gain + (clamp(0.18 / max(eps, 0.09), minGain, maxGain) - gain) * 0.10],
    a step of exactly a tenth of the remaining distance; over any run of
    frames the distance to 2 is [0.9^k] times what it was, [k] the number
    of sample ticks, so the gain moves monotonically towards 2 along the
    run, never passes it, and comes within any positive bound of it after
    enough sample ticks. *)
Theorem autoGain_approaches_target (s : State) (frames : list (Q * list Z)) :
  nightVisionOn s = true ->
  is_Some (nightVisionPass s) ->
  Forall (fun f => avgLuma (snd f) == 0.09) frames ->
  Qmin aeMaxGain (0.18 / 0.09) == 2 /\
  (forall dt px, avgLuma px == 0.09 -> isSampleTick dt s = true ->
     let g' := aeGain (updateNightVisionAutoGain dt px s) in
     g' == aeGain s
           + (Qmax aeMinGain (Qmin aeMaxGain (0.18 / Qmax eps 0.09)) - aeGain s) * 0.10
     /\ g' - aeGain s == 0.10 * (2 - aeGain s)) /\
  2 - aeGain (runFrames frames s)
    == 0.9 ^ Z.of_nat (sampleTicks frames s) * (2 - aeGain s) /\
  (forall f1 f2, frames = f1 ++ f2 ->
     (aeGain s <= 2 ->
        aeGain s <= aeGain (runFrames f1 s) /\
        aeGain (runFrames f1 s) <= aeGain (runFrames frames s) /\
        aeGain (runFrames frames s) <= 2) /\
     (2 <= aeGain s ->
        2 <= aeGain (runFrames frames s) /\
        aeGain (runFrames frames s) <= aeGain (runFrames f1 s) /\
        aeGain (runFrames f1 s) <= aeGain s)) /\
  (forall e, 0 < e ->
     exists K : nat, forall fs,
       Forall (fun f => avgLuma (snd f) == 0.09) fs ->
       (K <= sampleTicks fs s)%nat ->
       Qabs (2 - aeGain (runFrames fs s)) < e).
Proof.
  intros On Pass All.
  assert (En : enabled s) by (split; assumption).
  split; [|split; [|split; [|split]]].
  - destruct (Q.min_spec aeMaxGain (0.18 / 0.09)) as [[L E]|[L E]]; rewrite E.
    + exfalso. revert L. unfold aeMaxGain. apply Qle_not_lt. discriminate.
    + reflexivity.
  - intros dt px Hpx Tick g'. subst g'.
    rewrite (update_when_enabled dt px s En), Tick.
    pose proof (desiredGain_at_009 _ Hpx) as D.
    pose proof (desiredGain_at_009 0.09 (Qeq_refl _)) as D'.
    unfold desiredGain, aeTargetLuma in D, D'. unfold adapt.
    split.
    + unfold desiredGain, aeTargetLuma. rewrite D, D'. reflexivity.
    + unfold desiredGain, aeTargetLuma. rewrite D. ring.
  - apply runFrames_closed_form; assumption.
  - intros f1 f2 ->.
    apply Forall_app in All as [All1 All2].
    pose proof (runFrames_closed_form f1 s En All1) as C1.
    pose proof (runFrames_closed_form f2 _ (runFrames_keeps_enabled f1 s En) All2) as C2.
    rewrite runFrames_app.
    destruct (pow09_bounds (sampleTicks f1 s)) as [A0 A1].
    destruct (pow09_bounds (sampleTicks f2 (runFrames f1 s))) as [B0 B1].
    set (a := 0.9 ^ Z.of_nat (sampleTicks f1 s)) in *.
    set (b := 0.9 ^ Z.of_nat (sampleTicks f2 (runFrames f1 s))) in *.
    set (g0 := aeGain s) in *. set (g1 := aeGain (runFrames f1 s)) in *.
    set (g2 := aeGain (runFrames f2 (runFrames f1 s))) in *.
    split; intros H.
    + assert (D1 : 0 <= a * (2 - g0) <= 2 - g0) by (split; nra).
      assert (D2 : 0 <= b * (2 - g1) <= 2 - g1) by (split; nra).
      repeat split; lra.
    + assert (D1 : 2 - g0 <= a * (2 - g0) <= 0) by (split; nra).
      assert (D2 : 2 - g1 <= b * (2 - g1) <= 0) by (split; nra).
      repeat split; lra.
  - intros e He.
    destruct (pow09_vanishes (Qabs (2 - aeGain s)) e (Qabs_nonneg _) He) as [K HK].
    exists K. intros fs Hfs Hticks.
    rewrite (runFrames_closed_form fs s En Hfs), Qabs_Qmult.
    rewrite (Qabs_pos (0.9 ^ _)) by (apply Qlt_le_weak, pow09_bounds).
    apply HK, Hticks.
Qed.

Lemma autoGain_approaches_target_witness :
  nightVisionOn dimState = true /\
  avgLuma dimFrame == 0.09 /\
  sampleTicks dimFrames dimState = 3%nat /\
  2 - aeGain (runFrames dimFrames dimState)
    == 0.9 ^ Z.of_nat (sampleTicks dimFrames dimState) * (2 - aeGain dimState).
Proof.
  split; [reflexivity|]. split; [exact dimFrame_luma|].
  split; [lazy; reflexivity|].
  refine (proj1 (proj2 (proj2
    (autoGain_approaches_target dimState dimFrames eq_refl _ _)))).
  - eexists; reflexivity.
  - unfold dimFrames.
    repeat (apply Forall_cons_2; [exact dimFrame_luma|]). apply Forall_nil_2.
Defined.

End NightVisionFacts.

(* ================================================================== *)
(** ** Proofs: hover glow cutoff *)
(* ================================================================== *)

Section GlowFacts.
Import Glow.

Lemma positive_not_zero (t0 : Q) : 0 < t0 -> Qeq_bool t0 0 = false.
Proof.
  intros H. destruct (Qeq_bool t0 0) eqn:E; [|reflexivity].
  apply Qeq_bool_iff in E. lra.
Qed.

Lemma retarget_glowing (t0 now : Q) (c : Color) (st : GlowSt) :
  0 < t0 -> glowing t0 st ->
  glowing t0 (retarget true c now st) \/ forced t0 (retarget true c now st).
Proof.
  intros Ht (Es & Ef & Et). unfold retarget.
  rewrite Es, Ef, (positive_not_zero t0 Ht).
  destruct (Qle_bool MAX_GLOW_HOVER_MS (now - t0)).
  - right. repeat split.
  - left. repeat split.
Qed.

Lemma retarget_forced (t0 now : Q) (c : Color) (st : GlowSt) :
  0 < t0 -> forced t0 st -> forced t0 (retarget true c now st).
Proof.
  intros Ht (Es & Ef & Et). unfold retarget.
  rewrite Es, Ef, (positive_not_zero t0 Ht). repeat split.
Qed.

Lemma retarget_past_cutoff (t0 now : Q) (c : Color) (st : GlowSt) :
  0 < t0 -> MAX_GLOW_HOVER_MS <= now - t0 ->
  glowing t0 st \/ forced t0 st -> forced t0 (retarget true c now st).
Proof.
  intros Ht Hnow [(Es & Ef & Et)|F]; [|apply retarget_forced; assumption].
  unfold retarget. rewrite Es, Ef, (positive_not_zero t0 Ht).
  apply Qle_bool_iff in Hnow. rewrite Hnow. repeat split.
Qed.

Lemma cutoff_glowing (t0 now : Q) (st : GlowSt) :
  glowing t0 st -> glowing t0 (cutoff now st) \/ forced t0 (cutoff now st).
Proof.
  intros (Es & Ef & Et). unfold cutoff. rewrite Es, Ef, Et.
  destruct (_ && _).
  - right. repeat split; cbn; assumption.
  - left. repeat split; assumption.
Qed.

Lemma cutoff_forced (t0 now : Q) (st : GlowSt) :
  forced t0 st -> cutoff now st = st.
Proof.
  intros (Es & Ef & Et). unfold cutoff. rewrite Ef.
  rewrite !andb_false_r. reflexivity.
Qed.

Lemma cutoff_past_cutoff (t0 now : Q) (st : GlowSt) :
  0 < t0 -> MAX_GLOW_HOVER_MS <= now - t0 ->
  glowing t0 st \/ forced t0 st -> forced t0 (cutoff now st).
Proof.
  intros Ht Hnow [(Es & Ef & Et)|F]; [|rewrite (cutoff_forced t0); assumption].
  unfold cutoff. rewrite Es, Ef, Et, (positive_not_zero t0 Ht).
  apply Qle_bool_iff in Hnow. rewrite Hnow. cbn. repeat split; assumption.
Qed.

Lemma tickEntry_glowing (t0 now : Q) (mat : option Material) (st : GlowSt) :
  glowing t0 st ->
  glowing t0 (tickEntry now mat st) \/ forced t0 (tickEntry now mat st).
Proof.
  intros H. destruct (cutoff_glowing t0 now st H) as [G|F];
    destruct mat; cbn; auto.
Qed.

Lemma tickEntry_forced (t0 now : Q) (mat : option Material) (st : GlowSt) :
  forced t0 st -> forced t0 (tickEntry now mat st).
Proof.
  intros H. unfold tickEntry. rewrite (cutoff_forced t0 now st H).
  destruct mat; exact H.
Qed.

Lemma tickEntry_past_cutoff (t0 now : Q) (mat : option Material) (st : GlowSt) :
  0 < t0 -> MAX_GLOW_HOVER_MS <= now - t0 ->
  glowing t0 st \/ forced t0 st -> forced t0 (tickEntry now mat st).
Proof.
  intros Ht Hnow H. pose proof (cutoff_past_cutoff t0 now st Ht Hnow H) as F.
  destruct mat; exact F.
Qed.

(** *** What the operations do to the entry of one mesh *)

Lemma setGlowTarget_scene mesh on c now s :
  scene (setGlowTarget mesh on c now s) = scene s.
Proof.
  unfold setGlowTarget, ensureGlowState. destruct mesh as [m|]; [|reflexivity].
  destruct (scene s !! m); [|destruct (glowState s !! m); reflexivity].
  destruct (glowState s !! m) eqn:E; cbn.
  - rewrite E. reflexivity.
  - rewrite lookup_insert_eq. reflexivity.
Qed.

Lemma setGlowTarget_same (m : Mesh) on c now s mat :
  scene s !! m = Some mat ->
  glowState (setGlowTarget (Some m) on c now s) !! m
  = Some (retarget on c now (default (freshEntry mat c) (glowState s !! m))).
Proof.
  intros Hm. unfold setGlowTarget, ensureGlowState. rewrite Hm.
  destruct (glowState s !! m) eqn:E; cbn.
  - rewrite E. unfold withGlowState; cbn [glowState default]. apply lookup_insert_eq.
  - rewrite lookup_insert_eq. unfold withGlowState; cbn [glowState default].
    apply lookup_insert_eq.
Qed.

Lemma setGlowTarget_other (m m' : Mesh) on c now s :
  m' <> m ->
  glowState (setGlowTarget (Some m') on c now s) !! m = glowState s !! m.
Proof.
  intros Hne. unfold setGlowTarget, ensureGlowState.
  destruct (scene s !! m');
    [|destruct (glowState s !! m'); [apply lookup_insert_ne, Hne | reflexivity]].
  destruct (glowState s !! m') eqn:E; cbn.
  - rewrite E. unfold withGlowState; cbn [glowState]. apply lookup_insert_ne, Hne.
  - rewrite lookup_insert_eq. unfold withGlowState; cbn [glowState].
    rewrite !lookup_insert_ne by exact Hne. reflexivity.
Qed.

Lemma updateGlow_entry (m : Mesh) now s :
  glowState (updateGlow now s) !! m
  = tickEntry now (scene s !! m) <$> glowState s !! m.
Proof.
  unfold updateGlow. cbn. rewrite map_lookup_imap.
  destruct (glowState s !! m); reflexivity.
Qed.

Lemma updateGlow_scene (m : Mesh) now s :
  is_Some (scene s !! m) -> is_Some (scene (updateGlow now s) !! m).
Proof.
  intros [mat Hm]. unfold updateGlow. cbn. rewrite map_lookup_imap, Hm. cbn.
  destruct (map_imap _ (glowState s) !! m); eexists; reflexivity.
Qed.

Lemma step_scene (m : Mesh) s e :
  is_Some (scene s !! m) -> is_Some (scene (step s e) !! m).
Proof.
  destruct e as [mesh on c now|now]; cbn.
  - rewrite setGlowTarget_scene. auto.
  - apply updateGlow_scene.
Qed.

Lemma run_scene (m : Mesh) evs s :
  is_Some (scene s !! m) -> is_Some (scene (run evs s) !! m).
Proof.
  revert s. induction evs as [|e evs IH]; intros s H; cbn; [exact H|].
  apply IH, step_scene, H.
Qed.

(** *** One event during a hover that began at [t0] *)

Lemma step_hovering (t0 : Q) (m : Mesh) s e :
  0 < t0 -> keepsHover m e ->
  entryIs (hovering t0) m s -> entryIs (hovering t0) m (step s e).
Proof.
  intros Ht Hk (Hs & st & Hst & HP). split; [apply step_scene, Hs|].
  destruct e as [[m'|] on c now|now]; cbn [step].
  - destruct (decide (m' = m)) as [->|Hne].
    + destruct on; [|cbn in Hk; congruence].
      destruct Hs as [mat Hm]. rewrite (setGlowTarget_same m _ _ _ _ mat Hm), Hst. cbn.
      eexists; split; [reflexivity|].
      destruct HP as [G|F]; [apply retarget_glowing; assumption|].
      right; apply retarget_forced; assumption.
    + rewrite (setGlowTarget_other m m') by exact Hne. eauto.
  - eauto.
  - rewrite updateGlow_entry, Hst. cbn. eexists; split; [reflexivity|].
    destruct HP as [G|F]; [apply tickEntry_glowing; assumption|].
    right; apply tickEntry_forced; assumption.
Qed.

Lemma step_forced (t0 : Q) (m : Mesh) s e :
  0 < t0 -> keepsHover m e ->
  entryIs (forced t0) m s -> entryIs (forced t0) m (step s e).
Proof.
  intros Ht Hk (Hs & st & Hst & HP). split; [apply step_scene, Hs|].
  destruct e as [[m'|] on c now|now]; cbn [step].
  - destruct (decide (m' = m)) as [->|Hne].
    + destruct on; [|cbn in Hk; congruence].
      destruct Hs as [mat Hm]. rewrite (setGlowTarget_same m _ _ _ _ mat Hm), Hst. cbn.
      eexists; split; [reflexivity|]. apply retarget_forced; assumption.
    + rewrite (setGlowTarget_other m m') by exact Hne. eauto.
  - eauto.
  - rewrite updateGlow_entry, Hst. cbn. eexists; split; [reflexivity|].
    apply tickEntry_forced; assumption.
Qed.

Lemma step_past_cutoff (t0 : Q) (m : Mesh) s e :
  0 < t0 -> pastCutoff m t0 e ->
  entryIs (hovering t0) m s -> entryIs (forced t0) m (step s e).
Proof.
  intros Ht Hc (Hs & st & Hst & HP). split; [apply step_scene, Hs|].
  destruct e as [[m'|] [|] c now|now]; cbn in Hc; try contradiction.
  - destruct Hc as [-> Hnow]. cbn [step].
    destruct Hs as [mat Hm]. rewrite (setGlowTarget_same m _ _ _ _ mat Hm), Hst. cbn.
    eexists; split; [reflexivity|]. apply retarget_past_cutoff; assumption.
  - cbn [step]. rewrite updateGlow_entry, Hst. cbn. eexists; split; [reflexivity|].
    apply tickEntry_past_cutoff; assumption.
Qed.

Lemma run_hovering (t0 : Q) (m : Mesh) evs s :
  0 < t0 -> Forall (keepsHover m) evs ->
  entryIs (hovering t0) m s -> entryIs (hovering t0) m (run evs s).
Proof.
  intros Ht. revert s. induction evs as [|e evs IH]; intros s Hk H; cbn; [exact H|].
  inversion Hk; subst. apply IH; [assumption|]. apply step_hovering; assumption.
Qed.

Lemma run_forced (t0 : Q) (m : Mesh) evs s :
  0 < t0 -> Forall (keepsHover m) evs ->
  entryIs (forced t0) m s -> entryIs (forced t0) m (run evs s).
Proof.
  intros Ht. revert s. induction evs as [|e evs IH]; intros s Hk H; cbn; [exact H|].
  inversion Hk; subst. apply IH; [assumption|]. apply step_forced; assumption.
Qed.

Lemma run_app evs1 evs2 s : run (evs1 ++ evs2) s = run evs2 (run evs1 s).
Proof. apply fold_left_app. Qed.

Lemma no_time_no_cutoff (now : Q) : Qle_bool MAX_GLOW_HOVER_MS (now - now) = false.
Proof.
  destruct (Qle_bool _ _) eqn:E; [|reflexivity].
  apply Qle_bool_iff in E. unfold MAX_GLOW_HOVER_MS in E. lra.
Qed.

Lemma retarget_from_rest (c : Color) (now : Q) (st : GlowSt) :
  hoverStartMs st = 0 -> forcedOff st = false ->
  glowing now (retarget true c now st).
Proof.
  intros Es Ef. unfold retarget. rewrite Es, Ef.
  change (Qeq_bool 0 0) with true. cbn iota. rewrite no_time_no_cutoff.
  repeat split.
Qed.

Lemma targetOf_entry (P : GlowSt -> Prop) (v : Q) (m : Mesh) (s : State) :
  (forall st, P st -> target st = v) -> entryIs P m s -> targetOf s m = Some v.
Proof.
  intros HP (_ & st & Hst & H). unfold targetOf. rewrite Hst. cbn.
  f_equal. apply HP, H.
Qed.

(** C9. A mesh with an emissive material that is not hovered starts to
    glow (target 1) when the pointer enters it at [t0].  While the hover
    lasts (no [setGlowTarget(mesh, false, ...)] for it), as soon as a
    pointer move over it or a frame looks at the clock
    [MAX_GLOW_HOVER_MS = 2000] ms or more after [t0], its target is 0 and
    stays 0 through whatever else happens during that hover, further
    pointer moves over it included.  Once the hover has ended, at any
    point, entering the mesh again sets the target to 1. *)
Theorem glow_hover_cutoff (s : State) (m : Mesh) (c : Color) (t0 : Q) :
  is_Some (scene s !! m) ->
  notHovered s m ->
  0 < t0 ->
  let s0 := setGlowTarget (Some m) true c t0 s in
  MAX_GLOW_HOVER_MS == 2000 /\
  targetOf s0 m = Some 1 /\
  (forall evs1 e evs2,
     Forall (keepsHover m) (evs1 ++ e :: evs2) ->
     pastCutoff m t0 e ->
     targetOf (run (evs1 ++ [e]) s0) m = Some 0 /\
     targetOf (run (evs1 ++ e :: evs2) s0) m = Some 0) /\
  (forall evs c1 t1 c2 t2,
     let left := setGlowTarget (Some m) false c1 t1 (run evs s0) in
     targetOf left m = Some 0 /\
     targetOf (setGlowTarget (Some m) true c2 t2 left) m = Some 1).
Proof.
  intros Hs Hrest Ht s0.
  assert (Hs0 : is_Some (scene s0 !! m))
    by (unfold s0; rewrite setGlowTarget_scene; exact Hs).
  assert (G0 : entryIs (glowing t0) m s0).
  { split; [exact Hs0|]. destruct Hs as [mat Hm].
    unfold s0. rewrite (setGlowTarget_same m _ _ _ _ mat Hm).
    eexists; split; [reflexivity|].
    unfold notHovered in Hrest. destruct (glowState s !! m) as [st|]; cbn [default].
    - destruct Hrest. apply retarget_from_rest; assumption.
    - apply retarget_from_rest; reflexivity. }
  split; [reflexivity|]. split; [|split].
  - apply (targetOf_entry (glowing t0)); [|exact G0]. intros st (_ & _ & E); exact E.
  - intros evs1 e evs2 Hk Hc.
    apply Forall_app in Hk as [Hk1 Hk2]. inversion Hk2 as [|? ? Hke Hk3]; subst.
    assert (F : entryIs (forced t0) m (run (evs1 ++ [e]) s0)).
    { rewrite run_app. cbn. apply step_past_cutoff; [assumption..|].
      apply run_hovering; [assumption..|].
      destruct G0 as (? & st & ? & ?). split; [assumption|].
      exists st. split; [assumption|]. left; assumption. }
    split.
    + apply (targetOf_entry (forced t0)); [|exact F]. intros st (_ & _ & E); exact E.
    + replace (evs1 ++ e :: evs2) with ((evs1 ++ [e]) ++ evs2)
        by (rewrite <- app_assoc; reflexivity).
      rewrite run_app.
      apply (targetOf_entry (forced t0)); [intros st (_ & _ & E); exact E|].
      apply run_forced; assumption.
  - intros evs c1 t1 c2 t2 left.
    destruct (run_scene m evs s0 Hs0) as [mat Hm].
    assert (Hl : scene left !! m = Some mat)
      by (unfold left; rewrite setGlowTarget_scene; exact Hm).
    unfold targetOf.
    rewrite (setGlowTarget_same m _ _ _ _ mat Hl).
    unfold left at 1 2. rewrite (setGlowTarget_same m _ _ _ _ mat Hm).
    cbn [default fmap option_fmap option_map].
    split; [reflexivity|]. f_equal.
    apply (retarget_from_rest c2 t2); reflexivity.
Qed.

Lemma glow_hover_cutoff_witness :
  targetOf (setGlowTarget (Some 1%positive) true POWER_GLOW_COLOR 1000 demoScene) 1%positive
    = Some 1 /\
  targetOf (run demoHover
              (setGlowTarget (Some 1%positive) true POWER_GLOW_COLOR 1000 demoScene))
           1%positive = Some 0.
Proof.
  assert (Hs : is_Some (scene demoScene !! 1%positive))
    by (eexists; apply lookup_insert_eq).
  assert (Hr : notHovered demoScene 1%positive) by exact I.
  assert (Ht : 0 < 1000) by reflexivity.
  destruct (glow_hover_cutoff demoScene 1%positive POWER_GLOW_COLOR 1000 Hs Hr Ht)
    as (_ & G & C & _).
  split; [exact G|].
  apply (C [EvUpdateGlow 1500]
           (EvSetGlowTarget (Some 1%positive) true POWER_GLOW_COLOR 3000.5)
           [EvUpdateGlow 3010]).
  - repeat (apply Forall_cons_2; [exact I|]). apply Forall_nil_2.
  - split; [reflexivity|]. unfold MAX_GLOW_HOVER_MS. lra.
Defined.

End GlowFacts.

(* ================================================================== *)
(** ** Proofs: the virtual TV *)
(* ================================================================== *)

Section TvFacts.
Import Tv.

Lemma inMenuBtn_spec (p : Q * Q) :
  inMenuBtn p = true <->
  1664 <= fst p <= 1664 + 220 /\ 36 <= snd p <= 36 + 86.
Proof.
  unfold inMenuBtn. rewrite !andb_true_iff, !Qle_bool_iff.
  change menuBtnX with (1920 - 36 - 220). change menuBtnY with 36.
  change (btnW TV_MENU_BTN) with 220. change (btnH TV_MENU_BTN) with 86.
  split.
  - intros [[[A B] C] D]. repeat split; lra.
  - intros [[A B] [C D]]. repeat split; lra.
Qed.

(** C3. For every UV hit [(u, v)] and texture repeat [(rx, ry)] and offset
    [(ox, oy)] the hit mapper gives [px = (u*rx + ox) * 1920] and
    [py = (v*ry + oy) * 1080]; UV (0.95, 0.05) with repeat (1, 1) and offset
    (0, 0) maps to pixel (1824, 54), which is inside the MENU button, the
    rectangle of width 220 and height 86 at [bx = 1920 - 36 - 220 = 1664],
    [by = 36]; and a press there while a photo is shown goes back to the
    menu. *)
Theorem hit_mapper_pixels :
  (forall u v rx ry ox oy,
     hitPixel (mkTexture (Some (rx, ry)) (Some (ox, oy))) (u, v)
     = ((u * rx + ox) * 1920, (v * ry + oy) * 1080)) /\
  (let p := hitPixel (mkTexture (Some (1, 1)) (Some (0, 0))) (0.95, 0.05) in
   fst p == 1824 /\ snd p == 54 /\ inMenuBtn p = true) /\
  (menuBtnX == 1920 - 36 - 220 /\ menuBtnX == 1664 /\ menuBtnY == 36 /\
   btnW TV_MENU_BTN == 220 /\ btnH TV_MENU_BTN == 86) /\
  (forall p, inMenuBtn p = true <->
             menuBtnX <= fst p <= menuBtnX + btnW TV_MENU_BTN /\
             menuBtnY <= snd p <= menuBtnY + btnH TV_MENU_BTN) /\
  (tvUiState (ui photoMode) = PHOTO /\
   tvUiState (ui (step photoMode (pressMenuButton 3000))) = MENU).
Proof.
  split; [reflexivity|].
  split; [repeat split; reflexivity|].
  split; [repeat split; reflexivity|].
  split; [|split; reflexivity].
  intros p. rewrite inMenuBtn_spec.
  change menuBtnX with (1920 - 36 - 220). change menuBtnY with 36.
  change (btnW TV_MENU_BTN) with 220. change (btnH TV_MENU_BTN) with 86.
  split; intros [[A B] [C D]]; repeat split; lra.
Qed.

(** *** Operations outside their state *)

(** C8. Every TV operation invoked outside its valid state returns the
    state it was given, whole: [moveMenuSelection] and [confirmMenuSelection]
    when the TV is off or not in the menu; [nextPhoto], [nextVideo] and
    [nextModel] (and the loads behind them) when the TV is off or in another
    mode; [setTvPower(true)] when the TV is already on, so that no second
    power animation is created ([tvAnim] is the one it was), and likewise
    [setTvPower(false)] when it is already off. *)
Theorem invalid_state_noops (s : State) (delta : Z) (now : Q) (autoPlay allowed : bool) :
  (tvOn (ui s) = false \/ tvUiState (ui s) <> MENU ->
     moveMenuSelection delta now s = s /\ confirmMenuSelection now allowed s = s) /\
  (tvOn (ui s) = false \/ tvUiState (ui s) <> PHOTO ->
     nextPhoto delta s = s /\ loadPhotoAt delta s = s) /\
  (tvOn (ui s) = false \/ tvUiState (ui s) <> VIDEO ->
     nextVideo delta allowed s = s /\ loadVideoAt delta autoPlay allowed s = s) /\
  (tvOn (ui s) = false \/ tvUiState (ui s) <> MODEL3D ->
     nextModel delta allowed s = s /\ loadModelAt delta autoPlay allowed s = s) /\
  (tvOn (ui s) = true ->
     setTvPower true now s = s /\ tvAnim (ui (setTvPower true now s)) = tvAnim (ui s)) /\
  (tvOn (ui s) = false -> setTvPower false now s = s).
Proof.
  assert (G : forall (st : UiState) (a b : State),
            (tvOn (ui s) = false \/ tvUiState (ui s) <> st) ->
            (if negb (tvOn (ui s)) then s else if negb (isUi st s) then s else a) = s /\
            (if negb (tvOn (ui s)) then s else if negb (isUi st s) then s else b) = s).
  { intros st a b [E | H].
    - rewrite E. split; reflexivity.
    - destruct (tvOn (ui s)); [|split; reflexivity]. cbn [negb]. unfold isUi.
      destruct (tvUiState (ui s)), st; cbn; try (split; reflexivity);
        contradiction H; reflexivity. }
  split; [|split; [|split; [|split; [|split]]]].
  - intros H. unfold moveMenuSelection, confirmMenuSelection. apply (G MENU _ _ H).
  - intros H. unfold nextPhoto, loadPhotoAt. apply (G PHOTO _ _ H).
  - intros H. unfold nextVideo, loadVideoAt. apply (G VIDEO _ _ H).
  - intros H. unfold nextModel, loadModelAt. apply (G MODEL3D _ _ H).
  - intros E. unfold setTvPower. rewrite E. split; reflexivity.
  - intros E. unfold setTvPower. rewrite E. reflexivity.
Qed.

Lemma invalid_state_noops_witness :
  moveMenuSelection 1 5000 photoMode = photoMode /\
  nextVideo 1 true photoMode = photoMode /\
  setTvPower true 5000 photoMode = photoMode.
Proof.
  pose proof (invalid_state_noops photoMode 1 5000 true true)
    as (Hmenu & _ & Hvideo & _ & Hpower & _).
  split; [|split].
  - refine (proj1 (Hmenu (or_intror _))). vm_compute. discriminate.
  - refine (proj1 (Hvideo (or_intror _))). vm_compute. discriminate.
  - refine (proj1 (Hpower _)). reflexivity.
Defined.

(** *** Entering the menu *)

Lemma backToMenu_ui (now : Q) (s : State) :
  ui (backToMenu now s) = set_blinkT0 now (set_tvUiState MENU (ui s)).
Proof. reflexivity. Qed.

Lemma stopVideoCompletely_ui (s : State) : ui (stopVideoCompletely s) = ui s.
Proof. unfold stopVideoCompletely. destruct (videoEl (video s)); reflexivity. Qed.

Lemma stopModelCompletely_ui (s : State) : ui (stopModelCompletely s) = ui s.
Proof. unfold stopModelCompletely. destruct (modelVideoEl (model s)); reflexivity. Qed.

Lemma applyTvTextureEnabled_ui (enabled : bool) (s : State) :
  ui (applyTvTextureEnabled enabled s) = ui s.
Proof. unfold applyTvTextureEnabled. destruct (tvScreenMatRef (screen s)); reflexivity. Qed.

(** C2, as the code has it.  Power-on enters the menu with the selection
    index reset to 0 and the blink baseline reset to the current time.  A
    press on the in-canvas MENU button while a photo, a video or a model is
    shown enters the menu with the blink baseline reset to the current
    time, and leaves the selection index as it was. *)
Theorem entering_menu_resets (s : State) (now : Q) (allowed : bool) (uv : Q * Q) :
  (tvOn (ui s) = false ->
     let s' := setTvPower true now s in
     tvOn (ui s') = true /\ tvUiState (ui s') = MENU /\
     menuIndex (ui s') = 0%Z /\ blinkT0 (ui s') = now) /\
  (tvOn (ui s) = true ->
   tvUiState (ui s) = PHOTO \/ tvUiState (ui s) = VIDEO \/ tvUiState (ui s) = MODEL3D ->
   overlayOpen (photo s) = false ->
   videoOverlayOpen (video s) = false ->
   modelOverlayOpen (model s) = false ->
   inMenuBtn (hitPixel (tvTex (screen s)) uv) = true ->
     let s' := onPointerDown (Some (mkHit HitTvScreen (Some uv))) now allowed s in
     tvOn (ui s') = true /\ tvUiState (ui s') = MENU /\
     blinkT0 (ui s') = now /\ menuIndex (ui s') = menuIndex (ui s)).
Proof.
  split.
  - intros E. unfold setTvPower. rewrite E. cbn.
    rewrite !applyTvTextureEnabled_ui. cbn.
    rewrite ?applyTvTextureEnabled_ui. cbn. repeat split; reflexivity.
  - intros On St Ep Ev Em Hit.
    unfold onPointerDown. rewrite On, Ep, Ev, Em. unfold isUi. cbn [orb andb hitObject hitUv].
    destruct St as [St | [St | St]]; rewrite St; cbn [UiState_eqb HitTarget_eqb andb].
    + unfold clickedMenuBtn. rewrite Hit. rewrite backToMenu_ui. cbn.
      rewrite On. repeat split; reflexivity.
    + unfold clickedMenuBtn. rewrite Hit. rewrite backToMenu_ui, stopVideoCompletely_ui. cbn.
      rewrite On. repeat split; reflexivity.
    + unfold clickedMenuBtn. cbn [screen withModel]. rewrite Hit.
      rewrite backToMenu_ui, stopModelCompletely_ui. cbn.
      rewrite On. repeat split; reflexivity.
Qed.

Lemma entering_menu_resets_witness :
  menuIndex (ui (setTvPower true 1000 (init 0 true))) = 0%Z /\
  tvUiState (ui (step modelMode (pressMenuButton 3000))) = MENU /\
  blinkT0 (ui (step modelMode (pressMenuButton 3000))) = 3000.
Proof.
  pose proof (entering_menu_resets (init 0 true) 1000 true (0.95, 0.05)) as [Hon _].
  pose proof (entering_menu_resets modelMode 3000 true (0.95, 0.05)) as [_ Hbtn].
  split; [|split].
  - refine (proj1 (proj2 (proj2 (Hon _)))). reflexivity.
  - refine (proj1 (proj2 (Hbtn _ _ _ _ _ _))); try reflexivity.
    right; right; reflexivity.
  - refine (proj1 (proj2 (proj2 (Hbtn _ _ _ _ _ _)))); try reflexivity.
    right; right; reflexivity.
Defined.

(** The MENU button pressed while the second menu item (VIDEO) is shown:
    the TV is back in the menu and the selection index is still 1. *)
Lemma menu_button_keeps_selection :
  tvOn (ui videoMode) = true /\ tvUiState (ui videoMode) = VIDEO /\
  let s' := step videoMode (pressMenuButton 3000) in
  tvUiState (ui s') = MENU /\ menuIndex (ui s') = 1%Z /\ menuIndex (ui s') <> 0%Z.
Proof. vm_compute. repeat split; try reflexivity. discriminate. Qed.

(** *** The players stay consistent *)

Ltac split_cases :=
  repeat match goal with
    | |- context [if ?b then _ else _] => destruct b eqn:?
    | |- context [match ?x with Some _ => _ | None => _ end] => destruct x eqn:?
    | |- context [match ?x with MediaVideo => _ | MediaImage => _ end] => destruct x eqn:?
    end.

Ltac wf_done :=
  unfold wf, wfVideo, wfModel in *; cbn in *;
  repeat match goal with
    | H : _ /\ _ |- _ => destruct H
    | H : videoEl ?v = _, H' : context [videoEl ?v] |- _ => rewrite H in H'
    | H : videoEl ?v = _ |- context [videoEl ?v] => rewrite H
    | H : modelVideoEl ?v = _, H' : context [modelVideoEl ?v] |- _ => rewrite H in H'
    | H : modelVideoEl ?v = _ |- context [modelVideoEl ?v] => rewrite H
    | |- context [videoEl ?v] => destruct (videoEl v) eqn:?
    | |- context [modelVideoEl ?v] => destruct (modelVideoEl v) eqn:?
    end;
  cbn in *; try split; try assumption; try reflexivity; try congruence.

Ltac wf_crush := intros; split_cases; wf_done.

Create HintDb tvwf.

Lemma wf_same (s s' : State) :
  video s' = video s -> model s' = model s -> wf s -> wf s'.
Proof. unfold wf. intros -> ->. auto. Qed.

Lemma wf_draw op s : wf s -> wf (draw op s).
Proof. apply wf_same; reflexivity. Qed.

Lemma wf_withUi f s : wf s -> wf (withUi f s).
Proof. apply wf_same; reflexivity. Qed.

Lemma wf_withPhoto f s : wf s -> wf (withPhoto f s).
Proof. apply wf_same; reflexivity. Qed.

Lemma wf_withScreen f s : wf s -> wf (withScreen f s).
Proof. apply wf_same; reflexivity. Qed.

Lemma wf_clearTvScreen s : wf s -> wf (clearTvScreen s).
Proof. apply wf_same; reflexivity. Qed.

Lemma wf_drawTvMenu now s : wf s -> wf (drawTvMenu now s).
Proof. apply wf_same; reflexivity. Qed.

Lemma wf_applyTvTextureEnabled b s : wf s -> wf (applyTvTextureEnabled b s).
Proof. unfold applyTvTextureEnabled. wf_crush. Qed.

Lemma wf_drawPhotoToTv img s : wf s -> wf (drawPhotoToTv img s).
Proof. unfold drawPhotoToTv. cbn. wf_crush. Qed.

Lemma wf_drawVideoFrameToTv s : wf s -> wf (drawVideoFrameToTv s).
Proof. unfold drawVideoFrameToTv. cbn. wf_crush. Qed.

Lemma wf_drawModelFrameToTv now s : wf s -> wf (drawModelFrameToTv now s).
Proof. unfold drawModelFrameToTv. cbn. wf_crush. Qed.

Lemma wf_drawModelToTv now s : wf s -> wf (drawModelToTv now s).
Proof.
  unfold drawModelToTv. intros H. split_cases;
    auto using wf_drawPhotoToTv, wf_drawModelFrameToTv.
Qed.

#[local] Hint Resolve wf_draw wf_withUi wf_withPhoto wf_withScreen wf_clearTvScreen
  wf_drawTvMenu wf_applyTvTextureEnabled wf_drawPhotoToTv wf_drawVideoFrameToTv
  wf_drawModelFrameToTv wf_drawModelToTv : tvwf.

Lemma wf_withVideoFlag f s :
  (forall r, videoEl (f r) = videoEl r /\ videoPlaying (f r) = videoPlaying r) ->
  wf s -> wf (withVideo f s).
Proof.
  intros Hf [Hv Hm]. split; [|exact Hm]. unfold wfVideo in *. cbn.
  destruct (Hf (video s)) as [-> ->]. exact Hv.
Qed.

Lemma wf_withModelFlag f s :
  (forall r, modelVideoEl (f r) = modelVideoEl r /\ modelPlaying (f r) = modelPlaying r) ->
  wf s -> wf (withModel f s).
Proof.
  intros Hf [Hv Hm]. split; [exact Hv|]. unfold wfModel in *. cbn.
  destruct (Hf (model s)) as [-> ->]. exact Hm.
Qed.

Lemma wf_withModelFlag_false f s :
  (forall r, modelVideoEl (f r) = modelVideoEl r /\ modelPlaying (f r) = false) ->
  wf s -> wf (withModel f s).
Proof.
  intros Hf [Hv Hm]. split; [exact Hv|]. unfold wfModel in *. cbn.
  destruct (Hf (model s)) as [-> ->]. destruct (modelVideoEl (model s)); auto.
Qed.

Lemma wf_loadPhotoAt i s : wf s -> wf (loadPhotoAt i s).
Proof. unfold loadPhotoAt. wf_crush. Qed.

Lemma wf_photoLoaded k w h s : wf s -> wf (photoLoaded k w h s).
Proof.
  unfold photoLoaded, settle. intros H. split_cases; [|exact H].
  apply wf_drawPhotoToTv. revert H. apply wf_same; reflexivity.
Qed.

Lemma wf_photoFailed k s : wf s -> wf (photoFailed k s).
Proof. unfold photoFailed, settle. wf_crush. Qed.

Lemma wf_nextPhoto d s : wf s -> wf (nextPhoto d s).
Proof. unfold nextPhoto. intros H. split_cases; auto using wf_loadPhotoAt. Qed.

Lemma wf_openPhotoOverlay u s : wf s -> wf (openPhotoOverlay u s).
Proof. unfold openPhotoOverlay. intros H. destruct u; split_cases; auto with tvwf. Qed.

Lemma wf_ensureVideoEl s : wf s -> wf (ensureVideoEl s).
Proof. unfold ensureVideoEl. wf_crush. Qed.

Lemma wf_playVideo a s : wf s -> wf (playVideo a s).
Proof. unfold playVideo, updVideoEl. wf_crush. Qed.

Lemma wf_pauseVideo s : wf s -> wf (pauseVideo s).
Proof. unfold pauseVideo, videoListener, updVideoEl. wf_crush. Qed.

Lemma wf_stopVideoCompletely s : wf s -> wf (stopVideoCompletely s).
Proof. unfold stopVideoCompletely, videoListener, updVideoEl. wf_crush. Qed.

Lemma wf_loadVideoAt i ap a s : wf s -> wf (loadVideoAt i ap a s).
Proof.
  unfold loadVideoAt. intros H.
  destruct (negb (tvOn (ui s))); [exact H|].
  destruct (negb (isUi VIDEO s)); [exact H|].
  assert (W : wf (clearTvScreen
                    (updVideoEl (elLoad (jsIndex VIDEO_PATHS (wrapIndex i (zlength VIDEO_PATHS))))
                       (updVideoEl (elSeek 0)
                          (videoListener PauseEvent false
                             (updVideoEl elPause
                                (withVideo (fun r => set_videoPlaying false (set_videoReady false r))
                                   (withVideo (set_videoIndex (wrapIndex i (zlength VIDEO_PATHS)))
                                      (ensureVideoEl s))))))))).
  { apply wf_clearTvScreen. pose proof (wf_ensureVideoEl s H) as E. revert E.
    unfold videoListener, updVideoEl. generalize (ensureVideoEl s). wf_crush. }
  destruct ap; [apply wf_playVideo|]; exact W.
Qed.

Lemma wf_toggleVideoPlayPause a s : wf s -> wf (toggleVideoPlayPause a s).
Proof.
  unfold toggleVideoPlayPause. intros H.
  split_cases; auto using wf_playVideo, wf_pauseVideo.
Qed.

Lemma wf_nextVideo d a s : wf s -> wf (nextVideo d a s).
Proof. unfold nextVideo. intros H. split_cases; auto using wf_loadVideoAt. Qed.

Lemma wf_videoLoadedData w h a s : wf s -> wf (videoLoadedData w h a s).
Proof.
  unfold videoLoadedData, videoListener. intros H.
  destruct (videoEl (video s)) eqn:E; [|exact H].
  assert (W : wf (withVideo (set_videoReady true) (updVideoEl (elDecoded w h) s))).
  { revert H. unfold updVideoEl. wf_crush. }
  split_cases;
    try (apply wf_withVideoFlag; [intros r; split; reflexivity|]; apply wf_playVideo);
    auto using wf_drawVideoFrameToTv.
Qed.

Lemma wf_videoReachesEnd s : wf s -> wf (videoReachesEnd s).
Proof. unfold videoReachesEnd, videoListener, updVideoEl. wf_crush. Qed.

Lemma wf_ensureModelVideoEl s : wf s -> wf (ensureModelVideoEl s).
Proof. unfold ensureModelVideoEl. wf_crush. Qed.

Lemma wf_ensureModelImageEl s : wf s -> wf (ensureModelImageEl s).
Proof. unfold ensureModelImageEl. wf_crush. Qed.

Lemma wf_playModel a s : wf s -> wf (playModel a s).
Proof. unfold playModel, updModelVideoEl. wf_crush. Qed.

Lemma wf_modelElPause s : wf s -> wf (modelElPause s).
Proof. unfold modelElPause, modelListener, updModelVideoEl. wf_crush. Qed.

Lemma wf_pauseModel s : wf s -> wf (pauseModel s).
Proof.
  unfold pauseModel. intros H. split_cases; try exact H.
  apply wf_withModelFlag_false; [intros r; split; reflexivity|].
  apply wf_modelElPause, H.
Qed.

Lemma wf_stopModelCompletely s : wf s -> wf (stopModelCompletely s).
Proof.
  unfold stopModelCompletely. intros H. split_cases; [|exact H].
  pose proof (wf_modelElPause s H) as E. revert E.
  unfold updModelVideoEl. generalize (modelElPause s). wf_crush.
Qed.

Lemma wf_loadModelAt i ap a s : wf s -> wf (loadModelAt i ap a s).
Proof.
  unfold loadModelAt. intros H.
  destruct (negb (tvOn (ui s))); [exact H|].
  destruct (negb (isUi MODEL3D s)); [exact H|].
  set (s1 := clearTvScreen _).
  assert (W1 : wf s1).
  { apply wf_clearTvScreen, wf_withModelFlag_false; [intros r; split; reflexivity|].
    exact H. }
  clearbody s1.
  destruct (isImageUrl _).
  - set (s2 := ensureModelImageEl _).
    assert (W2 : wf s2).
    { apply wf_ensureModelImageEl. revert W1. apply wf_withModelFlag.
      intros r; split; reflexivity. }
    clearbody s2.
    assert (W3 : wf match modelVideoEl (model s2) with
                    | Some _ => modelElPause s2
                    | None => s2
                    end)
      by (destruct (modelVideoEl (model s2)); [apply wf_modelElPause|]; exact W2).
    revert W3. generalize (match modelVideoEl (model s2) with
                           | Some _ => modelElPause s2
                           | None => s2
                           end).
    intros s3 W3.
    apply wf_withModelFlag; [intros r; split; reflexivity|].
    apply wf_withModelFlag_false; [intros r; split; reflexivity|]. exact W3.
  - set (s2 := ensureModelVideoEl _).
    assert (W2 : wf s2).
    { apply wf_ensureModelVideoEl. revert W1. apply wf_withModelFlag.
      intros r; split; reflexivity. }
    clearbody s2.
    assert (W3 : wf (updModelVideoEl
                       (elLoad (jsIndex MODEL_PATHS (wrapIndex i (zlength MODEL_PATHS))))
                       (updModelVideoEl (elSeek 0) (modelElPause s2)))).
    { pose proof (wf_modelElPause s2 W2) as E. revert E.
      unfold updModelVideoEl. generalize (modelElPause s2). wf_crush. }
    destruct ap; [apply wf_playModel | apply wf_pauseModel]; exact W3.
Qed.

Lemma wf_modelImageLoaded w h now s : wf s -> wf (modelImageLoaded w h now s).
Proof.
  unfold modelImageLoaded. intros H. split_cases; [|exact H].
  apply wf_drawModelToTv. revert H. apply wf_withModelFlag. intros r; split; reflexivity.
Qed.

Lemma wf_modelImageFailed s : wf s -> wf (modelImageFailed s).
Proof. apply wf_withModelFlag. intros r; split; reflexivity. Qed.

Lemma wf_modelLoadedData w h now a s : wf s -> wf (modelLoadedData w h now a s).
Proof.
  unfold modelLoadedData, modelListener. intros H.
  destruct (modelVideoEl (model s)) eqn:E; [|exact H].
  assert (W : wf (withModel (set_modelReady true) (updModelVideoEl (elDecoded w h) s))).
  { revert H. unfold updModelVideoEl. wf_crush. }
  split_cases;
    try (apply wf_withModelFlag; [intros r; split; reflexivity|]; apply wf_playModel);
    auto using wf_drawModelToTv.
Qed.

Lemma wf_toggleModelPlayPause a s : wf s -> wf (toggleModelPlayPause a s).
Proof.
  unfold toggleModelPlayPause. intros H.
  split_cases; auto using wf_playModel, wf_pauseModel.
Qed.

Lemma wf_nextModel d a s : wf s -> wf (nextModel d a s).
Proof. unfold nextModel. intros H. split_cases; auto using wf_loadModelAt. Qed.

Lemma wf_moveMenuSelection d now s : wf s -> wf (moveMenuSelection d now s).
Proof. unfold moveMenuSelection. intros H. split_cases; auto with tvwf. Qed.

Lemma wf_confirmMenuSelection now a s : wf s -> wf (confirmMenuSelection now a s).
Proof.
  unfold confirmMenuSelection. intros H.
  destruct (negb (tvOn (ui s))); [exact H|].
  destruct (negb (isUi MENU s)); [exact H|].
  destruct (default UiUndefined (jsIndex MENU_ITEMS (menuIndex (ui s))));
    auto 6 using wf_loadPhotoAt, wf_loadVideoAt, wf_loadModelAt, wf_ensureVideoEl,
      wf_ensureModelVideoEl with tvwf.
Qed.

Lemma wf_setTvPower on now s : wf s -> wf (setTvPower on now s).
Proof.
  unfold setTvPower. intros H.
  destruct (_ =? _)%Z; [exact H|].
  apply wf_withUi.
  set (s1 := withUi (set_tvOn on) s). assert (W1 : wf s1) by (apply wf_withUi, H).
  clearbody s1.
  set (s2 := if negb (tvOn (ui s1)) then _ else _).
  assert (W2 : wf s2).
  { unfold s2. destruct (negb (tvOn (ui s1)));
      auto 6 using wf_stopVideoCompletely, wf_stopModelCompletely with tvwf. }
  clearbody s2. destruct (tvOn (ui s2)); auto 6 with tvwf.
Qed.

Lemma wf_updateTv now s : wf s -> wf (updateTv now s).
Proof. unfold updateTv. intros H. split_cases; auto 6 with tvwf. Qed.

Lemma wf_openVideoOverlay s : wf s -> wf (openVideoOverlay s).
Proof.
  unfold openVideoOverlay. intros H. destruct (videoEl (video s)); [|exact H].
  assert (W : wf (pauseVideo (withVideo
            (fun r => set_tvVideoSuppressed false (set_videoOverlayOpen true r)) s))).
  { apply wf_pauseVideo. revert H. apply wf_withVideoFlag. intros r; split; reflexivity. }
  split_cases; auto using wf_drawVideoFrameToTv.
Qed.

Lemma wf_closeVideoOverlay src time paused a s :
  wf s -> wf (closeVideoOverlay src time paused a s).
Proof.
  unfold closeVideoOverlay. intros H.
  set (s1 := withVideo _ s).
  assert (W1 : wf s1) by (revert H; apply wf_withVideoFlag; intros r; split; reflexivity).
  clearbody s1. destruct (videoEl (video s1)) eqn:E; [|exact W1].
  destruct src; [|exact W1].
  assert (W2 : forall time', wf (updVideoEl (elSeek time') s1)).
  { intros time'. revert W1. unfold updVideoEl. wf_crush. }
  destruct (negb paused); [apply wf_playVideo | apply wf_pauseVideo]; apply W2.
Qed.

Lemma wf_openModelOverlay now s : wf s -> wf (openModelOverlay now s).
Proof.
  unfold openModelOverlay. intros H.
  match goal with |- wf (if ?b then _ else _) => destruct b end; [exact H|].
  assert (W : wf (pauseModel (withModel
            (fun r => set_tvModelSuppressed false (set_modelOverlayOpen true r)) s))).
  { apply wf_pauseModel. revert H. apply wf_withModelFlag. intros r; split; reflexivity. }
  split_cases; auto using wf_drawModelFrameToTv.
Qed.

Lemma wf_closeModelOverlay src time paused a s :
  wf s -> wf (closeModelOverlay src time paused a s).
Proof.
  unfold closeModelOverlay. intros H.
  set (s1 := withModel _ s).
  assert (W1 : wf s1) by (revert H; apply wf_withModelFlag; intros r; split; reflexivity).
  clearbody s1. destruct (modelVideoEl (model s1)) eqn:E; [|exact W1].
  destruct src; [|exact W1].
  assert (W2 : forall time', wf (updModelVideoEl (elSeek time') s1)).
  { intros time'. revert W1. unfold updModelVideoEl. wf_crush. }
  destruct (negb paused); [apply wf_playModel | apply wf_pauseModel]; apply W2.
Qed.

Lemma wf_overlayNextPhoto d s : wf s -> wf (overlayNextPhoto d s).
Proof.
  unfold overlayNextPhoto. intros H. destruct (negb _); [exact H|].
  apply wf_openPhotoOverlay, wf_nextPhoto, H.
Qed.

Lemma wf_overlayNextVideo d a s : wf s -> wf (overlayNextVideo d a s).
Proof.
  unfold overlayNextVideo. intros H.
  destruct (negb _); [exact H|]. destruct (negb _); [exact H|].
  apply wf_loadVideoAt. revert H. apply wf_withVideoFlag. intros r; split; reflexivity.
Qed.

Lemma wf_overlayNextModel d a s : wf s -> wf (overlayNextModel d a s).
Proof.
  unfold overlayNextModel. intros H.
  destruct (negb _); [exact H|]. destruct (negb _); [exact H|].
  apply wf_loadModelAt. revert H. apply wf_withModelFlag. intros r; split; reflexivity.
Qed.

Lemma wf_videoFullscreenChange fs s : wf s -> wf (videoFullscreenChange fs s).
Proof.
  unfold videoFullscreenChange. intros H.
  assert (W : forall b, wf (withVideo (set_tvVideoSuppressed b) s))
    by (intros b; revert H; apply wf_withVideoFlag; intros r; split; reflexivity).
  destruct fs; [apply wf_pauseVideo, W|].
  split_cases; auto using wf_drawVideoFrameToTv.
Qed.

Lemma wf_modelFullscreenChange fs now s : wf s -> wf (modelFullscreenChange fs now s).
Proof.
  unfold modelFullscreenChange. intros H.
  assert (W : forall b, wf (withModel (set_tvModelSuppressed b) s))
    by (intros b; revert H; apply wf_withModelFlag; intros r; split; reflexivity).
  destruct fs; [apply wf_pauseModel, W|].
  split_cases; auto using wf_drawModelFrameToTv.
Qed.

Lemma wf_backToMenu now s : wf s -> wf (backToMenu now s).
Proof. unfold backToMenu. auto with tvwf. Qed.

Lemma wf_onPointerDown hit now a s : wf s -> wf (onPointerDown hit now a s).
Proof.
  unfold onPointerDown. intros H. destruct hit as [h|]; [|exact H].
  cbv zeta.
  repeat match goal with
    | |- wf (if ?b then _ else _) => destruct b
    end;
    try exact H;
    auto using wf_backToMenu, wf_openPhotoOverlay, wf_stopVideoCompletely,
      wf_openVideoOverlay, wf_setTvPower, wf_moveMenuSelection, wf_confirmMenuSelection,
      wf_nextPhoto, wf_drawVideoFrameToTv, wf_toggleVideoPlayPause, wf_nextVideo,
      wf_drawModelFrameToTv, wf_toggleModelPlayPause, wf_nextModel.
  - apply wf_backToMenu, wf_stopModelCompletely.
    destruct (hitUv h); [|exact H].
    revert H. apply wf_withModelFlag. intros r; split; reflexivity.
  - apply wf_openModelOverlay.
    destruct (hitUv h); [|exact H].
    revert H. apply wf_withModelFlag. intros r; split; reflexivity.
Qed.

Lemma wf_animate dt now s : wf s -> wf (animate dt now s).
Proof.
  unfold animate. intros H.
  set (s1 := withScreen _ (updateTv now s)).
  assert (W1 : wf s1) by (apply wf_withScreen, wf_updateTv, H).
  clearbody s1. destruct (_ && _); [|exact W1].
  destruct (tvUiState (ui (withScreen (set_tvRedrawAcc 0) s1)));
    split_cases; auto 6 using wf_loadPhotoAt with tvwf.
Qed.

Lemma wf_step s e : wf s -> wf (step s e).
Proof.
  destruct e; cbn [step];
    auto using wf_onPointerDown, wf_animate, wf_photoLoaded, wf_photoFailed,
      wf_videoLoadedData, wf_videoReachesEnd, wf_modelLoadedData, wf_modelImageLoaded,
      wf_modelImageFailed, wf_closeVideoOverlay, wf_closeModelOverlay,
      wf_overlayNextPhoto, wf_overlayNextVideo, wf_overlayNextModel,
      wf_videoFullscreenChange, wf_modelFullscreenChange with tvwf.
Qed.

(** Every state the TV can get into has consistent players. *)
Lemma wf_run evs s : wf s -> wf (run evs s).
Proof.
  revert s. induction evs as [|e evs IH]; intros s H; cbn; [exact H|].
  apply IH, wf_step, H.
Qed.

Lemma wf_init now hasScreen : wf (init now hasScreen).
Proof. split; reflexivity. Qed.

(** *** Power off *)

Lemma stopVideoCompletely_stops (s : State) :
  wfVideo (video s) ->
  videoPlaying (video (stopVideoCompletely s)) = false /\
  match videoEl (video (stopVideoCompletely s)) with
  | Some el => vPaused el = true /\ vCurrentTime el = 0
  | None => True
  end /\
  model (stopVideoCompletely s) = model s /\ screen (stopVideoCompletely s) = screen s.
Proof.
  unfold wfVideo, stopVideoCompletely.
  destruct (videoEl (video s)) as [el|] eqn:E; intros H.
  - cbn. rewrite E. cbn. repeat split; reflexivity.
  - rewrite E. repeat split; auto.
Qed.

Lemma stopModelCompletely_stops (s : State) :
  wfModel (model s) ->
  modelPlaying (model (stopModelCompletely s)) = false /\
  match modelVideoEl (model (stopModelCompletely s)) with
  | Some el => vPaused el = true /\ vCurrentTime el = 0
  | None => True
  end /\
  video (stopModelCompletely s) = video s /\ screen (stopModelCompletely s) = screen s.
Proof.
  unfold wfModel, stopModelCompletely.
  destruct (modelVideoEl (model s)) as [el|] eqn:E; intros H.
  - cbn. rewrite E. cbn. repeat split; reflexivity.
  - rewrite E. repeat split; auto.
Qed.

Lemma clearTvScreen_blank (s : State) (px py : Q) :
  0 <= px -> px < canvasWidth -> 0 <= py -> py < canvasHeight ->
  paintAt (canvas (screen (clearTvScreen s))) px py = Solid "#000000".
Proof.
  intros X0 X1 Y0 Y1. cbn [clearTvScreen texNeedsUpdate draw withScreen screen canvas
                            set_canvas set_tvTexNeedsUpdate paintAt].
  assert (E : inRect 0 0 canvasWidth canvasHeight px py = true).
  { unfold inRect. rewrite !andb_true_iff, !negb_true_iff. repeat split.
    - apply Qle_bool_iff, X0.
    - destruct (Qle_bool (0 + canvasWidth) px) eqn:B; [|reflexivity].
      apply Qle_bool_iff in B. lra.
    - apply Qle_bool_iff, Y0.
    - destruct (Qle_bool (0 + canvasHeight) py) eqn:B; [|reflexivity].
      apply Qle_bool_iff in B. lra. }
  rewrite E. reflexivity.
Qed.

Lemma applyTvTextureEnabled_detaches (s : State) :
  match tvScreenMatRef (screen (applyTvTextureEnabled false s)) with
  | Some m => map m = false /\ emissiveMap m = false
  | None => True
  end /\
  canvas (screen (applyTvTextureEnabled false s)) = canvas (screen s) /\
  video (applyTvTextureEnabled false s) = video s /\
  model (applyTvTextureEnabled false s) = model s.
Proof.
  unfold applyTvTextureEnabled.
  destruct (tvScreenMatRef (screen s)) eqn:E; cbn; [|rewrite E]; repeat split.
Qed.

Lemma updateTv_running (later : Q) (s : State) (anim : Anim) :
  tvAnim (ui s) = Some anim ->
  later / 1000 - animT0 anim < DUR ->
  let s' := updateTv later s in
  tvAnim (ui s') = Some anim /\ tvOn (ui s') = tvOn (ui s) /\
  photo s' = photo s /\ video s' = video s /\ model s' = model s /\ screen s' = screen s.
Proof.
  intros E Hlt. unfold updateTv. rewrite E.
  destruct (tvScreenMatRef (screen s)); [|cbn; rewrite E; repeat split].
  destruct (negb (tvScreenMeshRef (screen s))); [cbn; rewrite E; repeat split|].
  assert (B : Qle_bool DUR (later / 1000 - animT0 anim) = false).
  { destruct (Qle_bool _ _) eqn:B; [|reflexivity]. apply Qle_bool_iff in B.
    apply Qlt_not_le in Hlt. contradiction. }
  cbv zeta. rewrite B.
  repeat match goal with |- context [if ?b then _ else _] => destruct b end;
    cbn; rewrite E; repeat split.
Qed.

(** C4. Powering the TV off from any powered-on state with consistent
    players (every reachable state is one, [wf_run]): by the time
    [setTvPower(false)] returns, the video and model adapters are not
    playing and their elements are paused at time 0, every pixel of the
    canvas is the opaque [#000000] that [clearTvScreen] fills it with, and
    the screen material's [map] and [emissiveMap] are detached; the power
    animation has only just been created, and a frame drawn less than
    0.55 s later finds it still running and leaves all this as it is. *)
Theorem power_off_effects (s : State) (now : Q) :
  tvOn (ui s) = true ->
  wf s ->
  let s' := setTvPower false now s in
  tvOn (ui s') = false /\
  videoPlaying (video s') = false /\
  modelPlaying (model s') = false /\
  match videoEl (video s') with
  | Some el => vPaused el = true /\ vCurrentTime el = 0
  | None => True
  end /\
  match modelVideoEl (model s') with
  | Some el => vPaused el = true /\ vCurrentTime el = 0
  | None => True
  end /\
  (forall px py, 0 <= px -> px < canvasWidth -> 0 <= py -> py < canvasHeight ->
     paintAt (canvas (screen s')) px py = Solid "#000000") /\
  match tvScreenMatRef (screen s') with
  | Some m => map m = false /\ emissiveMap m = false
  | None => True
  end /\
  tvAnim (ui s') = Some (mkAnim 1 0 (now / 1000)) /\
  (forall later, later < now + 550 ->
     let s'' := updateTv later s' in
     tvAnim (ui s'') = tvAnim (ui s') /\ tvOn (ui s'') = false /\
     video s'' = video s' /\ model s'' = model s' /\ screen s'' = screen s').
Proof.
  intros On [Wv Wm] s'.
  set (s1 := withUi (set_tvOn false) s).
  set (s2 := stopVideoCompletely s1).
  set (s3 := stopModelCompletely s2).
  set (s4 := clearTvScreen s3).
  set (s5 := applyTvTextureEnabled false s4).
  assert (E' : s' = withUi (set_tvAnim (Some (mkAnim 1 0 (now / 1000)))) s5).
  { unfold s', setTvPower. rewrite On. cbn [Z.eqb Pos.eqb negb]. cbv zeta.
    change (tvOn (ui (withUi (set_tvOn false) s))) with false. cbn [negb].
    fold s1. fold s2. fold s3. fold s4. fold s5.
    assert (U : tvOn (ui s5) = false).
    { unfold s5. rewrite applyTvTextureEnabled_ui. unfold s4.
      change (ui (clearTvScreen s3)) with (ui s3).
      unfold s3. rewrite stopModelCompletely_ui. unfold s2.
      rewrite stopVideoCompletely_ui. reflexivity. }
    rewrite U. reflexivity. }
  assert (U5 : ui s5 = set_tvOn false (ui s)).
  { unfold s5. rewrite applyTvTextureEnabled_ui. unfold s4.
    change (ui (clearTvScreen s3)) with (ui s3).
    unfold s3. rewrite stopModelCompletely_ui. unfold s2.
    rewrite stopVideoCompletely_ui. reflexivity. }
  destruct (stopVideoCompletely_stops s1 Wv) as (V1 & V2 & V3 & V4). fold s2 in V1, V2, V3, V4.
  assert (Wm2 : wfModel (model s2)) by (rewrite V3; exact Wm).
  destruct (stopModelCompletely_stops s2 Wm2) as (M1 & M2 & M3 & M4).
  fold s3 in M1, M2, M3, M4.
  destruct (applyTvTextureEnabled_detaches s4) as (T1 & T2 & T3 & T4).
  fold s5 in T1, T2, T3, T4.
  assert (Ev : video s' = video s2).
  { rewrite E'. cbn [video withUi]. rewrite T3. unfold s4.
    change (video (clearTvScreen s3)) with (video s3). exact M3. }
  assert (Em : model s' = model s3).
  { rewrite E'. cbn [model withUi]. rewrite T4. reflexivity. }
  assert (Ea : tvAnim (ui s') = Some (mkAnim 1 0 (now / 1000))).
  { rewrite E'. reflexivity. }
  assert (Eo : tvOn (ui s') = false).
  { rewrite E'. cbn [ui withUi]. rewrite U5. reflexivity. }
  split; [exact Eo|].
  split; [rewrite Ev; exact V1|].
  split; [rewrite Em; exact M1|].
  split; [rewrite Ev; exact V2|].
  split; [rewrite Em; exact M2|].
  split.
  { intros px py X0 X1 Y0 Y1. rewrite E'. cbn [screen withUi]. rewrite T2.
    apply clearTvScreen_blank; assumption. }
  split; [rewrite E'; exact T1|].
  split; [exact Ea|].
  intros later Hl s''.
  destruct (updateTv_running later s' _ Ea) as (A1 & A2 & _ & A4 & A5 & A6).
  { cbn [animT0]. unfold DUR, Qdiv. change (/ 1000) with (1 # 1000). lra. }
  fold s'' in A1, A2, A4, A5, A6.
  rewrite A1, A2, Ea, Eo. repeat split; assumption.
Qed.

Lemma power_off_effects_witness :
  videoPlaying (video videoMode) = true /\
  videoPlaying (video (setTvPower false 5000 videoMode)) = false /\
  paintAt (canvas (screen (setTvPower false 5000 videoMode))) 960 540 = Solid "#000000" /\
  tvAnim (ui (setTvPower false 5000 videoMode)) = Some (mkAnim 1 0 (5000 / 1000)).
Proof.
  assert (On : tvOn (ui videoMode) = true) by reflexivity.
  assert (W : wf videoMode) by (split; vm_compute; reflexivity).
  pose proof (power_off_effects videoMode 5000 On W) as (_ & V & _ & _ & _ & P & _ & A & _).
  assert (H1 : 0 <= 960) by (vm_compute; discriminate).
  assert (H2 : 960 < canvasWidth) by reflexivity.
  assert (H3 : 0 <= 540) by (vm_compute; discriminate).
  assert (H4 : 540 < canvasHeight) by reflexivity.
  split; [vm_compute; reflexivity|]. split; [exact V|]. split; [|exact A].
  exact (P 960 540 H1 H2 H3 H4).
Defined.

(** *** The end of a video *)

(** C7, as the code has it.  When a video reaches its natural end the
    video adapter does not advance: reaching the end changes nothing but the
    element's playback position, whatever the state ([videoIndex], the
    playing and ready flags and the rest of the TV are as they were); there
    is no listener for ["ended"]; and the element of every reachable state
    loops, so that the same item restarts at time 0. *)
Theorem video_end_keeps_item :
  (forall s,
     let s' := videoReachesEnd s in
     videoIndex (video s') = videoIndex (video s) /\
     videoPlaying (video s') = videoPlaying (video s) /\
     videoReady (video s') = videoReady (video s) /\
     ui s' = ui s /\ photo s' = photo s /\ model s' = model s /\ screen s' = screen s) /\
  (forall allowed s, videoListener Ended allowed s = s) /\
  (forall now0 hasScreen evs,
     let s := run evs (init now0 hasScreen) in
     match videoEl (video s) with
     | Some el => vLoop el = true /\
                  videoEl (video (videoReachesEnd s)) = Some (elSeek 0 el)
     | None => videoReachesEnd s = s
     end).
Proof.
  split; [|split].
  - intros s. unfold videoReachesEnd.
    destruct (videoEl (video s)) as [el|]; [|repeat split].
    destruct (vLoop el); repeat split.
  - reflexivity.
  - intros now0 hasScreen evs s.
    destruct (wf_run evs _ (wf_init now0 hasScreen)) as [Wv _]. fold s in Wv.
    unfold wfVideo in Wv. unfold videoReachesEnd.
    destruct (videoEl (video s)) as [el|] eqn:E; [|reflexivity].
    rewrite Wv. split; [reflexivity|]. cbn. rewrite E. reflexivity.
Qed.

(** The first video, started from the menu and playing, reaches its end:
    the cursor is still on it, not on the next item. *)
Lemma video_end_does_not_advance :
  tvOn (ui videoMode) = true /\ tvUiState (ui videoMode) = VIDEO /\
  videoIndex (video videoMode) = 0%Z /\ videoPlaying (video videoMode) = true /\
  let s' := step videoMode EvVideoReachesEnd in
  videoIndex (video s') = 0%Z /\
  videoIndex (video s') <> wrapIndex (0 + 1) (zlength VIDEO_PATHS) /\
  (vSrc <$> videoEl (video s')) = Some (jsIndex VIDEO_PATHS 0).
Proof. vm_compute. repeat split; try reflexivity. discriminate. Qed.

(** *** Stale photo loads *)

(** C1, on the code.  With the load of photo 0 in flight, [loadPhotoAt(1)]
    is issued; the second load's callback fires, then the first's: the
    cursor says photo 1 while the image held and drawn is photo 0.  The
    same through the interface alone ([stalePhotoTrace]), where the next
    redraw still shows photo 0. *)
Theorem stale_photo_load_overwrites :
  let photo0 := mkImage (jsIndex PHOTO_PATHS 0) 800 600 in
  (photoLoading (photo photoMode) = true /\
   photoRequests (photo photoMode) = [mkPhotoRequest (jsIndex PHOTO_PATHS 0)] /\
   let s0 := loadPhotoAt 1 photoMode in
   photoRequests (photo s0)
     = [mkPhotoRequest (jsIndex PHOTO_PATHS 0); mkPhotoRequest (jsIndex PHOTO_PATHS 1)] /\
   let s := photoLoaded 0 800 600 (photoLoaded 1 1024 768 s0) in
   photoIndex (photo s) = 1%Z /\
   currentPhotoUrl (photo s) = jsIndex PHOTO_PATHS 1 /\
   photoImage (photo s) = Some photo0 /\
   shownSource (canvas (screen s)) = Some (FromImage photo0)) /\
  (let s := run stalePhotoTrace (init 0 true) in
   tvUiState (ui s) = PHOTO /\
   photoIndex (photo s) = 1%Z /\
   photoRequests (photo s) = [] /\
   photoImage (photo s) = Some photo0 /\
   shownSource (canvas (screen s)) = Some (FromImage photo0)).
Proof. vm_compute. repeat split; reflexivity. Qed.

(** *** Cover fit *)

Lemma cover_rect (w h iw ih : Q) :
  let scale := Qmax (w / iw) (h / ih) in
  let dw := iw * scale * 1.02 in
  let dh := ih * scale * 1.02 in
  matchesCover (Some ((w - dw) * 0.5, (h - dh) * 0.5, dw, dh)) (coverFitSpec w h iw ih).
Proof.
  cbv zeta. unfold matchesCover, coverFitSpec. cbn [cfX cfY cfWidth cfHeight].
  repeat split; try reflexivity; field.
Qed.

Lemma orElse_pos (x d : Z) : (0 < x)%Z -> orElse x d = x.
Proof. intros H. unfold orElse. destruct (Z.eqb_spec x 0); [lia | reflexivity]. Qed.

(** C6. For source dimensions [iw] x [ih] (positive), the photo, video and
    model draw routines (the model's in both its video and its image form)
    all hand [drawImage] the rectangle the specification describes:
    [scale = max(bufferW/iw, bufferH/ih)], width [iw * scale * 1.02],
    height [ih * scale * 1.02], centred on the 1920 x 1080 canvas.  For an
    800 x 600 image the scale is 2.4 and the rectangle is
    [800*2.4*1.02] by [600*2.4*1.02], centred. *)
Theorem cover_fit_identical (iw ih : Z) :
  (0 < iw)%Z -> (0 < ih)%Z ->
  let spec := coverFitSpec canvasWidth canvasHeight (inject_Z iw) (inject_Z ih) in
  (forall s src,
     matchesCover (drawnRect (canvas (screen (drawPhotoToTv (mkImage src iw ih) s)))) spec) /\
  (forall s el,
     videoEl (video s) = Some el -> videoReady (video s) = true ->
     vVideoWidth el = iw -> vVideoHeight el = ih ->
     matchesCover (drawnRect (canvas (screen (drawVideoFrameToTv s)))) spec) /\
  (forall s el now,
     modelMediaType (model s) = MediaVideo ->
     modelVideoEl (model s) = Some el -> modelReady (model s) = true ->
     vVideoWidth el = iw -> vVideoHeight el = ih ->
     matchesCover (drawnRect (canvas (screen (drawModelToTv now s)))) spec) /\
  (forall s src now,
     modelMediaType (model s) = MediaImage ->
     modelImageEl (model s) = Some (mkImage src iw ih) -> modelReady (model s) = true ->
     matchesCover (drawnRect (canvas (screen (drawModelToTv now s)))) spec) /\
  (cfScale spec == Qmax (1920 / inject_Z iw) (1080 / inject_Z ih) /\
   cfWidth spec == inject_Z iw * cfScale spec * 1.02 /\
   cfHeight spec == inject_Z ih * cfScale spec * 1.02 /\
   cfX spec + cfWidth spec / 2 == canvasWidth / 2 /\
   cfY spec + cfHeight spec / 2 == canvasHeight / 2) /\
  (let c := coverFitSpec 1920 1080 800 600 in
   Qmax (1920 / 800) (1080 / 600) == 2.4 /\ cfScale c == 2.4 /\
   cfWidth c == 800 * 2.4 * 1.02 /\ cfHeight c == 600 * 2.4 * 1.02 /\
   cfX c == (1920 - 800 * 2.4 * 1.02) / 2 /\ cfY c == (1080 - 600 * 2.4 * 1.02) / 2).
Proof.
  intros Hw Hh spec.
  assert (Photo : forall s src,
    matchesCover (drawnRect (canvas (screen (drawPhotoToTv (mkImage src iw ih) s)))) spec).
  { intros s src. unfold drawPhotoToTv. cbv zeta.
    match goal with |- context [if ?b then _ else _] => destruct b end;
      apply (cover_rect canvasWidth canvasHeight (inject_Z iw) (inject_Z ih)). }
  split; [exact Photo|]. split; [|split; [|split; [|split]]].
  - intros s el E R W H. unfold drawVideoFrameToTv. rewrite E, R, W, H.
    rewrite (orElse_pos iw 16 Hw), (orElse_pos ih 9 Hh). cbv zeta. cbn [negb].
    repeat match goal with |- context [if ?b then _ else _] => destruct b end;
      apply (cover_rect canvasWidth canvasHeight (inject_Z iw) (inject_Z ih)).
  - intros s el now T E R W H. unfold drawModelToTv, drawModelFrameToTv.
    rewrite T, E, R, W, H.
    rewrite (orElse_pos iw 16 Hw), (orElse_pos ih 9 Hh). cbv zeta. cbn [negb].
    repeat match goal with |- context [if ?b then _ else _] => destruct b end;
      apply (cover_rect canvasWidth canvasHeight (inject_Z iw) (inject_Z ih)).
  - intros s src now T E R. unfold drawModelToTv. rewrite T, E, R. apply Photo.
  - unfold spec, coverFitSpec. cbn [cfScale cfWidth cfHeight cfX cfY].
    repeat split; try reflexivity; unfold canvasWidth, canvasHeight; field.
  - cbv zeta. unfold coverFitSpec. cbn [cfScale cfWidth cfHeight cfX cfY].
    assert (M : Qmax (1920 / 800) (1080 / 600) == 2.4).
    { destruct (Q.max_spec (1920 / 800) (1080 / 600)) as [[L E]|[L E]]; rewrite E.
      - exfalso. revert L. apply Qle_not_lt. discriminate.
      - reflexivity. }
    rewrite M. repeat split; reflexivity.
Qed.

Lemma cover_fit_identical_witness :
  matchesCover
    (drawnRect (canvas (screen (drawPhotoToTv (mkImage None 800 600) photoMode))))
    (coverFitSpec 1920 1080 800 600) /\
  matchesCover
    (drawnRect (canvas (screen (drawVideoFrameToTv
       (withVideo (set_videoEl (Some (mkVideoEl None false 0 true 800 600))) videoMode)))))
    (coverFitSpec 1920 1080 800 600).
Proof.
  assert (Hw : (0 < 800)%Z) by reflexivity.
  assert (Hh : (0 < 600)%Z) by reflexivity.
  pose proof (cover_fit_identical 800 600 Hw Hh) as (P & V & _).
  split; [exact (P photoMode None)|].
  exact (V (withVideo (set_videoEl (Some (mkVideoEl None false 0 true 800 600))) videoMode)
           (mkVideoEl None false 0 true 800 600) eq_refl eq_refl eq_refl eq_refl).
Defined.

End TvFacts.

(* ================================================================== *)
(** ** Further properties: night vision *)
(* ================================================================== *)

Section NightVisionMore.
Import NightVision NightVisionProps.

Lemma update_keeps_lighting (dt : Q) (px : list Z) (s : State) :
  let s' := updateNightVisionAutoGain dt px s in
  baseExposure s' = baseExposure s /\
  toneMappingExposure s' = toneMappingExposure s /\
  hemiIntensity s' = hemiIntensity s /\
  nightVisionOn s' = nightVisionOn s.
Proof.
  unfold updateNightVisionAutoGain.
  destruct (_ || _); [repeat split|].
  destruct (Qlt_le_dec _ _); repeat split.
Qed.

Lemma runFrames_keeps_lighting (frames : list (Q * list Z)) (s : State) :
  baseExposure (runFrames frames s) = baseExposure s /\
  toneMappingExposure (runFrames frames s) = toneMappingExposure s /\
  nightVisionOn (runFrames frames s) = nightVisionOn s.
Proof.
  revert s. induction frames as [|[dt px] rest IH]; intros s; cbn [runFrames].
  - repeat split.
  - destruct (IH (updateNightVisionAutoGain dt px s)) as (A & B & C).
    destruct (update_keeps_lighting dt px s) as (A' & B' & _ & C').
    rewrite A, B, C. repeat split; assumption.
Qed.

(** X1. Switching night vision on, running any number of frames and
    switching it off again puts the tone-mapping exposure back to what it was
    before the switch-on, with the hemisphere light at 0 and the gain as the
    controller left it.  A second switch-on without a switch-off in
    between remembers the night-vision exposure 1.10 instead, and that is
    what the switch-off then restores. *)
Theorem nightVision_restores_exposure (s : State) (frames : list (Q * list Z)) :
  let s2 := runFrames frames (setNightVision true s) in
  let s3 := setNightVision false s2 in
  toneMappingExposure s2 = 1.10 /\
  toneMappingExposure s3 = toneMappingExposure s /\
  hemiIntensity s3 = 0 /\
  nightVisionOn s3 = false /\
  aeGain s3 = aeGain s2 /\
  toneMappingExposure
    (setNightVision false (runFrames frames (setNightVision true (setNightVision true s))))
  = 1.10.
Proof.
  cbv zeta.
  destruct (runFrames_keeps_lighting frames (setNightVision true s)) as (A & B & C).
  destruct (runFrames_keeps_lighting frames (setNightVision true (setNightVision true s)))
    as (A' & B' & C').
  assert (Off : forall x, toneMappingExposure (setNightVision false x) = baseExposure x)
    by reflexivity.
  rewrite !Off, A, A', B.
  repeat split; reflexivity.
Qed.

Lemma byte_range (b : Z) : isByte b = true -> 0 <= inject_Z b <= 255.
Proof.
  unfold isByte. rewrite andb_true_iff, !Z.leb_le. intros [B0 B1].
  rewrite Zle_Qle in B0, B1. split; [exact B0 | exact B1].
Qed.

Lemma pixel_luma_bounds (r g b : Z) :
  isByte r = true -> isByte g = true -> isByte b = true ->
  0 <= 0.2126 * (inject_Z r / 255) + 0.7152 * (inject_Z g / 255)
       + 0.0722 * (inject_Z b / 255) <= 1.
Proof.
  intros Hr Hg Hb.
  apply byte_range in Hr. apply byte_range in Hg. apply byte_range in Hb.
  unfold Qdiv. change (/ 255) with (1 # 255).
  set (x := inject_Z r) in *. set (y := inject_Z g) in *. set (z := inject_Z b) in *.
  split; lra.
Qed.

Lemma lumaLoop_bounds (n : nat) (px : list Z) (sum : Q) :
  (List.length px <= 4 * n)%nat ->
  forallb isByte px = true ->
  sum <= lumaLoop px sum <= sum + inject_Z (Z.of_nat n).
Proof.
  revert px sum. induction n as [|n IH]; intros px sum Hlen Hb.
  - destruct px; [|cbn in Hlen; lia]. cbn. change (inject_Z (Z.of_nat 0)) with 0. lra.
  - assert (Hn : 0 <= inject_Z (Z.of_nat (S n)))
      by (rewrite <- (Zle_Qle 0); lia).
    destruct px as [|r [|g [|b [|a rest]]]]; cbn [lumaLoop]; try lra.
    cbn [forallb] in Hb. rewrite !andb_true_iff in Hb.
    destruct Hb as (Br & Bg & Bb & _ & Brest).
    cbn [List.length] in Hlen.
    destruct (IH rest
                (sum + (0.2126 * (inject_Z r / 255) + 0.7152 * (inject_Z g / 255)
                        + 0.0722 * (inject_Z b / 255)))
                ltac:(lia) Brest) as [L U].
    pose proof (pixel_luma_bounds r g b Br Bg Bb) as [P0 P1].
    assert (E : inject_Z (Z.of_nat (S n)) == inject_Z (Z.of_nat n) + 1).
    { rewrite Nat2Z.inj_succ, <- Z.add_1_r, inject_Z_plus. reflexivity. }
    rewrite E. split; lra.
Qed.

(** X2. For a read-back of at most 32 x 32 RGBA pixels whose components
    are bytes, the measured average luminance lies between 0 and 1. *)
Theorem avgLuma_in_unit_interval (px : list Z) :
  (List.length px <= 4 * Z.to_nat (AE_SIZE * AE_SIZE))%nat ->
  forallb isByte px = true ->
  0 <= avgLuma px <= 1.
Proof.
  intros Hlen Hb. unfold avgLuma.
  destruct (lumaLoop_bounds _ px 0 Hlen Hb) as [L U].
  change (inject_Z (Z.of_nat (Z.to_nat (AE_SIZE * AE_SIZE)))) with 1024 in U.
  change (inject_Z (AE_SIZE * AE_SIZE)) with 1024.
  unfold Qdiv. change (/ 1024) with (1 # 1024).
  set (v := lumaLoop px 0) in *. split; lra.
Qed.

Lemma avgLuma_in_unit_interval_witness : 0 <= avgLuma dimFrame <= 1.
Proof.
  apply avgLuma_in_unit_interval; vm_compute; first [reflexivity | discriminate].
Defined.

(** X3. The desired gain saturates: a scene of luminance at most 0.05625
    (zero and negative readings included, thanks to the [eps] floor) asks
    for the maximum gain 3.20, one of luminance at least 0.225 for the
    minimum 0.80, and in between it is [0.18 / luma]; and a brighter scene
    never asks for more gain than a darker one. *)
Theorem desiredGain_saturates (l1 l2 : Q) :
  l1 <= l2 ->
  desiredGain l2 <= desiredGain l1 /\
  (l1 <= darkLuma -> desiredGain l1 == aeMaxGain) /\
  (brightLuma <= l1 -> desiredGain l1 == aeMinGain) /\
  (darkLuma <= l1 <= brightLuma -> desiredGain l1 == aeTargetLuma / l1).
Proof.
  assert (Div : forall x c, 0 < x -> 0 < c ->
            (aeTargetLuma / x <= c <-> aeTargetLuma <= c * x)).
  { intros x c Hx Hc. split; intros H.
    - apply (Qmult_le_compat_r _ _ x) in H; [|lra].
      assert (E : aeTargetLuma / x * x == aeTargetLuma) by (field; lra).
      rewrite E in H. exact H.
    - apply Qle_shift_div_r; assumption. }
  assert (Floor : forall l, eps <= Qmax eps l /\ l <= Qmax eps l /\
                            (eps <= l -> Qmax eps l == l) /\ (l <= eps -> Qmax eps l == eps)).
  { intros l. destruct (Q.max_spec eps l) as [[L E]|[L E]]; rewrite E;
      repeat split; try lra; intros; lra. }
  assert (Val : forall l d, d == aeTargetLuma / Qmax eps l ->
            (aeMaxGain <= d -> desiredGain l == aeMaxGain) /\
            (d <= aeMinGain -> desiredGain l == aeMinGain) /\
            (aeMinGain <= d <= aeMaxGain -> desiredGain l == d)).
  { intros l d Hd. unfold desiredGain. rewrite <- Hd.
    destruct (Q.min_spec aeMaxGain d) as [[L E]|[L E]];
      destruct (Q.max_spec aeMinGain (Qmin aeMaxGain d)) as [[L' E']|[L' E']];
      rewrite E'; rewrite E in *; unfold aeMinGain, aeMaxGain in *;
      repeat split; intros; lra. }
  assert (Pos : forall l, 0 < Qmax eps l)
    by (intros l; destruct (Floor l) as [F _]; unfold eps in *; lra).
  assert (Mono : forall a b, a <= b ->
            aeTargetLuma / Qmax eps b <= aeTargetLuma / Qmax eps a).
  { intros a b Hab.
    assert (M : Qmax eps a <= Qmax eps b).
    { apply Q.max_lub; [apply Q.le_max_l|].
      apply Qle_trans with b; [exact Hab | apply Q.le_max_r]. }
    apply Qle_shift_div_l; [apply Pos|].
    assert (E : aeTargetLuma / Qmax eps b * Qmax eps a
                == aeTargetLuma * (Qmax eps a / Qmax eps b)).
    { field. pose proof (Pos b). lra. }
    rewrite E.
    assert (R : Qmax eps a / Qmax eps b <= 1).
    { apply Qle_shift_div_r; [apply Pos | lra]. }
    unfold aeTargetLuma. nra. }
  intros H12. split; [|split; [|split]].
  - unfold desiredGain.
    pose proof (Mono l1 l2 H12) as M.
    set (d1 := aeTargetLuma / Qmax eps l1) in *.
    set (d2 := aeTargetLuma / Qmax eps l2) in *.
    apply Q.max_le_compat_l. apply Q.min_le_compat_l. exact M.
  - intros Hd. apply (Val l1 _ (Qeq_refl _)).
    apply Qle_shift_div_l; [apply Pos|].
    destruct (Floor l1) as (F1 & F2 & F3 & F4).
    destruct (Qlt_le_dec l1 eps) as [Lt|Ge].
    + rewrite (F4 (Qlt_le_weak _ _ Lt)). unfold aeMaxGain, eps, aeTargetLuma. lra.
    + rewrite (F3 Ge). unfold aeMaxGain, aeTargetLuma, darkLuma in *. lra.
  - intros Hb. apply (Val l1 _ (Qeq_refl _)).
    destruct (Floor l1) as (F1 & F2 & F3 & F4).
    assert (Ge : eps <= l1) by (unfold brightLuma, eps in *; lra).
    rewrite (F3 Ge). apply Qle_shift_div_r; [unfold eps in Ge; lra|].
    unfold aeMinGain, aeTargetLuma, brightLuma in *. lra.
  - intros [Hd Hb].
    destruct (Floor l1) as (F1 & F2 & F3 & F4).
    assert (Ge : eps <= l1) by (unfold darkLuma, eps in *; lra).
    assert (Pl : 0 < l1) by (unfold eps in Ge; lra).
    destruct (Val l1 (aeTargetLuma / l1)) as (_ & _ & V).
    { rewrite (F3 Ge). reflexivity. }
    apply V. split.
    + apply Qle_shift_div_l; [exact Pl|].
      unfold aeMinGain, aeTargetLuma, brightLuma in *. lra.
    + apply Qle_shift_div_r; [exact Pl|].
      unfold aeMaxGain, aeTargetLuma, darkLuma in *. lra.
Qed.

Lemma desiredGain_saturates_witness :
  desiredGain 0.09 <= desiredGain 0 /\ desiredGain 0 == 3.20.
Proof.
  assert (H : 0 <= 0.09) by (vm_compute; discriminate).
  destruct (desiredGain_saturates 0 0.09 H) as (M & D & _).
  split; [exact M|]. apply D. vm_compute. discriminate.
Defined.

Lemma step_keeps_sync (s : State) (e : Event) :
  uniformInSync s -> uniformInSync (step s e).
Proof.
  unfold uniformInSync. intros H. destruct e as [[|]|dt px]; cbn [step].
  - unfold setNightVision. cbn. destruct (nightVisionPass s); cbn; auto.
  - unfold setNightVision. cbn. destruct (nightVisionPass s); cbn; auto.
  - destruct (_ && _); [|exact H].
    destruct (update_gain_cases dt px s) as [[Eg Ep]|(_ & _ & _ & Ep)]; rewrite Ep.
    + rewrite Eg. exact H.
    + destruct (nightVisionPass s); cbn; auto.
Qed.

(** X4. In every state reachable from the initial one by lamp toggles and
    frames, the [uGain] uniform the shader reads is the controller's
    current [aeGain]: the two never drift apart, whether the write comes
    from a sample tick or from switching night vision on. *)
Theorem gain_uniform_in_sync (postFX : bool) (exposure : Q) (evs : list Event) :
  uniformInSync (run evs (init postFX exposure)).
Proof.
  assert (G : forall evs s, uniformInSync s -> uniformInSync (run evs s)).
  { clear evs. induction evs as [|e evs IH]; intros s H; cbn; [exact H|].
    apply IH, step_keeps_sync, H. }
  apply G. unfold uniformInSync, init. cbn. destruct postFX; cbn; auto.
Qed.

End NightVisionMore.

(* ================================================================== *)
(** ** Further properties: hover glow *)
(* ================================================================== *)

Section GlowMore.
Import Glow GlowProps.

Lemma lerpSpeed_fraction (st : GlowSt) : 0 <= lerpSpeed st <= 1.
Proof.
  unfold lerpSpeed. destruct (Qlt_le_dec _ _); [|destruct (colorEquals _ _)];
    unfold GLOW_LERP_IN, GLOW_LERP_OUT, POWER_GLOW_LERP_OUT; split; lra.
Qed.

Lemma retarget_ok on c now st : entryOk st -> entryOk (retarget on c now st).
Proof.
  intros [Ht _]. unfold entryOk, retarget.
  destruct on; [|cbn; auto].
  destruct (forcedOff st); [cbn; auto|].
  destruct (Qle_bool _ _); cbn; auto.
Qed.

Lemma cutoff_ok now st : entryOk st -> entryOk (cutoff now st).
Proof.
  intros H. unfold cutoff. destruct (_ && _); [|exact H].
  destruct H as [Ht _]. split; cbn; auto.
Qed.

Lemma smooth_ok st : entryOk st -> entryOk (smooth st).
Proof.
  intros [[T0 T1] Tg]. pose proof (lerpSpeed_fraction st) as [S0 S1].
  unfold entryOk, smooth. cbn. split; [|exact Tg].
  set (v := lerpSpeed st) in *. destruct Tg as [-> | ->]; split; nra.
Qed.

Lemma tickEntry_ok now mat st : entryOk st -> entryOk (tickEntry now mat st).
Proof.
  intros H. unfold tickEntry. destruct mat; [apply smooth_ok|]; apply cutoff_ok, H.
Qed.

Lemma freshEntry_ok mat c : entryOk (freshEntry mat c).
Proof. unfold entryOk, freshEntry. cbn. split; [split; lra | auto]. Qed.

Lemma step_entries_ok (s : State) (e : Event) :
  map_Forall (fun _ st => entryOk st) (glowState s) ->
  map_Forall (fun _ st => entryOk st) (glowState (step s e)).
Proof.
  intros H. destruct e as [[m|] on c now|now]; cbn [step]; [|exact H|].
  - unfold setGlowTarget, ensureGlowState.
    destruct (scene s !! m) as [mat|].
    + destruct (glowState s !! m) as [st|] eqn:E; cbn.
      * rewrite E. cbn. apply map_Forall_insert_2; [|exact H].
        apply retarget_ok, (H m st E).
      * rewrite lookup_insert_eq. cbn.
        apply map_Forall_insert_2; [apply retarget_ok, freshEntry_ok|].
        apply map_Forall_insert_2; [apply freshEntry_ok | exact H].
    + destruct (glowState s !! m) as [st|] eqn:E; [|exact H].
      cbn. apply map_Forall_insert_2; [|exact H]. apply retarget_ok, (H m st E).
  - intros m st'. rewrite updateGlow_entry.
    destruct (glowState s !! m) as [st|] eqn:E; cbn; [|discriminate].
    intros [= <-]. apply tickEntry_ok, (H m st E).
Qed.

(** X5. From the scene as loaded, through any pointer moves, pointer
    leaves and frames, every mesh's glow level [t] stays between 0 and 1
    and its target is 0 or 1; so the emissive intensity a frame writes
    into a material is never below the mesh's base intensity nor more than
    0.70 above it. *)
Theorem glow_level_is_fraction (scene0 : gmap Mesh Material) (evs : list Event) :
  map_Forall
    (fun _ st =>
       0 <= t st <= 1 /\ (target st = 0 \/ target st = 1) /\
       baseI st <= emissiveIntensity (glowMaterial st) <= baseI st + 0.70)
    (glowState (run evs (loaded scene0))).
Proof.
  assert (G : forall evs s, map_Forall (fun _ st => entryOk st) (glowState s) ->
                            map_Forall (fun _ st => entryOk st) (glowState (run evs s))).
  { clear evs. induction evs as [|e evs IH]; intros s H; cbn; [exact H|].
    apply IH, step_entries_ok, H. }
  intros m st E.
  destruct (G evs (loaded scene0) (map_Forall_empty _) m st E) as [[T0 T1] Tg].
  split; [split; assumption|]. split; [exact Tg|].
  unfold glowMaterial. cbn.
  destruct (colorEquals _ _); unfold POWER_GLOW_INTENSITY, REMOTE_GLOW_INTENSITY;
    set (v := t st) in *; split; lra.
Qed.

Lemma step_remembersBase scene0 (s : State) (e : Event) :
  remembersBase scene0 s -> remembersBase scene0 (step s e).
Proof.
  intros H m. specialize (H m) as Hm.
  destruct e as [[m'|] on c now|now]; cbn [step]; [| exact Hm |].
  - rewrite setGlowTarget_scene.
    destruct (decide (m' = m)) as [->|Hne];
      [|rewrite (setGlowTarget_other m m') by exact Hne; exact Hm].
    destruct (scene s !! m) as [mat|] eqn:Es.
    + rewrite (setGlowTarget_same m on c now s mat Es).
      destruct (glowState s !! m) as [st|] eqn:E; cbn.
      * destruct Hm as (mat0 & H0 & HE & HI). exists mat0.
        unfold retarget. destruct on; [destruct (forcedOff st); [|destruct (Qle_bool _ _)]|];
          cbn; auto.
      * exists mat. rewrite <- Hm.
        unfold retarget. destruct on; [destruct (Qle_bool _ _)|]; cbn; auto.
    + unfold setGlowTarget, ensureGlowState. rewrite Es.
      destruct (glowState s !! m) as [st|] eqn:E; cbn.
      * rewrite lookup_insert_eq. destruct Hm as (mat0 & H0 & HE & HI). exists mat0.
        unfold retarget. destruct on; [destruct (forcedOff st); [|destruct (Qle_bool _ _)]|];
          cbn; auto.
      * rewrite E. exact Hm.
  - rewrite updateGlow_entry.
    destruct (glowState s !! m) as [st|] eqn:E; cbn.
    + destruct Hm as (mat0 & H0 & HE & HI). exists mat0.
      unfold tickEntry, cutoff. destruct (scene s !! m); destruct (_ && _); cbn; auto.
    + unfold updateGlow. cbn. rewrite !map_lookup_imap, E. cbn.
      rewrite <- Hm. destruct (scene s !! m); reflexivity.
Qed.

Lemma run_remembersBase scene0 evs (s : State) :
  remembersBase scene0 s -> remembersBase scene0 (run evs s).
Proof.
  revert s. induction evs as [|e evs IH]; intros s H; cbn; [exact H|].
  apply IH, step_remembersBase, H.
Qed.

Lemma updateGlow_writes (m : Mesh) now s st :
  is_Some (scene s !! m) ->
  glowState (updateGlow now s) !! m = Some st ->
  scene (updateGlow now s) !! m = Some (glowMaterial st).
Proof.
  intros [mat Hm] H. unfold updateGlow in *. cbn in *.
  rewrite map_lookup_imap, Hm. cbn. rewrite H. reflexivity.
Qed.

(** X6. A mesh's original emissive colour and intensity are remembered for
    good: after any pointer moves, leaves and frames since the scene was
    loaded, the entry of a mesh still holds the emissive colour and
    intensity the mesh was loaded with, a frame writes into the material
    exactly the glow computed from that entry, and once the glow level is
    back at 0 the material written is the loaded one again.  A mesh that
    was never hovered keeps its loaded material. *)
Theorem glow_remembers_base (scene0 : gmap Mesh Material) (evs : list Event)
    (now : Q) (m : Mesh) (mat0 : Material) :
  scene0 !! m = Some mat0 ->
  let s := updateGlow now (run evs (loaded scene0)) in
  match glowState s !! m with
  | Some st =>
      baseE st = emissive mat0 /\ baseI st = emissiveIntensity mat0 /\
      scene s !! m = Some (glowMaterial st) /\
      (t st == 0 -> materialEq (glowMaterial st) mat0)
  | None => scene s !! m = Some mat0
  end.
Proof.
  intros H0 s.
  assert (R : remembersBase scene0 s).
  { apply (step_remembersBase scene0 _ (EvUpdateGlow now)), run_remembersBase.
    intros k. cbn. rewrite lookup_empty. reflexivity. }
  specialize (R m). destruct (glowState s !! m) as [st|] eqn:E.
  - destruct R as (mat & Hm & HE & HI). rewrite H0 in Hm. injection Hm as <-.
    split; [exact HE|]. split; [exact HI|]. split.
    + apply updateGlow_writes; [|exact E].
      apply run_scene. cbn. rewrite H0. eexists; reflexivity.
    + intros Ht. unfold materialEq, colorEq, glowMaterial. cbn.
      rewrite HE, HI, Ht. repeat split; ring.
  - rewrite R. exact H0.
Qed.

Lemma glow_remembers_base_witness :
  match glowState (updateGlow 1416 (run shortHover (loaded remoteScene))) !! 1%positive with
  | Some st =>
      baseE st = mkColor 0.1 0.1 0.1 /\ baseI st = 0.25 /\
      scene (updateGlow 1416 (run shortHover (loaded remoteScene))) !! 1%positive
      = Some (glowMaterial st) /\
      (t st == 0 -> materialEq (glowMaterial st) (mkMaterial (mkColor 0.1 0.1 0.1) 0.25))
  | None =>
      scene (updateGlow 1416 (run shortHover (loaded remoteScene))) !! 1%positive
      = Some (mkMaterial (mkColor 0.1 0.1 0.1) 0.25)
  end.
Proof.
  exact (glow_remembers_base remoteScene shortHover 1416 1%positive
           (mkMaterial (mkColor 0.1 0.1 0.1) 0.25) eq_refl).
Defined.

Lemma fade_step (now : Q) (mat : Material) (st : GlowSt) :
  target st = 0 -> 0 <= t st ->
  let st' := tickEntry now (Some mat) st in
  target st' = 0 /\ 0 <= t st' /\ color st' = color st /\
  t st' == t st * (1 - fadeOutSpeed st).
Proof.
  intros Tg T0.
  assert (C : cutoff now st = st).
  { unfold cutoff. rewrite Tg. change (Qeq_bool 0 1) with false. reflexivity. }
  unfold tickEntry. rewrite C. cbn.
  unfold lerpSpeed, fadeOutSpeed. rewrite Tg.
  destruct (Qlt_le_dec (t st) 0) as [L|L]; [lra|].
  split; [reflexivity|].
  assert (S : 0 <= 1 - (if colorEquals (color st) POWER_GLOW_COLOR
                        then POWER_GLOW_LERP_OUT else GLOW_LERP_OUT)).
  { destruct (colorEquals _ _); unfold POWER_GLOW_LERP_OUT, GLOW_LERP_OUT; lra. }
  split; [|split; [reflexivity | ring]].
  set (v := if colorEquals _ _ then _ else _) in *. set (x := t st) in *. nra.
Qed.

(** X7. Once the hover of a mesh has ended (target 0), every displayed
    frame multiplies its glow level by the same factor, whatever the clock
    says: 0.55 for the power button's colour, 0.78 for the remote
    buttons'.  After [n] frames the level is the starting level times
    that factor to the power [n]; it never reaches a negative value and
    the target stays 0. *)
Theorem glow_fades_geometrically (s : State) (m : Mesh) (st : GlowSt) (nows : list Q) :
  is_Some (scene s !! m) ->
  glowState s !! m = Some st ->
  target st = 0 -> 0 <= t st ->
  exists st',
    glowState (run (frames nows) s) !! m = Some st' /\
    target st' = 0 /\ 0 <= t st' /\
    t st' == t st * (1 - fadeOutSpeed st) ^ Z.of_nat (List.length nows) /\
    fadeOutSpeed st =
      (if colorEquals (color st) POWER_GLOW_COLOR then 0.45 else 0.22).
Proof.
  intros Hs Hst Tg T0.
  assert (G : exists st',
    glowState (run (frames nows) s) !! m = Some st' /\
    target st' = 0 /\ 0 <= t st' /\ color st' = color st /\
    t st' == t st * (1 - fadeOutSpeed st) ^ Z.of_nat (List.length nows)).
  { revert s st Hs Hst Tg T0.
    induction nows as [|now nows IH]; intros s st Hs Hst Tg T0.
    - exists st. split; [exact Hst|]. split; [exact Tg|]. split; [exact T0|].
      split; [reflexivity|]. change (t st == t st * 1). ring.
    - destruct Hs as [mat Hm].
      destruct (fade_step now mat st Tg T0) as (Tg' & T0' & C' & E').
      destruct (IH (updateGlow now s) (tickEntry now (Some mat) st)) as (st' & A & B & C & D & E).
      + apply updateGlow_scene. eexists; exact Hm.
      + rewrite updateGlow_entry, Hst, Hm. reflexivity.
      + exact Tg'.
      + exact T0'.
      + exists st'. split; [exact A|]. split; [exact B|]. split; [exact C|].
        split; [congruence|].
        assert (F : fadeOutSpeed (tickEntry now (Some mat) st) = fadeOutSpeed st)
          by (unfold fadeOutSpeed; rewrite C'; reflexivity).
        rewrite E, E', F.
        cbn [List.length]. rewrite Nat2Z.inj_succ, <- Z.add_1_r.
        set (q := 1 - fadeOutSpeed st).
        assert (P : q ^ (Z.of_nat (List.length nows) + 1)
                    == q ^ Z.of_nat (List.length nows) * q).
        { rewrite Qpower_plus; [reflexivity|].
          unfold q, fadeOutSpeed, POWER_GLOW_LERP_OUT, GLOW_LERP_OUT.
          destruct (colorEquals _ _); intros Z0; lra. }
        rewrite P. ring. }
  destruct G as (st' & A & B & C & _ & E). exists st'.
  repeat split; try assumption.
Qed.

Lemma glow_fades_geometrically_witness :
  exists st',
    glowState (run (frames [16; 32; 48]) fadingPower) !! 1%positive = Some st' /\
    target st' = 0 /\ 0 <= t st' /\
    t st' == t fadingEntry * (1 - fadeOutSpeed fadingEntry) ^ Z.of_nat 3 /\
    fadeOutSpeed fadingEntry =
      (if colorEquals (color fadingEntry) POWER_GLOW_COLOR then 0.45 else 0.22).
Proof.
  assert (Hs : is_Some (scene fadingPower !! 1%positive))
    by (eexists; apply lookup_singleton_eq).
  assert (He : glowState fadingPower !! 1%positive = Some fadingEntry)
    by apply lookup_singleton_eq.
  assert (Ht : 0 <= t fadingEntry) by discriminate.
  exact (glow_fades_geometrically fadingPower 1%positive fadingEntry [16; 32; 48]
           Hs He eq_refl Ht).
Defined.

End GlowMore.

(* ================================================================== *)
(** ** Further properties: the virtual TV *)
(* ================================================================== *)

Section TvMore.
Import Tv TvProps.

Ltac case_split :=
  repeat match goal with
    | |- context [if ?b then _ else _] => destruct b eqn:?
    | |- context [match ?x with Some _ => _ | None => _ end] => destruct x eqn:?
    | |- context [match ?x with MediaVideo => _ | MediaImage => _ end] => destruct x eqn:?
    end.

Lemma cover_covers (iw ih : Q) :
  0 < iw -> 0 < ih ->
  let scale := Qmax (canvasWidth / iw) (canvasHeight / ih) in
  let dw := iw * scale * 1.02 in
  let dh := ih * scale * 1.02 in
  let r := ((canvasWidth - dw) * 0.5, (canvasHeight - dh) * 0.5, dw, dh) in
  coversCanvas r /\ keepsAspect iw ih r.
Proof.
  intros Hw Hh. cbv zeta. unfold coversCanvas, keepsAspect.
  set (sc := Qmax (canvasWidth / iw) (canvasHeight / ih)).
  assert (A : canvasWidth <= iw * sc).
  { assert (E : canvasWidth == canvasWidth / iw * iw) by (field; lra).
    rewrite E at 1. rewrite (Qmult_comm iw sc).
    apply Qmult_le_compat_r; [apply Q.le_max_l | lra]. }
  assert (B : canvasHeight <= ih * sc).
  { assert (E : canvasHeight == canvasHeight / ih * ih) by (field; lra).
    rewrite E at 1. rewrite (Qmult_comm ih sc).
    apply Qmult_le_compat_r; [apply Q.le_max_r | lra]. }
  assert (Wp : 0 <= canvasWidth) by (unfold canvasWidth; lra).
  assert (Hp : 0 <= canvasHeight) by (unfold canvasHeight; lra).
  split; [repeat split; lra|]. split; [ring|].
  destruct (Q.max_spec (canvasWidth / iw) (canvasHeight / ih)) as [[_ E]|[_ E]];
    fold sc in E; rewrite E; [right | left]; field; lra.
Qed.

(** X8. The picture always fills the screen: for a photo of positive
    dimensions, and for a video frame whatever dimensions the element
    reports (0 x 0, before the browser knows them, is taken as 16 x 9), the
    rectangle handed to [drawImage] starts at or before the canvas's top-left
    corner and ends at or after its bottom-right corner, keeps the source's
    proportions, and overshoots the canvas by exactly 2% in the dimension
    that binds. *)
Theorem picture_fills_canvas (s : State) (img : Image) (el : VideoEl) :
  (0 < imgWidth img)%Z -> (0 < imgHeight img)%Z ->
  (0 <= vVideoWidth el)%Z -> (0 <= vVideoHeight el)%Z ->
  videoEl (video s) = Some el -> videoReady (video s) = true ->
  (exists r, drawnRect (canvas (screen (drawPhotoToTv img s))) = Some r /\
             coversCanvas r /\
             keepsAspect (inject_Z (imgWidth img)) (inject_Z (imgHeight img)) r) /\
  (exists r, drawnRect (canvas (screen (drawVideoFrameToTv s))) = Some r /\
             coversCanvas r /\
             keepsAspect (inject_Z (if (vVideoWidth el =? 0)%Z then 16 else vVideoWidth el))
                         (inject_Z (if (vVideoHeight el =? 0)%Z then 9 else vVideoHeight el)) r).
Proof.
  intros Iw Ih Vw Vh E R. split.
  - eexists. split.
    + unfold drawPhotoToTv. cbv zeta.
      match goal with |- context [if ?b then _ else _] => destruct b end; reflexivity.
    + apply cover_covers; rewrite <- (Zlt_Qlt 0); assumption.
  - eexists. split.
    + unfold drawVideoFrameToTv. rewrite E, R. cbv zeta. cbn [negb].
      repeat match goal with |- context [if ?b then _ else _] => destruct b end; reflexivity.
    + apply cover_covers; unfold orElse; rewrite <- (Zlt_Qlt 0);
        match goal with |- context [(?x =? 0)%Z] => destruct (Z.eqb_spec x 0) end; lia.
Qed.

Lemma picture_fills_canvas_witness :
  (exists r, drawnRect (canvas (screen (drawPhotoToTv (mkImage None 800 600)
                                          sizelessVideoMode))) = Some r /\
             coversCanvas r /\ keepsAspect 800 600 r) /\
  (exists r, drawnRect (canvas (screen (drawVideoFrameToTv sizelessVideoMode))) = Some r /\
             coversCanvas r /\ keepsAspect 16 9 r).
Proof.
  assert (Iw : (0 < 800)%Z) by reflexivity.
  assert (Ih : (0 < 600)%Z) by reflexivity.
  assert (Vz : (0 <= 0)%Z) by discriminate.
  assert (E : videoEl (video sizelessVideoMode) = Some sizelessVideo) by reflexivity.
  assert (R : videoReady (video sizelessVideoMode) = true) by (vm_compute; reflexivity).
  exact (picture_fills_canvas sizelessVideoMode (mkImage None 800 600) sizelessVideo
           Iw Ih Vz Vz E R).
Defined.






Lemma updateTv_rest (now : Q) (s : State) :
  tvUiState (ui (updateTv now s)) = tvUiState (ui s) /\
  tvOn (ui (updateTv now s)) = tvOn (ui s) /\
  menuIndex (ui (updateTv now s)) = menuIndex (ui s) /\
  photo (updateTv now s) = photo s /\ video (updateTv now s) = video s /\
  model (updateTv now s) = model s /\ screen (updateTv now s) = screen s.
Proof.
  unfold updateTv. case_split; cbn; repeat split; reflexivity.
Qed.

Lemma animate_menu (dt now : Q) (s : State) :
  tvUiState (ui s) = MENU ->
  shownSource (canvas (screen s)) = None ->
  let s' := animate dt now s in
  shownSource (canvas (screen s')) = None /\
  ui s' = ui (updateTv now s) /\ photo s' = photo s /\ video s' = video s /\
  model s' = model s.
Proof.
  intros St Sh. destruct (updateTv_rest now s) as (U & _ & _ & P & V & M & Sc).
  unfold animate. cbv zeta.
  set (s1 := updateTv now s) in *.
  match goal with |- context [if ?b then _ else _] => destruct b end.
  - cbn [tvUiState ui withScreen]. rewrite U, St. cbn. auto.
  - cbn. rewrite Sc. auto.
Qed.

(** X10. Leaving a gallery by the MENU button stops its player.  With
    the TV on and no overlay open, a press inside the MENU button while
    a video is shown pauses the video element, rewinds it to 0, marks it
    not ready and not playing, and keeps the item and its source; the
    screen shows the menu, and the next frame draws no picture.  The same
    holds for a model video in the 3D MODEL gallery. *)
Theorem menu_button_stops_player (s : State) (now : Q) (allowed : bool) (uv : Q * Q)
    (el : VideoEl) :
  tvOn (ui s) = true ->
  overlayOpen (photo s) = false ->
  videoOverlayOpen (video s) = false ->
  modelOverlayOpen (model s) = false ->
  inMenuBtn (hitPixel (tvTex (screen s)) uv) = true ->
  let s' := onPointerDown (Some (mkHit HitTvScreen (Some uv))) now allowed s in
  (tvUiState (ui s) = VIDEO -> videoEl (video s) = Some el ->
     tvUiState (ui s') = MENU /\
     videoEl (video s') = Some (elSeek 0 (elPause el)) /\
     stopped (videoEl (video s')) (videoReady (video s')) (videoPlaying (video s')) /\
     videoIndex (video s') = videoIndex (video s) /\
     shownSource (canvas (screen s')) = None /\
     forall dt later, shownSource (canvas (screen (animate dt later s'))) = None /\
                      video (animate dt later s') = video s') /\
  (tvUiState (ui s) = MODEL3D -> modelVideoEl (model s) = Some el ->
     tvUiState (ui s') = MENU /\
     modelVideoEl (model s') = Some (elSeek 0 (elPause el)) /\
     stopped (modelVideoEl (model s')) (modelReady (model s')) (modelPlaying (model s')) /\
     modelIndex (model s') = modelIndex (model s) /\
     shownSource (canvas (screen s')) = None /\
     forall dt later, shownSource (canvas (screen (animate dt later s'))) = None /\
                      model (animate dt later s') = model s').
Proof.
  intros On Ep Ev Em Hit. cbv zeta.
  unfold onPointerDown. rewrite On, Ep, Ev, Em. unfold isUi.
  cbn [orb andb hitObject hitUv]. split; intros St E; rewrite St;
    cbn [UiState_eqb HitTarget_eqb andb].
  - unfold clickedMenuBtn. rewrite Hit.
    assert (V : video (backToMenu now (stopVideoCompletely s))
                = set_videoReady false (set_videoEl (Some (elSeek 0 (elPause el)))
                    (set_videoPlaying false (video s)))).
    { unfold stopVideoCompletely. rewrite E. cbn. rewrite E. reflexivity. }
    assert (C : shownSource (canvas (screen (backToMenu now (stopVideoCompletely s)))) = None)
      by reflexivity.
    assert (U : tvUiState (ui (backToMenu now (stopVideoCompletely s))) = MENU)
      by reflexivity.
    rewrite V. cbn. unfold stopped. cbn. repeat split; try reflexivity.
    + exact (proj1 (animate_menu dt later _ U C)).
    + destruct (animate_menu dt later _ U C) as (_ & _ & _ & V' & _).
      rewrite V'. exact V.
  - unfold clickedMenuBtn. cbn [screen withModel]. rewrite Hit.
    set (s1 := withModel _ s).
    assert (E1 : modelVideoEl (model s1) = Some el) by exact E.
    assert (V : model (backToMenu now (stopModelCompletely s1))
                = set_modelReady false (set_modelVideoEl (Some (elSeek 0 (elPause el)))
                    (set_modelPlaying false (model s1)))).
    { unfold stopModelCompletely, modelElPause. rewrite E1. cbn. rewrite E. reflexivity. }
    assert (C : shownSource (canvas (screen (backToMenu now (stopModelCompletely s1)))) = None)
      by reflexivity.
    assert (U : tvUiState (ui (backToMenu now (stopModelCompletely s1))) = MENU)
      by reflexivity.
    rewrite V. cbn. unfold stopped. cbn. repeat split; try reflexivity.
    + exact (proj1 (animate_menu dt later _ U C)).
    + destruct (animate_menu dt later _ U C) as (_ & _ & _ & _ & M').
      rewrite M'. exact V.
Qed.

Lemma menu_button_stops_player_witness :
  stopped (videoEl (video (step videoMode (pressMenuButton 3000))))
          (videoReady (video (step videoMode (pressMenuButton 3000))))
          (videoPlaying (video (step videoMode (pressMenuButton 3000)))) /\
  stopped (modelVideoEl (model (step modelMode (pressMenuButton 3000))))
          (modelReady (model (step modelMode (pressMenuButton 3000))))
          (modelPlaying (model (step modelMode (pressMenuButton 3000)))).
Proof.
  assert (Hit : inMenuBtn (hitPixel (tvTex (screen videoMode)) (0.95, 0.05)) = true)
    by (vm_compute; reflexivity).
  assert (Hit' : inMenuBtn (hitPixel (tvTex (screen modelMode)) (0.95, 0.05)) = true)
    by (vm_compute; reflexivity).
  assert (E : videoEl (video videoMode)
              = Some (mkVideoEl (Some "./assets/Video/01-sweet93-OG.mp4"%string)
                        false 0 true 1280 720))
    by (vm_compute; reflexivity).
  assert (E' : modelVideoEl (model modelMode)
               = Some (mkVideoEl (Some "./assets/3D Model/01-Gate.mp4"%string)
                         false 0 true 1280 720))
    by (vm_compute; reflexivity).
  assert (V : tvUiState (ui videoMode) = VIDEO) by (vm_compute; reflexivity).
  assert (M : tvUiState (ui modelMode) = MODEL3D) by (vm_compute; reflexivity).
  assert (On : tvOn (ui videoMode) = true) by (vm_compute; reflexivity).
  assert (On' : tvOn (ui modelMode) = true) by (vm_compute; reflexivity).
  assert (O1 : overlayOpen (photo videoMode) = false) by (vm_compute; reflexivity).
  assert (O2 : videoOverlayOpen (video videoMode) = false) by (vm_compute; reflexivity).
  assert (O3 : modelOverlayOpen (model videoMode) = false) by (vm_compute; reflexivity).
  assert (O1' : overlayOpen (photo modelMode) = false) by (vm_compute; reflexivity).
  assert (O2' : videoOverlayOpen (video modelMode) = false) by (vm_compute; reflexivity).
  assert (O3' : modelOverlayOpen (model modelMode) = false) by (vm_compute; reflexivity).
  split.
  - exact (proj1 (proj2 (proj2
      (proj1 (menu_button_stops_player videoMode 3000 true (0.95, 0.05) _
                On O1 O2 O3 Hit) V E)))).
  - exact (proj1 (proj2 (proj2
      (proj2 (menu_button_stops_player modelMode 3000 true (0.95, 0.05) _
                On' O1' O2' O3' Hit') M E')))).
Defined.

Lemma state_ext (a b : State) :
  ui a = ui b -> photo a = photo b -> video a = video b -> model a = model b ->
  screen a = screen b -> a = b.
Proof. destruct a, b. cbn. intros -> -> -> -> ->. reflexivity. Qed.

Lemma video_ext (a b : Video) :
  videoIndex a = videoIndex b -> videoEl a = videoEl b -> videoReady a = videoReady b ->
  videoPlaying a = videoPlaying b -> videoWantsAutoPlay a = videoWantsAutoPlay b ->
  videoOverlayOpen a = videoOverlayOpen b -> tvVideoSuppressed a = tvVideoSuppressed b ->
  a = b.
Proof. destruct a, b. cbn. intros -> -> -> -> -> -> ->. reflexivity. Qed.

Lemma wrapIndex_cyclic (i d n : Z) :
  (0 <= i < n)%Z -> (- n <= d)%Z -> wrapIndex (i + d) n = cyclic (i + d) n.
Proof.
  intros Hi Hd. unfold wrapIndex, cyclic.
  rewrite Z.rem_mod_nonneg by lia.
  replace (i + d + n)%Z with (i + d + 1 * n)%Z by lia.
  apply Z_mod_plus_full.
Qed.

Lemma cyclic_range (i n : Z) : (0 < n)%Z -> (0 <= cyclic i n < n)%Z.
Proof. intros H. unfold cyclic. apply Z.mod_pos_bound, H. Qed.

Lemma jsIndex_in_range {A} (l : list A) (i : Z) :
  (0 <= i < zlength l)%Z -> is_Some (jsIndex l i).
Proof.
  intros [H0 H1]. unfold jsIndex, zlength in *.
  destruct (Z.ltb_spec i 0); [lia|].
  destruct (nth_error l (Z.to_nat i)) eqn:E; [eexists; reflexivity|].
  apply nth_error_None in E. lia.
Qed.

Lemma blackScreen_clear (s : State) : blackScreen (canvas (screen (clearTvScreen s))).
Proof. intros px py X0 X1 Y0 Y1. apply clearTvScreen_blank; assumption. Qed.

(** X11. Stepping to the next or previous video (right or left arrow)
    wraps around the list of three, swaps the element's source for the new
    item's file, rewinds it and forgets the decoded frame; the new item
    plays exactly when the old one was playing and the browser lets the
    new one play, and is paused otherwise.  The screen is black at once,
    and frames leave it black for as long as the first frame of the new
    item has not been decoded. *)
Theorem next_video_keeps_play_state (s : State) (delta : Z) (allowed : bool)
    (el : VideoEl) :
  tvOn (ui s) = true -> tvUiState (ui s) = VIDEO ->
  videoEl (video s) = Some el ->
  (0 <= videoIndex (video s) < 3)%Z -> unitStep delta ->
  let s' := nextVideo delta allowed s in
  let i' := cyclic (videoIndex (video s) + delta) 3 in
  let playing := videoPlaying (video s) && negb (vPaused el) && allowed in
  videoIndex (video s') = i' /\
  is_Some (jsIndex VIDEO_PATHS i') /\
  videoEl (video s') =
    Some (mkVideoEl (jsIndex VIDEO_PATHS i') (negb playing) 0 (vLoop el) 0 0) /\
  videoReady (video s') = false /\
  videoPlaying (video s') = playing /\
  blackScreen (canvas (screen s')) /\
  (forall dt now, canvas (screen (animate dt now s')) = canvas (screen s')).
Proof.
  intros On St E Hi Hd. cbv zeta.
  assert (W : wrapIndex (videoIndex (video s) + delta) (zlength VIDEO_PATHS)
              = cyclic (videoIndex (video s) + delta) 3).
  { apply (wrapIndex_cyclic _ _ 3); [exact Hi | destruct Hd; lia]. }
  set (i' := cyclic (videoIndex (video s) + delta) 3) in *.
  assert (R : (0 <= i' < 3)%Z) by (apply cyclic_range; lia).
  set (playing := videoPlaying (video s) && negb (vPaused el) && allowed).
  assert (S' : nextVideo delta allowed s =
    (if playing
     then withVideo (set_videoPlaying true)
     else fun x => x)
      (clearTvScreen
         (withVideo (fun r =>
            set_videoEl (Some (mkVideoEl (jsIndex VIDEO_PATHS i') (negb playing) 0
                                 (vLoop el) 0 0))
              (set_videoPlaying false (set_videoReady false (set_videoIndex i' r)))) s))).
  { unfold nextVideo, loadVideoAt, playVideo, ensureVideoEl, isUi. rewrite On, St, E.
    cbn [negb UiState_eqb]. cbv zeta. rewrite W.
    unfold playing, updVideoEl, videoListener, clearTvScreen, texNeedsUpdate, draw.
    destruct (videoPlaying (video s)) eqn:P, (vPaused el), allowed; cbn;
      rewrite ?On, ?St, ?E; cbn; rewrite ?E;
      (apply state_ext; [reflexivity | reflexivity | | reflexivity | reflexivity]);
      apply video_ext; cbn; rewrite ?E; reflexivity. }
  rewrite S'.
  assert (Sel : forall (b : bool) (f : State -> State) x,
            (if b then f else fun y => y) x = if b then f x else x)
    by (intros [] ? ?; reflexivity).
  rewrite Sel.
  match goal with |- context [videoIndex (video ?x)] => set (s2 := x) end.
  assert (U2 : tvUiState (ui s2) = VIDEO) by (unfold s2; destruct playing; exact St).
  assert (R2 : videoReady (video s2) = false) by (unfold s2; destruct playing; reflexivity).
  split; [unfold s2; destruct playing; reflexivity|].
  split; [apply jsIndex_in_range; exact R|].
  split; [unfold s2; destruct playing; reflexivity|].
  split; [exact R2|].
  split; [unfold s2; destruct playing; reflexivity|].
  split; [unfold s2; destruct playing; apply blackScreen_clear|].
  intros dt now. unfold animate. cbv zeta.
  destruct (updateTv_rest now s2) as (U & O & _ & _ & V & _ & Sc).
  match goal with |- context [if ?b then _ else _] => destruct b end.
  - cbn [tvUiState ui withScreen]. rewrite U, U2. cbn [video withScreen]. rewrite V, R2.
    cbn. rewrite Sc. reflexivity.
  - cbn. rewrite Sc. reflexivity.
Qed.

Lemma next_video_keeps_play_state_witness :
  videoIndex (video (nextVideo (-1) true videoMode)) = 2%Z /\
  videoPlaying (video (nextVideo (-1) true videoMode)) = true /\
  blackScreen (canvas (screen (nextVideo (-1) true videoMode))).
Proof.
  assert (On : tvOn (ui videoMode) = true) by (vm_compute; reflexivity).
  assert (V : tvUiState (ui videoMode) = VIDEO) by (vm_compute; reflexivity).
  assert (E : videoEl (video videoMode)
              = Some (mkVideoEl (Some "./assets/Video/01-sweet93-OG.mp4"%string)
                        false 0 true 1280 720))
    by (vm_compute; reflexivity).
  assert (I0 : videoIndex (video videoMode) = 0%Z) by (vm_compute; reflexivity).
  assert (I : (0 <= videoIndex (video videoMode) < 3)%Z) by (rewrite I0; lia).
  assert (D : unitStep (-1)) by (right; reflexivity).
  pose proof (next_video_keeps_play_state videoMode (-1) true _ On V E I D)
    as (A & _ & _ & _ & P & B & _).
  split; [|split].
  - rewrite A. vm_compute. reflexivity.
  - rewrite P. vm_compute. reflexivity.
  - exact B.
Defined.

(** *** Frame lemmas: the sub-records of the state an operation leaves alone *)

(** The tactic walks down the state expression: a [let] of a state is
    settled first and then named, a conditional is split, an update of one
    sub-record is stepped over when another is looked at. *)
Ltac frame :=
  intros;
  repeat first
    [ match goal with |- ?a = ?a => reflexivity end
    | assumption
    | match goal with
      | |- ?p (let x := ?a in @?b x) = ?r =>
          lazymatch type of a with
          | State =>
              let H := fresh "F" in
              let y := fresh "s" in
              assert (H : p a = r) by frame;
              set (y := a) in *; clearbody y;
              lazymatch goal with
              | |- ?p (let x := y in @?b x) = ?r => change (p (b y) = r); cbv beta
              end
          | _ => change (p (b a) = r); cbv beta
          end
      | |- ?p (if ?b then _ else _) = _ => destruct b
      | |- ?p (match ?x with Some _ => _ | None => _ end) = _ => destruct x
      | |- ?p (match ?x with MediaVideo => _ | MediaImage => _ end) = _ => destruct x
      | |- ?p (match ?x with LoadedData => _ | PauseEvent => _ | PlayEvent => _
                            | Ended => _ end) = _ => destruct x
      | |- ?p (match ?x with MENU => _ | PHOTO => _ | VIDEO => _ | MODEL3D => _
                            | UiUndefined => _ end) = _ => destruct x
      | |- ?p (withUi _ ?x) = ?r => change (p x = r)
      | |- ?p (withPhoto _ ?x) = ?r => change (p x = r)
      | |- ?p (withVideo _ ?x) = ?r => change (p x = r)
      | |- ?p (withModel _ ?x) = ?r => change (p x = r)
      | |- ?p (withScreen _ ?x) = ?r => change (p x = r)
      end
    | progress autorewrite with tvframe
    | match goal with
      | |- ?p (?f ?x) = ?r =>
          transitivity (p x);
          [ solve [unfold p; autorewrite with tvframe; reflexivity] |]
      end ].

Create Rewrite HintDb tvframe.

Lemma withUi_keeps_photo f (s : State) : photo (withUi f s) = photo s.
Proof. reflexivity. Qed.

Lemma withUi_keeps_video f (s : State) : video (withUi f s) = video s.
Proof. reflexivity. Qed.

Lemma withUi_keeps_model f (s : State) : model (withUi f s) = model s.
Proof. reflexivity. Qed.

Lemma withUi_keeps_screen f (s : State) : screen (withUi f s) = screen s.
Proof. reflexivity. Qed.

Lemma withPhoto_keeps_ui f (s : State) : ui (withPhoto f s) = ui s.
Proof. reflexivity. Qed.

Lemma withPhoto_keeps_video f (s : State) : video (withPhoto f s) = video s.
Proof. reflexivity. Qed.

Lemma withPhoto_keeps_model f (s : State) : model (withPhoto f s) = model s.
Proof. reflexivity. Qed.

Lemma withPhoto_keeps_screen f (s : State) : screen (withPhoto f s) = screen s.
Proof. reflexivity. Qed.

Lemma withVideo_keeps_ui f (s : State) : ui (withVideo f s) = ui s.
Proof. reflexivity. Qed.

Lemma withVideo_keeps_photo f (s : State) : photo (withVideo f s) = photo s.
Proof. reflexivity. Qed.

Lemma withVideo_keeps_model f (s : State) : model (withVideo f s) = model s.
Proof. reflexivity. Qed.

Lemma withVideo_keeps_screen f (s : State) : screen (withVideo f s) = screen s.
Proof. reflexivity. Qed.

Lemma withModel_keeps_ui f (s : State) : ui (withModel f s) = ui s.
Proof. reflexivity. Qed.

Lemma withModel_keeps_photo f (s : State) : photo (withModel f s) = photo s.
Proof. reflexivity. Qed.

Lemma withModel_keeps_video f (s : State) : video (withModel f s) = video s.
Proof. reflexivity. Qed.

Lemma withModel_keeps_screen f (s : State) : screen (withModel f s) = screen s.
Proof. reflexivity. Qed.

Lemma withScreen_keeps_ui f (s : State) : ui (withScreen f s) = ui s.
Proof. reflexivity. Qed.

Lemma withScreen_keeps_photo f (s : State) : photo (withScreen f s) = photo s.
Proof. reflexivity. Qed.

Lemma withScreen_keeps_video f (s : State) : video (withScreen f s) = video s.
Proof. reflexivity. Qed.

Lemma withScreen_keeps_model f (s : State) : model (withScreen f s) = model s.
Proof. reflexivity. Qed.

#[local] Hint Rewrite withUi_keeps_photo withUi_keeps_video withUi_keeps_model withUi_keeps_screen withPhoto_keeps_ui withPhoto_keeps_video withPhoto_keeps_model withPhoto_keeps_screen withVideo_keeps_ui withVideo_keeps_photo
  withVideo_keeps_model withVideo_keeps_screen withModel_keeps_ui withModel_keeps_photo withModel_keeps_video withModel_keeps_screen withScreen_keeps_ui withScreen_keeps_photo withScreen_keeps_video withScreen_keeps_model : tvframe.

#[local] Hint Rewrite backToMenu_ui : tvframe.

Lemma draw_keeps_ui op s : ui (draw op s) = ui s.
Proof. cbv beta delta [draw]. frame. Qed.

Lemma draw_keeps_photo op s : photo (draw op s) = photo s.
Proof. cbv beta delta [draw]. frame. Qed.

Lemma draw_keeps_video op s : video (draw op s) = video s.
Proof. cbv beta delta [draw]. frame. Qed.

Lemma draw_keeps_model op s : model (draw op s) = model s.
Proof. cbv beta delta [draw]. frame. Qed.

#[local] Hint Rewrite draw_keeps_ui draw_keeps_photo draw_keeps_video draw_keeps_model : tvframe.

Lemma texNeedsUpdate_keeps_ui s : ui (texNeedsUpdate s) = ui s.
Proof. cbv beta delta [texNeedsUpdate]. frame. Qed.

Lemma texNeedsUpdate_keeps_photo s : photo (texNeedsUpdate s) = photo s.
Proof. cbv beta delta [texNeedsUpdate]. frame. Qed.

Lemma texNeedsUpdate_keeps_video s : video (texNeedsUpdate s) = video s.
Proof. cbv beta delta [texNeedsUpdate]. frame. Qed.

Lemma texNeedsUpdate_keeps_model s : model (texNeedsUpdate s) = model s.
Proof. cbv beta delta [texNeedsUpdate]. frame. Qed.

#[local] Hint Rewrite texNeedsUpdate_keeps_ui texNeedsUpdate_keeps_photo texNeedsUpdate_keeps_video texNeedsUpdate_keeps_model : tvframe.

Lemma clearTvScreen_keeps_ui s : ui (clearTvScreen s) = ui s.
Proof. cbv beta delta [clearTvScreen]. frame. Qed.

Lemma clearTvScreen_keeps_photo s : photo (clearTvScreen s) = photo s.
Proof. cbv beta delta [clearTvScreen]. frame. Qed.

Lemma clearTvScreen_keeps_video s : video (clearTvScreen s) = video s.
Proof. cbv beta delta [clearTvScreen]. frame. Qed.

Lemma clearTvScreen_keeps_model s : model (clearTvScreen s) = model s.
Proof. cbv beta delta [clearTvScreen]. frame. Qed.

#[local] Hint Rewrite clearTvScreen_keeps_ui clearTvScreen_keeps_photo clearTvScreen_keeps_video clearTvScreen_keeps_model : tvframe.

Lemma applyTvTextureEnabled_keeps_photo b s : photo (applyTvTextureEnabled b s) = photo s.
Proof. cbv beta delta [applyTvTextureEnabled]. frame. Qed.

Lemma applyTvTextureEnabled_keeps_video b s : video (applyTvTextureEnabled b s) = video s.
Proof. cbv beta delta [applyTvTextureEnabled]. frame. Qed.

Lemma applyTvTextureEnabled_keeps_model b s : model (applyTvTextureEnabled b s) = model s.
Proof. cbv beta delta [applyTvTextureEnabled]. frame. Qed.

#[local] Hint Rewrite applyTvTextureEnabled_ui applyTvTextureEnabled_keeps_photo applyTvTextureEnabled_keeps_video applyTvTextureEnabled_keeps_model : tvframe.

Lemma drawTvMenu_keeps_ui now s : ui (drawTvMenu now s) = ui s.
Proof. cbv beta delta [drawTvMenu]. frame. Qed.

Lemma drawTvMenu_keeps_photo now s : photo (drawTvMenu now s) = photo s.
Proof. cbv beta delta [drawTvMenu]. frame. Qed.

Lemma drawTvMenu_keeps_video now s : video (drawTvMenu now s) = video s.
Proof. cbv beta delta [drawTvMenu]. frame. Qed.

Lemma drawTvMenu_keeps_model now s : model (drawTvMenu now s) = model s.
Proof. cbv beta delta [drawTvMenu]. frame. Qed.

#[local] Hint Rewrite drawTvMenu_keeps_ui drawTvMenu_keeps_photo drawTvMenu_keeps_video drawTvMenu_keeps_model : tvframe.

Lemma drawPhotoToTv_keeps_ui img s : ui (drawPhotoToTv img s) = ui s.
Proof. cbv beta delta [drawPhotoToTv]. frame. Qed.

Lemma drawPhotoToTv_keeps_photo img s : photo (drawPhotoToTv img s) = photo s.
Proof. cbv beta delta [drawPhotoToTv]. frame. Qed.

Lemma drawPhotoToTv_keeps_video img s : video (drawPhotoToTv img s) = video s.
Proof. cbv beta delta [drawPhotoToTv]. frame. Qed.

Lemma drawPhotoToTv_keeps_model img s : model (drawPhotoToTv img s) = model s.
Proof. cbv beta delta [drawPhotoToTv]. frame. Qed.

#[local] Hint Rewrite drawPhotoToTv_keeps_ui drawPhotoToTv_keeps_photo drawPhotoToTv_keeps_video drawPhotoToTv_keeps_model : tvframe.

Lemma drawVideoFrameToTv_keeps_ui s : ui (drawVideoFrameToTv s) = ui s.
Proof. cbv beta delta [drawVideoFrameToTv]. frame. Qed.

Lemma drawVideoFrameToTv_keeps_photo s : photo (drawVideoFrameToTv s) = photo s.
Proof. cbv beta delta [drawVideoFrameToTv]. frame. Qed.

Lemma drawVideoFrameToTv_keeps_video s : video (drawVideoFrameToTv s) = video s.
Proof. cbv beta delta [drawVideoFrameToTv]. frame. Qed.

Lemma drawVideoFrameToTv_keeps_model s : model (drawVideoFrameToTv s) = model s.
Proof. cbv beta delta [drawVideoFrameToTv]. frame. Qed.

#[local] Hint Rewrite drawVideoFrameToTv_keeps_ui drawVideoFrameToTv_keeps_photo drawVideoFrameToTv_keeps_video drawVideoFrameToTv_keeps_model : tvframe.

Lemma drawModelFrameToTv_keeps_ui now s : ui (drawModelFrameToTv now s) = ui s.
Proof. cbv beta delta [drawModelFrameToTv]. frame. Qed.

Lemma drawModelFrameToTv_keeps_photo now s : photo (drawModelFrameToTv now s) = photo s.
Proof. cbv beta delta [drawModelFrameToTv]. frame. Qed.

Lemma drawModelFrameToTv_keeps_video now s : video (drawModelFrameToTv now s) = video s.
Proof. cbv beta delta [drawModelFrameToTv]. frame. Qed.

#[local] Hint Rewrite drawModelFrameToTv_keeps_ui drawModelFrameToTv_keeps_photo drawModelFrameToTv_keeps_video : tvframe.

Lemma drawModelToTv_keeps_ui now s : ui (drawModelToTv now s) = ui s.
Proof. cbv beta delta [drawModelToTv]. frame. Qed.

Lemma drawModelToTv_keeps_photo now s : photo (drawModelToTv now s) = photo s.
Proof. cbv beta delta [drawModelToTv]. frame. Qed.

Lemma drawModelToTv_keeps_video now s : video (drawModelToTv now s) = video s.
Proof. cbv beta delta [drawModelToTv]. frame. Qed.

#[local] Hint Rewrite drawModelToTv_keeps_ui drawModelToTv_keeps_photo drawModelToTv_keeps_video : tvframe.

Lemma loadPhotoAt_keeps_ui i s : ui (loadPhotoAt i s) = ui s.
Proof. cbv beta delta [loadPhotoAt]. frame. Qed.

Lemma loadPhotoAt_keeps_video i s : video (loadPhotoAt i s) = video s.
Proof. cbv beta delta [loadPhotoAt]. frame. Qed.

Lemma loadPhotoAt_keeps_model i s : model (loadPhotoAt i s) = model s.
Proof. cbv beta delta [loadPhotoAt]. frame. Qed.

#[local] Hint Rewrite loadPhotoAt_keeps_ui loadPhotoAt_keeps_video loadPhotoAt_keeps_model : tvframe.

Lemma settle_keeps_ui k s : ui (settle k s) = ui s.
Proof. cbv beta delta [settle]. frame. Qed.

Lemma settle_keeps_video k s : video (settle k s) = video s.
Proof. cbv beta delta [settle]. frame. Qed.

Lemma settle_keeps_model k s : model (settle k s) = model s.
Proof. cbv beta delta [settle]. frame. Qed.

#[local] Hint Rewrite settle_keeps_ui settle_keeps_video settle_keeps_model : tvframe.

Lemma photoLoaded_keeps_ui k w h s : ui (photoLoaded k w h s) = ui s.
Proof. cbv beta delta [photoLoaded]. frame. Qed.

Lemma photoLoaded_keeps_video k w h s : video (photoLoaded k w h s) = video s.
Proof. cbv beta delta [photoLoaded]. frame. Qed.

Lemma photoLoaded_keeps_model k w h s : model (photoLoaded k w h s) = model s.
Proof. cbv beta delta [photoLoaded]. frame. Qed.

#[local] Hint Rewrite photoLoaded_keeps_ui photoLoaded_keeps_video photoLoaded_keeps_model : tvframe.

Lemma photoFailed_keeps_ui k s : ui (photoFailed k s) = ui s.
Proof. cbv beta delta [photoFailed]. frame. Qed.

Lemma photoFailed_keeps_video k s : video (photoFailed k s) = video s.
Proof. cbv beta delta [photoFailed]. frame. Qed.

Lemma photoFailed_keeps_model k s : model (photoFailed k s) = model s.
Proof. cbv beta delta [photoFailed]. frame. Qed.

#[local] Hint Rewrite photoFailed_keeps_ui photoFailed_keeps_video photoFailed_keeps_model : tvframe.

Lemma nextPhoto_keeps_ui d s : ui (nextPhoto d s) = ui s.
Proof. cbv beta delta [nextPhoto]. frame. Qed.

Lemma nextPhoto_keeps_video d s : video (nextPhoto d s) = video s.
Proof. cbv beta delta [nextPhoto]. frame. Qed.

Lemma nextPhoto_keeps_model d s : model (nextPhoto d s) = model s.
Proof. cbv beta delta [nextPhoto]. frame. Qed.

#[local] Hint Rewrite nextPhoto_keeps_ui nextPhoto_keeps_video nextPhoto_keeps_model : tvframe.

Lemma openPhotoOverlay_keeps_ui u s : ui (openPhotoOverlay u s) = ui s.
Proof. cbv beta delta [openPhotoOverlay]. frame. Qed.

Lemma openPhotoOverlay_keeps_video u s : video (openPhotoOverlay u s) = video s.
Proof. cbv beta delta [openPhotoOverlay]. frame. Qed.

Lemma openPhotoOverlay_keeps_model u s : model (openPhotoOverlay u s) = model s.
Proof. cbv beta delta [openPhotoOverlay]. frame. Qed.

#[local] Hint Rewrite openPhotoOverlay_keeps_ui openPhotoOverlay_keeps_video openPhotoOverlay_keeps_model : tvframe.

Lemma closePhotoOverlay_keeps_ui s : ui (closePhotoOverlay s) = ui s.
Proof. cbv beta delta [closePhotoOverlay]. frame. Qed.

Lemma closePhotoOverlay_keeps_video s : video (closePhotoOverlay s) = video s.
Proof. cbv beta delta [closePhotoOverlay]. frame. Qed.

Lemma closePhotoOverlay_keeps_model s : model (closePhotoOverlay s) = model s.
Proof. cbv beta delta [closePhotoOverlay]. frame. Qed.

#[local] Hint Rewrite closePhotoOverlay_keeps_ui closePhotoOverlay_keeps_video closePhotoOverlay_keeps_model : tvframe.

Lemma updVideoEl_keeps_ui f s : ui (updVideoEl f s) = ui s.
Proof. cbv beta delta [updVideoEl]. frame. Qed.

Lemma updVideoEl_keeps_photo f s : photo (updVideoEl f s) = photo s.
Proof. cbv beta delta [updVideoEl]. frame. Qed.

Lemma updVideoEl_keeps_model f s : model (updVideoEl f s) = model s.
Proof. cbv beta delta [updVideoEl]. frame. Qed.

#[local] Hint Rewrite updVideoEl_keeps_ui updVideoEl_keeps_photo updVideoEl_keeps_model : tvframe.

Lemma ensureVideoEl_keeps_ui s : ui (ensureVideoEl s) = ui s.
Proof. cbv beta delta [ensureVideoEl]. frame. Qed.

Lemma ensureVideoEl_keeps_photo s : photo (ensureVideoEl s) = photo s.
Proof. cbv beta delta [ensureVideoEl]. frame. Qed.

Lemma ensureVideoEl_keeps_model s : model (ensureVideoEl s) = model s.
Proof. cbv beta delta [ensureVideoEl]. frame. Qed.

#[local] Hint Rewrite ensureVideoEl_keeps_ui ensureVideoEl_keeps_photo ensureVideoEl_keeps_model : tvframe.

Lemma playVideo_keeps_ui a s : ui (playVideo a s) = ui s.
Proof. cbv beta delta [playVideo]. frame. Qed.

Lemma playVideo_keeps_photo a s : photo (playVideo a s) = photo s.
Proof. cbv beta delta [playVideo]. frame. Qed.

Lemma playVideo_keeps_model a s : model (playVideo a s) = model s.
Proof. cbv beta delta [playVideo]. frame. Qed.

#[local] Hint Rewrite playVideo_keeps_ui playVideo_keeps_photo playVideo_keeps_model : tvframe.

Lemma videoListener_keeps_ui ev a s : ui (videoListener ev a s) = ui s.
Proof. cbv beta delta [videoListener]. frame. Qed.

Lemma videoListener_keeps_photo ev a s : photo (videoListener ev a s) = photo s.
Proof. cbv beta delta [videoListener]. frame. Qed.

Lemma videoListener_keeps_model ev a s : model (videoListener ev a s) = model s.
Proof. cbv beta delta [videoListener]. frame. Qed.

#[local] Hint Rewrite videoListener_keeps_ui videoListener_keeps_photo videoListener_keeps_model : tvframe.

Lemma pauseVideo_keeps_ui s : ui (pauseVideo s) = ui s.
Proof. cbv beta delta [pauseVideo]. frame. Qed.

Lemma pauseVideo_keeps_photo s : photo (pauseVideo s) = photo s.
Proof. cbv beta delta [pauseVideo]. frame. Qed.

Lemma pauseVideo_keeps_model s : model (pauseVideo s) = model s.
Proof. cbv beta delta [pauseVideo]. frame. Qed.

#[local] Hint Rewrite pauseVideo_keeps_ui pauseVideo_keeps_photo pauseVideo_keeps_model : tvframe.

Lemma stopVideoCompletely_keeps_photo s : photo (stopVideoCompletely s) = photo s.
Proof. cbv beta delta [stopVideoCompletely]. frame. Qed.

Lemma stopVideoCompletely_keeps_model s : model (stopVideoCompletely s) = model s.
Proof. cbv beta delta [stopVideoCompletely]. frame. Qed.

#[local] Hint Rewrite stopVideoCompletely_ui stopVideoCompletely_keeps_photo stopVideoCompletely_keeps_model : tvframe.

Lemma loadVideoAt_keeps_ui i ap a s : ui (loadVideoAt i ap a s) = ui s.
Proof. cbv beta delta [loadVideoAt]. frame. Qed.

Lemma loadVideoAt_keeps_photo i ap a s : photo (loadVideoAt i ap a s) = photo s.
Proof. cbv beta delta [loadVideoAt]. frame. Qed.

Lemma loadVideoAt_keeps_model i ap a s : model (loadVideoAt i ap a s) = model s.
Proof. cbv beta delta [loadVideoAt]. frame. Qed.

#[local] Hint Rewrite loadVideoAt_keeps_ui loadVideoAt_keeps_photo loadVideoAt_keeps_model : tvframe.

Lemma toggleVideoPlayPause_keeps_ui a s : ui (toggleVideoPlayPause a s) = ui s.
Proof. cbv beta delta [toggleVideoPlayPause]. frame. Qed.

Lemma toggleVideoPlayPause_keeps_photo a s : photo (toggleVideoPlayPause a s) = photo s.
Proof. cbv beta delta [toggleVideoPlayPause]. frame. Qed.

Lemma toggleVideoPlayPause_keeps_model a s : model (toggleVideoPlayPause a s) = model s.
Proof. cbv beta delta [toggleVideoPlayPause]. frame. Qed.

#[local] Hint Rewrite toggleVideoPlayPause_keeps_ui toggleVideoPlayPause_keeps_photo toggleVideoPlayPause_keeps_model : tvframe.

Lemma nextVideo_keeps_ui d a s : ui (nextVideo d a s) = ui s.
Proof. cbv beta delta [nextVideo]. frame. Qed.

Lemma nextVideo_keeps_photo d a s : photo (nextVideo d a s) = photo s.
Proof. cbv beta delta [nextVideo]. frame. Qed.

Lemma nextVideo_keeps_model d a s : model (nextVideo d a s) = model s.
Proof. cbv beta delta [nextVideo]. frame. Qed.

#[local] Hint Rewrite nextVideo_keeps_ui nextVideo_keeps_photo nextVideo_keeps_model : tvframe.

Lemma videoLoadedData_keeps_ui w h a s : ui (videoLoadedData w h a s) = ui s.
Proof. cbv beta delta [videoLoadedData]. frame. Qed.

Lemma videoLoadedData_keeps_photo w h a s : photo (videoLoadedData w h a s) = photo s.
Proof. cbv beta delta [videoLoadedData]. frame. Qed.

Lemma videoLoadedData_keeps_model w h a s : model (videoLoadedData w h a s) = model s.
Proof. cbv beta delta [videoLoadedData]. frame. Qed.

#[local] Hint Rewrite videoLoadedData_keeps_ui videoLoadedData_keeps_photo videoLoadedData_keeps_model : tvframe.

Lemma videoReachesEnd_keeps_ui s : ui (videoReachesEnd s) = ui s.
Proof. cbv beta delta [videoReachesEnd]. frame. Qed.

Lemma videoReachesEnd_keeps_photo s : photo (videoReachesEnd s) = photo s.
Proof. cbv beta delta [videoReachesEnd]. frame. Qed.

Lemma videoReachesEnd_keeps_model s : model (videoReachesEnd s) = model s.
Proof. cbv beta delta [videoReachesEnd]. frame. Qed.

#[local] Hint Rewrite videoReachesEnd_keeps_ui videoReachesEnd_keeps_photo videoReachesEnd_keeps_model : tvframe.

Lemma updModelVideoEl_keeps_ui f s : ui (updModelVideoEl f s) = ui s.
Proof. cbv beta delta [updModelVideoEl]. frame. Qed.

Lemma updModelVideoEl_keeps_photo f s : photo (updModelVideoEl f s) = photo s.
Proof. cbv beta delta [updModelVideoEl]. frame. Qed.

Lemma updModelVideoEl_keeps_video f s : video (updModelVideoEl f s) = video s.
Proof. cbv beta delta [updModelVideoEl]. frame. Qed.

#[local] Hint Rewrite updModelVideoEl_keeps_ui updModelVideoEl_keeps_photo updModelVideoEl_keeps_video : tvframe.

Lemma ensureModelVideoEl_keeps_ui s : ui (ensureModelVideoEl s) = ui s.
Proof. cbv beta delta [ensureModelVideoEl]. frame. Qed.

Lemma ensureModelVideoEl_keeps_photo s : photo (ensureModelVideoEl s) = photo s.
Proof. cbv beta delta [ensureModelVideoEl]. frame. Qed.

Lemma ensureModelVideoEl_keeps_video s : video (ensureModelVideoEl s) = video s.
Proof. cbv beta delta [ensureModelVideoEl]. frame. Qed.

#[local] Hint Rewrite ensureModelVideoEl_keeps_ui ensureModelVideoEl_keeps_photo ensureModelVideoEl_keeps_video : tvframe.

Lemma ensureModelImageEl_keeps_ui s : ui (ensureModelImageEl s) = ui s.
Proof. cbv beta delta [ensureModelImageEl]. frame. Qed.

Lemma ensureModelImageEl_keeps_photo s : photo (ensureModelImageEl s) = photo s.
Proof. cbv beta delta [ensureModelImageEl]. frame. Qed.

Lemma ensureModelImageEl_keeps_video s : video (ensureModelImageEl s) = video s.
Proof. cbv beta delta [ensureModelImageEl]. frame. Qed.

#[local] Hint Rewrite ensureModelImageEl_keeps_ui ensureModelImageEl_keeps_photo ensureModelImageEl_keeps_video : tvframe.

Lemma playModel_keeps_ui a s : ui (playModel a s) = ui s.
Proof. cbv beta delta [playModel]. frame. Qed.

Lemma playModel_keeps_photo a s : photo (playModel a s) = photo s.
Proof. cbv beta delta [playModel]. frame. Qed.

Lemma playModel_keeps_video a s : video (playModel a s) = video s.
Proof. cbv beta delta [playModel]. frame. Qed.

#[local] Hint Rewrite playModel_keeps_ui playModel_keeps_photo playModel_keeps_video : tvframe.

Lemma modelListener_keeps_ui ev now a s : ui (modelListener ev now a s) = ui s.
Proof. cbv beta delta [modelListener]. frame. Qed.

Lemma modelListener_keeps_photo ev now a s : photo (modelListener ev now a s) = photo s.
Proof. cbv beta delta [modelListener]. frame. Qed.

Lemma modelListener_keeps_video ev now a s : video (modelListener ev now a s) = video s.
Proof. cbv beta delta [modelListener]. frame. Qed.

#[local] Hint Rewrite modelListener_keeps_ui modelListener_keeps_photo modelListener_keeps_video : tvframe.

Lemma modelElPause_keeps_ui s : ui (modelElPause s) = ui s.
Proof. cbv beta delta [modelElPause]. frame. Qed.

Lemma modelElPause_keeps_photo s : photo (modelElPause s) = photo s.
Proof. cbv beta delta [modelElPause]. frame. Qed.

Lemma modelElPause_keeps_video s : video (modelElPause s) = video s.
Proof. cbv beta delta [modelElPause]. frame. Qed.

#[local] Hint Rewrite modelElPause_keeps_ui modelElPause_keeps_photo modelElPause_keeps_video : tvframe.

Lemma pauseModel_keeps_ui s : ui (pauseModel s) = ui s.
Proof. cbv beta delta [pauseModel]. frame. Qed.

Lemma pauseModel_keeps_photo s : photo (pauseModel s) = photo s.
Proof. cbv beta delta [pauseModel]. frame. Qed.

Lemma pauseModel_keeps_video s : video (pauseModel s) = video s.
Proof. cbv beta delta [pauseModel]. frame. Qed.

#[local] Hint Rewrite pauseModel_keeps_ui pauseModel_keeps_photo pauseModel_keeps_video : tvframe.

Lemma stopModelCompletely_keeps_photo s : photo (stopModelCompletely s) = photo s.
Proof. cbv beta delta [stopModelCompletely]. frame. Qed.

Lemma stopModelCompletely_keeps_video s : video (stopModelCompletely s) = video s.
Proof. cbv beta delta [stopModelCompletely]. frame. Qed.

#[local] Hint Rewrite stopModelCompletely_ui stopModelCompletely_keeps_photo stopModelCompletely_keeps_video : tvframe.

Lemma loadModelAt_keeps_ui i ap a s : ui (loadModelAt i ap a s) = ui s.
Proof. cbv beta delta [loadModelAt]. frame. Qed.

Lemma loadModelAt_keeps_photo i ap a s : photo (loadModelAt i ap a s) = photo s.
Proof. cbv beta delta [loadModelAt]. frame. Qed.

Lemma loadModelAt_keeps_video i ap a s : video (loadModelAt i ap a s) = video s.
Proof. cbv beta delta [loadModelAt]. frame. Qed.

#[local] Hint Rewrite loadModelAt_keeps_ui loadModelAt_keeps_photo loadModelAt_keeps_video : tvframe.

Lemma modelImageLoaded_keeps_ui w h now s : ui (modelImageLoaded w h now s) = ui s.
Proof. cbv beta delta [modelImageLoaded]. frame. Qed.

Lemma modelImageLoaded_keeps_photo w h now s : photo (modelImageLoaded w h now s) = photo s.
Proof. cbv beta delta [modelImageLoaded]. frame. Qed.

Lemma modelImageLoaded_keeps_video w h now s : video (modelImageLoaded w h now s) = video s.
Proof. cbv beta delta [modelImageLoaded]. frame. Qed.

#[local] Hint Rewrite modelImageLoaded_keeps_ui modelImageLoaded_keeps_photo modelImageLoaded_keeps_video : tvframe.

Lemma modelImageFailed_keeps_ui s : ui (modelImageFailed s) = ui s.
Proof. cbv beta delta [modelImageFailed]. frame. Qed.

Lemma modelImageFailed_keeps_photo s : photo (modelImageFailed s) = photo s.
Proof. cbv beta delta [modelImageFailed]. frame. Qed.

Lemma modelImageFailed_keeps_video s : video (modelImageFailed s) = video s.
Proof. cbv beta delta [modelImageFailed]. frame. Qed.

#[local] Hint Rewrite modelImageFailed_keeps_ui modelImageFailed_keeps_photo modelImageFailed_keeps_video : tvframe.

Lemma modelLoadedData_keeps_ui w h now a s : ui (modelLoadedData w h now a s) = ui s.
Proof. cbv beta delta [modelLoadedData]. frame. Qed.

Lemma modelLoadedData_keeps_photo w h now a s : photo (modelLoadedData w h now a s) = photo s.
Proof. cbv beta delta [modelLoadedData]. frame. Qed.

Lemma modelLoadedData_keeps_video w h now a s : video (modelLoadedData w h now a s) = video s.
Proof. cbv beta delta [modelLoadedData]. frame. Qed.

#[local] Hint Rewrite modelLoadedData_keeps_ui modelLoadedData_keeps_photo modelLoadedData_keeps_video : tvframe.

Lemma toggleModelPlayPause_keeps_ui a s : ui (toggleModelPlayPause a s) = ui s.
Proof. cbv beta delta [toggleModelPlayPause]. frame. Qed.

Lemma toggleModelPlayPause_keeps_photo a s : photo (toggleModelPlayPause a s) = photo s.
Proof. cbv beta delta [toggleModelPlayPause]. frame. Qed.

Lemma toggleModelPlayPause_keeps_video a s : video (toggleModelPlayPause a s) = video s.
Proof. cbv beta delta [toggleModelPlayPause]. frame. Qed.

#[local] Hint Rewrite toggleModelPlayPause_keeps_ui toggleModelPlayPause_keeps_photo toggleModelPlayPause_keeps_video : tvframe.

Lemma nextModel_keeps_ui d a s : ui (nextModel d a s) = ui s.
Proof. cbv beta delta [nextModel]. frame. Qed.

Lemma nextModel_keeps_photo d a s : photo (nextModel d a s) = photo s.
Proof. cbv beta delta [nextModel]. frame. Qed.

Lemma nextModel_keeps_video d a s : video (nextModel d a s) = video s.
Proof. cbv beta delta [nextModel]. frame. Qed.

#[local] Hint Rewrite nextModel_keeps_ui nextModel_keeps_photo nextModel_keeps_video : tvframe.

Lemma moveMenuSelection_keeps_photo d now s : photo (moveMenuSelection d now s) = photo s.
Proof. cbv beta delta [moveMenuSelection]. frame. Qed.

Lemma moveMenuSelection_keeps_video d now s : video (moveMenuSelection d now s) = video s.
Proof. cbv beta delta [moveMenuSelection]. frame. Qed.

Lemma moveMenuSelection_keeps_model d now s : model (moveMenuSelection d now s) = model s.
Proof. cbv beta delta [moveMenuSelection]. frame. Qed.

#[local] Hint Rewrite moveMenuSelection_keeps_photo moveMenuSelection_keeps_video moveMenuSelection_keeps_model : tvframe.

Lemma backToMenu_keeps_photo now s : photo (backToMenu now s) = photo s.
Proof. cbv beta delta [backToMenu]. frame. Qed.

Lemma backToMenu_keeps_video now s : video (backToMenu now s) = video s.
Proof. cbv beta delta [backToMenu]. frame. Qed.

Lemma backToMenu_keeps_model now s : model (backToMenu now s) = model s.
Proof. cbv beta delta [backToMenu]. frame. Qed.

#[local] Hint Rewrite backToMenu_keeps_photo backToMenu_keeps_video backToMenu_keeps_model : tvframe.

Lemma setTvPower_keeps_photo on now s : photo (setTvPower on now s) = photo s.
Proof. cbv beta delta [setTvPower]. frame. Qed.

#[local] Hint Rewrite setTvPower_keeps_photo : tvframe.

Lemma updateTv_keeps_photo now s : photo (updateTv now s) = photo s.
Proof. cbv beta delta [updateTv]. frame. Qed.

Lemma updateTv_keeps_video now s : video (updateTv now s) = video s.
Proof. cbv beta delta [updateTv]. frame. Qed.

Lemma updateTv_keeps_model now s : model (updateTv now s) = model s.
Proof. cbv beta delta [updateTv]. frame. Qed.

#[local] Hint Rewrite updateTv_keeps_photo updateTv_keeps_video updateTv_keeps_model : tvframe.

Lemma openVideoOverlay_keeps_ui s : ui (openVideoOverlay s) = ui s.
Proof. cbv beta delta [openVideoOverlay]. frame. Qed.

Lemma openVideoOverlay_keeps_photo s : photo (openVideoOverlay s) = photo s.
Proof. cbv beta delta [openVideoOverlay]. frame. Qed.

Lemma openVideoOverlay_keeps_model s : model (openVideoOverlay s) = model s.
Proof. cbv beta delta [openVideoOverlay]. frame. Qed.

#[local] Hint Rewrite openVideoOverlay_keeps_ui openVideoOverlay_keeps_photo openVideoOverlay_keeps_model : tvframe.

Lemma closeVideoOverlay_keeps_ui src time paused a s : ui (closeVideoOverlay src time paused a s) = ui s.
Proof. cbv beta delta [closeVideoOverlay]. frame. Qed.

Lemma closeVideoOverlay_keeps_photo src time paused a s : photo (closeVideoOverlay src time paused a s) = photo s.
Proof. cbv beta delta [closeVideoOverlay]. frame. Qed.

Lemma closeVideoOverlay_keeps_model src time paused a s : model (closeVideoOverlay src time paused a s) = model s.
Proof. cbv beta delta [closeVideoOverlay]. frame. Qed.

#[local] Hint Rewrite closeVideoOverlay_keeps_ui closeVideoOverlay_keeps_photo closeVideoOverlay_keeps_model : tvframe.

Lemma openModelOverlay_keeps_ui now s : ui (openModelOverlay now s) = ui s.
Proof. cbv beta delta [openModelOverlay]. frame. Qed.

Lemma openModelOverlay_keeps_photo now s : photo (openModelOverlay now s) = photo s.
Proof. cbv beta delta [openModelOverlay]. frame. Qed.

Lemma openModelOverlay_keeps_video now s : video (openModelOverlay now s) = video s.
Proof. cbv beta delta [openModelOverlay]. frame. Qed.

#[local] Hint Rewrite openModelOverlay_keeps_ui openModelOverlay_keeps_photo openModelOverlay_keeps_video : tvframe.

Lemma closeModelOverlay_keeps_ui src time paused a s : ui (closeModelOverlay src time paused a s) = ui s.
Proof. cbv beta delta [closeModelOverlay]. frame. Qed.

Lemma closeModelOverlay_keeps_photo src time paused a s : photo (closeModelOverlay src time paused a s) = photo s.
Proof. cbv beta delta [closeModelOverlay]. frame. Qed.

Lemma closeModelOverlay_keeps_video src time paused a s : video (closeModelOverlay src time paused a s) = video s.
Proof. cbv beta delta [closeModelOverlay]. frame. Qed.

#[local] Hint Rewrite closeModelOverlay_keeps_ui closeModelOverlay_keeps_photo closeModelOverlay_keeps_video : tvframe.

Lemma overlayNextPhoto_keeps_ui d s : ui (overlayNextPhoto d s) = ui s.
Proof. cbv beta delta [overlayNextPhoto]. frame. Qed.

Lemma overlayNextPhoto_keeps_video d s : video (overlayNextPhoto d s) = video s.
Proof. cbv beta delta [overlayNextPhoto]. frame. Qed.

Lemma overlayNextPhoto_keeps_model d s : model (overlayNextPhoto d s) = model s.
Proof. cbv beta delta [overlayNextPhoto]. frame. Qed.

#[local] Hint Rewrite overlayNextPhoto_keeps_ui overlayNextPhoto_keeps_video overlayNextPhoto_keeps_model : tvframe.

Lemma overlayNextVideo_keeps_ui d a s : ui (overlayNextVideo d a s) = ui s.
Proof. cbv beta delta [overlayNextVideo]. frame. Qed.

Lemma overlayNextVideo_keeps_photo d a s : photo (overlayNextVideo d a s) = photo s.
Proof. cbv beta delta [overlayNextVideo]. frame. Qed.

Lemma overlayNextVideo_keeps_model d a s : model (overlayNextVideo d a s) = model s.
Proof. cbv beta delta [overlayNextVideo]. frame. Qed.

#[local] Hint Rewrite overlayNextVideo_keeps_ui overlayNextVideo_keeps_photo overlayNextVideo_keeps_model : tvframe.

Lemma overlayNextModel_keeps_ui d a s : ui (overlayNextModel d a s) = ui s.
Proof. cbv beta delta [overlayNextModel]. frame. Qed.

Lemma overlayNextModel_keeps_photo d a s : photo (overlayNextModel d a s) = photo s.
Proof. cbv beta delta [overlayNextModel]. frame. Qed.

Lemma overlayNextModel_keeps_video d a s : video (overlayNextModel d a s) = video s.
Proof. cbv beta delta [overlayNextModel]. frame. Qed.

#[local] Hint Rewrite overlayNextModel_keeps_ui overlayNextModel_keeps_photo overlayNextModel_keeps_video : tvframe.

Lemma videoFullscreenChange_keeps_ui fs s : ui (videoFullscreenChange fs s) = ui s.
Proof. cbv beta delta [videoFullscreenChange]. frame. Qed.

Lemma videoFullscreenChange_keeps_photo fs s : photo (videoFullscreenChange fs s) = photo s.
Proof. cbv beta delta [videoFullscreenChange]. frame. Qed.

Lemma videoFullscreenChange_keeps_model fs s : model (videoFullscreenChange fs s) = model s.
Proof. cbv beta delta [videoFullscreenChange]. frame. Qed.

#[local] Hint Rewrite videoFullscreenChange_keeps_ui videoFullscreenChange_keeps_photo videoFullscreenChange_keeps_model : tvframe.

Lemma modelFullscreenChange_keeps_ui fs now s : ui (modelFullscreenChange fs now s) = ui s.
Proof. cbv beta delta [modelFullscreenChange]. frame. Qed.

Lemma modelFullscreenChange_keeps_photo fs now s : photo (modelFullscreenChange fs now s) = photo s.
Proof. cbv beta delta [modelFullscreenChange]. frame. Qed.

Lemma modelFullscreenChange_keeps_video fs now s : video (modelFullscreenChange fs now s) = video s.
Proof. cbv beta delta [modelFullscreenChange]. frame. Qed.

#[local] Hint Rewrite modelFullscreenChange_keeps_ui modelFullscreenChange_keeps_photo modelFullscreenChange_keeps_video : tvframe.

Lemma animate_keeps_video dt now s : video (animate dt now s) = video s.
Proof. cbv beta delta [animate]. frame. Qed.

#[local] Hint Rewrite animate_keeps_video : tvframe.

(** The same for three views of the state: the mode and the two players. *)

Lemma moveMenuSelection_keeps_mode d now s : mode (moveMenuSelection d now s) = mode s.
Proof. cbv beta delta [moveMenuSelection]. frame. Qed.

Lemma moveMenuSelection_keeps_mode_fst d now s : tvOn (ui (moveMenuSelection d now s)) = tvOn (ui s).
Proof. exact (f_equal fst (moveMenuSelection_keeps_mode d now s)). Qed.

Lemma moveMenuSelection_keeps_mode_snd d now s : tvUiState (ui (moveMenuSelection d now s)) = tvUiState (ui s).
Proof. exact (f_equal snd (moveMenuSelection_keeps_mode d now s)). Qed.

#[local] Hint Rewrite moveMenuSelection_keeps_mode_fst moveMenuSelection_keeps_mode_snd : tvframe.

Lemma updateTv_keeps_mode now s : mode (updateTv now s) = mode s.
Proof. cbv beta delta [updateTv]. frame. Qed.

Lemma updateTv_keeps_mode_fst now s : tvOn (ui (updateTv now s)) = tvOn (ui s).
Proof. exact (f_equal fst (updateTv_keeps_mode now s)). Qed.

Lemma updateTv_keeps_mode_snd now s : tvUiState (ui (updateTv now s)) = tvUiState (ui s).
Proof. exact (f_equal snd (updateTv_keeps_mode now s)). Qed.

#[local] Hint Rewrite updateTv_keeps_mode_fst updateTv_keeps_mode_snd : tvframe.

Lemma animate_keeps_mode dt now s : mode (animate dt now s) = mode s.
Proof. cbv beta delta [animate]. frame. Qed.

Lemma animate_keeps_mode_fst dt now s : tvOn (ui (animate dt now s)) = tvOn (ui s).
Proof. exact (f_equal fst (animate_keeps_mode dt now s)). Qed.

Lemma animate_keeps_mode_snd dt now s : tvUiState (ui (animate dt now s)) = tvUiState (ui s).
Proof. exact (f_equal snd (animate_keeps_mode dt now s)). Qed.

#[local] Hint Rewrite animate_keeps_mode_fst animate_keeps_mode_snd : tvframe.

Lemma videoReachesEnd_keeps_videoPlayer s : videoPlayer (videoReachesEnd s) = videoPlayer s.
Proof. unfold videoReachesEnd, videoPlayer, updVideoEl. destruct (videoEl (video s)) as [el|] eqn:E; [destruct (vLoop el)|]; cbn; rewrite ?E; reflexivity. Qed.

Lemma videoReachesEnd_keeps_videoPlayer_fst s : videoPlaying (video (videoReachesEnd s)) = videoPlaying (video s).
Proof. exact (f_equal fst (videoReachesEnd_keeps_videoPlayer s)). Qed.

Lemma videoReachesEnd_keeps_videoPlayer_snd s : vPaused <$> videoEl (video (videoReachesEnd s)) = vPaused <$> videoEl (video s).
Proof. exact (f_equal snd (videoReachesEnd_keeps_videoPlayer s)). Qed.

#[local] Hint Rewrite videoReachesEnd_keeps_videoPlayer_fst videoReachesEnd_keeps_videoPlayer_snd : tvframe.

Lemma drawModelFrameToTv_keeps_modelPlayer now s : modelPlayer (drawModelFrameToTv now s) = modelPlayer s.
Proof. cbv beta delta [drawModelFrameToTv]. frame. Qed.

Lemma drawModelFrameToTv_keeps_modelPlayer_fst now s : modelPlaying (model (drawModelFrameToTv now s)) = modelPlaying (model s).
Proof. exact (f_equal fst (drawModelFrameToTv_keeps_modelPlayer now s)). Qed.

Lemma drawModelFrameToTv_keeps_modelPlayer_snd now s : vPaused <$> modelVideoEl (model (drawModelFrameToTv now s)) = vPaused <$> modelVideoEl (model s).
Proof. exact (f_equal snd (drawModelFrameToTv_keeps_modelPlayer now s)). Qed.

#[local] Hint Rewrite drawModelFrameToTv_keeps_modelPlayer_fst drawModelFrameToTv_keeps_modelPlayer_snd : tvframe.

Lemma drawModelToTv_keeps_modelPlayer now s : modelPlayer (drawModelToTv now s) = modelPlayer s.
Proof. cbv beta delta [drawModelToTv]. frame. Qed.

Lemma drawModelToTv_keeps_modelPlayer_fst now s : modelPlaying (model (drawModelToTv now s)) = modelPlaying (model s).
Proof. exact (f_equal fst (drawModelToTv_keeps_modelPlayer now s)). Qed.

Lemma drawModelToTv_keeps_modelPlayer_snd now s : vPaused <$> modelVideoEl (model (drawModelToTv now s)) = vPaused <$> modelVideoEl (model s).
Proof. exact (f_equal snd (drawModelToTv_keeps_modelPlayer now s)). Qed.

#[local] Hint Rewrite drawModelToTv_keeps_modelPlayer_fst drawModelToTv_keeps_modelPlayer_snd : tvframe.

Lemma ensureModelImageEl_keeps_modelPlayer s : modelPlayer (ensureModelImageEl s) = modelPlayer s.
Proof. cbv beta delta [ensureModelImageEl]. frame. Qed.

Lemma ensureModelImageEl_keeps_modelPlayer_fst s : modelPlaying (model (ensureModelImageEl s)) = modelPlaying (model s).
Proof. exact (f_equal fst (ensureModelImageEl_keeps_modelPlayer s)). Qed.

Lemma ensureModelImageEl_keeps_modelPlayer_snd s : vPaused <$> modelVideoEl (model (ensureModelImageEl s)) = vPaused <$> modelVideoEl (model s).
Proof. exact (f_equal snd (ensureModelImageEl_keeps_modelPlayer s)). Qed.

#[local] Hint Rewrite ensureModelImageEl_keeps_modelPlayer_fst ensureModelImageEl_keeps_modelPlayer_snd : tvframe.

Lemma modelImageLoaded_keeps_modelPlayer w h now s : modelPlayer (modelImageLoaded w h now s) = modelPlayer s.
Proof. cbv beta delta [modelImageLoaded]. frame. Qed.

Lemma modelImageLoaded_keeps_modelPlayer_fst w h now s : modelPlaying (model (modelImageLoaded w h now s)) = modelPlaying (model s).
Proof. exact (f_equal fst (modelImageLoaded_keeps_modelPlayer w h now s)). Qed.

Lemma modelImageLoaded_keeps_modelPlayer_snd w h now s : vPaused <$> modelVideoEl (model (modelImageLoaded w h now s)) = vPaused <$> modelVideoEl (model s).
Proof. exact (f_equal snd (modelImageLoaded_keeps_modelPlayer w h now s)). Qed.

#[local] Hint Rewrite modelImageLoaded_keeps_modelPlayer_fst modelImageLoaded_keeps_modelPlayer_snd : tvframe.

Lemma modelImageFailed_keeps_modelPlayer s : modelPlayer (modelImageFailed s) = modelPlayer s.
Proof. cbv beta delta [modelImageFailed]. frame. Qed.

Lemma modelImageFailed_keeps_modelPlayer_fst s : modelPlaying (model (modelImageFailed s)) = modelPlaying (model s).
Proof. exact (f_equal fst (modelImageFailed_keeps_modelPlayer s)). Qed.

Lemma modelImageFailed_keeps_modelPlayer_snd s : vPaused <$> modelVideoEl (model (modelImageFailed s)) = vPaused <$> modelVideoEl (model s).
Proof. exact (f_equal snd (modelImageFailed_keeps_modelPlayer s)). Qed.

#[local] Hint Rewrite modelImageFailed_keeps_modelPlayer_fst modelImageFailed_keeps_modelPlayer_snd : tvframe.

Lemma animate_keeps_modelPlayer dt now s : modelPlayer (animate dt now s) = modelPlayer s.
Proof. cbv beta delta [animate]. frame. Qed.

Lemma animate_keeps_modelPlayer_fst dt now s : modelPlaying (model (animate dt now s)) = modelPlaying (model s).
Proof. exact (f_equal fst (animate_keeps_modelPlayer dt now s)). Qed.

Lemma animate_keeps_modelPlayer_snd dt now s : vPaused <$> modelVideoEl (model (animate dt now s)) = vPaused <$> modelVideoEl (model s).
Proof. exact (f_equal snd (animate_keeps_modelPlayer dt now s)). Qed.

#[local] Hint Rewrite animate_keeps_modelPlayer_fst animate_keeps_modelPlayer_snd : tvframe.


Lemma updVideoEl_keeps_paused f (s : State) :
  (forall el, vPaused (f el) = vPaused el) ->
  vPaused <$> videoEl (video (updVideoEl f s)) = vPaused <$> videoEl (video s).
Proof. intros Hf. unfold updVideoEl. cbn. destruct (videoEl (video s)); cbn; [rewrite Hf|]; reflexivity. Qed.

Lemma updModelVideoEl_keeps_paused f (s : State) :
  (forall el, vPaused (f el) = vPaused el) ->
  vPaused <$> modelVideoEl (model (updModelVideoEl f s)) = vPaused <$> modelVideoEl (model s).
Proof.
  intros Hf. unfold updModelVideoEl. cbn.
  destruct (modelVideoEl (model s)); cbn; [rewrite Hf|]; reflexivity.
Qed.

Lemma updVideoEl_keeps_playing f (s : State) :
  videoPlaying (video (updVideoEl f s)) = videoPlaying (video s).
Proof. reflexivity. Qed.

Lemma updModelVideoEl_keeps_playing f (s : State) :
  modelPlaying (model (updModelVideoEl f s)) = modelPlaying (model s).
Proof. reflexivity. Qed.

#[local] Hint Rewrite updVideoEl_keeps_playing updModelVideoEl_keeps_playing : tvframe.
#[local] Hint Rewrite updVideoEl_keeps_paused updModelVideoEl_keeps_paused
  using (intros ?; reflexivity) : tvframe.

(** *** An invariant: nothing waits to play by itself *)

(** The same walk for a predicate on states: the predicate is settled at
    each named intermediate state, and [leaf] closes what is left. *)
Ltac walk leaf :=
  intros;
  repeat first
    [ assumption
    | match goal with
      | |- ?I (let x := ?a in @?b x) =>
          lazymatch type of a with
          | State =>
              let H := fresh "W" in
              let y := fresh "s" in
              assert (H : I a) by walk leaf;
              set (y := a) in *; clearbody y;
              lazymatch goal with
              | |- ?I (let x := y in @?b x) => change (I (b y)); cbv beta
              end
          | _ => change (I (b a)); cbv beta
          end
      | |- ?I (if ?b then _ else _) => destruct b eqn:?
      | |- ?I (match ?x with Some _ => _ | None => _ end) => destruct x eqn:?
      | |- ?I (match ?x with MediaVideo => _ | MediaImage => _ end) => destruct x eqn:?
      | |- ?I (match ?x with LoadedData => _ | PauseEvent => _ | PlayEvent => _
                            | Ended => _ end) => destruct x
      | |- ?I (match ?x with MENU => _ | PHOTO => _ | VIDEO => _ | MODEL3D => _
                            | UiUndefined => _ end) => destruct x eqn:?
      end
    | leaf ].

Lemma noAutoPlay_same (s s' : State) :
  video s' = video s -> model s' = model s -> noAutoPlay s -> noAutoPlay s'.
Proof. unfold noAutoPlay. intros -> ->. auto. Qed.

Lemma noAutoPlay_video f (s : State) :
  (forall r, videoWantsAutoPlay r = false -> videoWantsAutoPlay (f r) = false) ->
  noAutoPlay s -> noAutoPlay (withVideo f s).
Proof. intros Hf [A B]. split; [apply Hf, A | exact B]. Qed.

Lemma noAutoPlay_model f (s : State) :
  (forall r, modelWantsAutoPlay r = false -> modelWantsAutoPlay (f r) = false) ->
  noAutoPlay s -> noAutoPlay (withModel f s).
Proof. intros Hf [A B]. split; [exact A | apply Hf, B]. Qed.

Create HintDb tvnoauto.

Ltac noauto_leaf :=
  idtac;
  match goal with
  | |- noAutoPlay (withVideo _ _) =>
      apply noAutoPlay_video; [intros ? ?; cbn; first [assumption | reflexivity] |]
  | |- noAutoPlay (withModel _ _) =>
      apply noAutoPlay_model; [intros ? ?; cbn; first [assumption | reflexivity] |]
  | |- noAutoPlay (?f ?x) =>
      first [ solve [auto with tvnoauto]
            | apply (noAutoPlay_same x);
              [ autorewrite with tvframe; reflexivity
              | autorewrite with tvframe; reflexivity | ] ]
  end.

Lemma updVideoEl_noAutoPlay f s : noAutoPlay s -> noAutoPlay (updVideoEl f s).
Proof. cbv beta delta [updVideoEl]. walk noauto_leaf. Qed.

#[local] Hint Resolve updVideoEl_noAutoPlay : tvnoauto.

Lemma ensureVideoEl_noAutoPlay s : noAutoPlay s -> noAutoPlay (ensureVideoEl s).
Proof. cbv beta delta [ensureVideoEl]. walk noauto_leaf. Qed.

#[local] Hint Resolve ensureVideoEl_noAutoPlay : tvnoauto.

Lemma playVideo_noAutoPlay a s : noAutoPlay s -> noAutoPlay (playVideo a s).
Proof. cbv beta delta [playVideo]. walk noauto_leaf. Qed.

#[local] Hint Resolve playVideo_noAutoPlay : tvnoauto.

Lemma videoListener_noAutoPlay ev a s : noAutoPlay s -> noAutoPlay (videoListener ev a s).
Proof. cbv beta delta [videoListener]. walk noauto_leaf. Qed.

#[local] Hint Resolve videoListener_noAutoPlay : tvnoauto.

Lemma pauseVideo_noAutoPlay s : noAutoPlay s -> noAutoPlay (pauseVideo s).
Proof. cbv beta delta [pauseVideo]. walk noauto_leaf. Qed.

#[local] Hint Resolve pauseVideo_noAutoPlay : tvnoauto.

Lemma stopVideoCompletely_noAutoPlay s : noAutoPlay s -> noAutoPlay (stopVideoCompletely s).
Proof. cbv beta delta [stopVideoCompletely]. walk noauto_leaf. Qed.

#[local] Hint Resolve stopVideoCompletely_noAutoPlay : tvnoauto.

Lemma loadVideoAt_noAutoPlay i ap a s : noAutoPlay s -> noAutoPlay (loadVideoAt i ap a s).
Proof. cbv beta delta [loadVideoAt]. walk noauto_leaf. Qed.

#[local] Hint Resolve loadVideoAt_noAutoPlay : tvnoauto.

Lemma toggleVideoPlayPause_noAutoPlay a s : noAutoPlay s -> noAutoPlay (toggleVideoPlayPause a s).
Proof. cbv beta delta [toggleVideoPlayPause]. walk noauto_leaf. Qed.

#[local] Hint Resolve toggleVideoPlayPause_noAutoPlay : tvnoauto.

Lemma nextVideo_noAutoPlay d a s : noAutoPlay s -> noAutoPlay (nextVideo d a s).
Proof. cbv beta delta [nextVideo]. walk noauto_leaf. Qed.

#[local] Hint Resolve nextVideo_noAutoPlay : tvnoauto.

Lemma videoLoadedData_noAutoPlay w h a s : noAutoPlay s -> noAutoPlay (videoLoadedData w h a s).
Proof. cbv beta delta [videoLoadedData]. walk noauto_leaf. Qed.

#[local] Hint Resolve videoLoadedData_noAutoPlay : tvnoauto.

Lemma videoReachesEnd_noAutoPlay s : noAutoPlay s -> noAutoPlay (videoReachesEnd s).
Proof. cbv beta delta [videoReachesEnd]. walk noauto_leaf. Qed.

#[local] Hint Resolve videoReachesEnd_noAutoPlay : tvnoauto.

Lemma updModelVideoEl_noAutoPlay f s : noAutoPlay s -> noAutoPlay (updModelVideoEl f s).
Proof. cbv beta delta [updModelVideoEl]. walk noauto_leaf. Qed.

#[local] Hint Resolve updModelVideoEl_noAutoPlay : tvnoauto.

Lemma ensureModelVideoEl_noAutoPlay s : noAutoPlay s -> noAutoPlay (ensureModelVideoEl s).
Proof. cbv beta delta [ensureModelVideoEl]. walk noauto_leaf. Qed.

#[local] Hint Resolve ensureModelVideoEl_noAutoPlay : tvnoauto.

Lemma ensureModelImageEl_noAutoPlay s : noAutoPlay s -> noAutoPlay (ensureModelImageEl s).
Proof. cbv beta delta [ensureModelImageEl]. walk noauto_leaf. Qed.

#[local] Hint Resolve ensureModelImageEl_noAutoPlay : tvnoauto.

Lemma playModel_noAutoPlay a s : noAutoPlay s -> noAutoPlay (playModel a s).
Proof. cbv beta delta [playModel]. walk noauto_leaf. Qed.

#[local] Hint Resolve playModel_noAutoPlay : tvnoauto.

Lemma drawModelFrameToTv_noAutoPlay now s : noAutoPlay s -> noAutoPlay (drawModelFrameToTv now s).
Proof. cbv beta delta [drawModelFrameToTv]. walk noauto_leaf. Qed.

#[local] Hint Resolve drawModelFrameToTv_noAutoPlay : tvnoauto.

Lemma drawModelToTv_noAutoPlay now s : noAutoPlay s -> noAutoPlay (drawModelToTv now s).
Proof. cbv beta delta [drawModelToTv]. walk noauto_leaf. Qed.

#[local] Hint Resolve drawModelToTv_noAutoPlay : tvnoauto.

Lemma modelListener_noAutoPlay ev now a s : noAutoPlay s -> noAutoPlay (modelListener ev now a s).
Proof. cbv beta delta [modelListener]. walk noauto_leaf. Qed.

#[local] Hint Resolve modelListener_noAutoPlay : tvnoauto.

Lemma modelElPause_noAutoPlay s : noAutoPlay s -> noAutoPlay (modelElPause s).
Proof. cbv beta delta [modelElPause]. walk noauto_leaf. Qed.

#[local] Hint Resolve modelElPause_noAutoPlay : tvnoauto.

Lemma pauseModel_noAutoPlay s : noAutoPlay s -> noAutoPlay (pauseModel s).
Proof. cbv beta delta [pauseModel]. walk noauto_leaf. Qed.

#[local] Hint Resolve pauseModel_noAutoPlay : tvnoauto.

Lemma stopModelCompletely_noAutoPlay s : noAutoPlay s -> noAutoPlay (stopModelCompletely s).
Proof. cbv beta delta [stopModelCompletely]. walk noauto_leaf. Qed.

#[local] Hint Resolve stopModelCompletely_noAutoPlay : tvnoauto.

Lemma loadModelAt_noAutoPlay i ap a s : noAutoPlay s -> noAutoPlay (loadModelAt i ap a s).
Proof. cbv beta delta [loadModelAt]. walk noauto_leaf. Qed.

#[local] Hint Resolve loadModelAt_noAutoPlay : tvnoauto.

Lemma modelImageLoaded_noAutoPlay w h now s : noAutoPlay s -> noAutoPlay (modelImageLoaded w h now s).
Proof. cbv beta delta [modelImageLoaded]. walk noauto_leaf. Qed.

#[local] Hint Resolve modelImageLoaded_noAutoPlay : tvnoauto.

Lemma modelImageFailed_noAutoPlay s : noAutoPlay s -> noAutoPlay (modelImageFailed s).
Proof. cbv beta delta [modelImageFailed]. walk noauto_leaf. Qed.

#[local] Hint Resolve modelImageFailed_noAutoPlay : tvnoauto.

Lemma modelLoadedData_noAutoPlay w h now a s : noAutoPlay s -> noAutoPlay (modelLoadedData w h now a s).
Proof. cbv beta delta [modelLoadedData]. walk noauto_leaf. Qed.

#[local] Hint Resolve modelLoadedData_noAutoPlay : tvnoauto.

Lemma toggleModelPlayPause_noAutoPlay a s : noAutoPlay s -> noAutoPlay (toggleModelPlayPause a s).
Proof. cbv beta delta [toggleModelPlayPause]. walk noauto_leaf. Qed.

#[local] Hint Resolve toggleModelPlayPause_noAutoPlay : tvnoauto.

Lemma nextModel_noAutoPlay d a s : noAutoPlay s -> noAutoPlay (nextModel d a s).
Proof. cbv beta delta [nextModel]. walk noauto_leaf. Qed.

#[local] Hint Resolve nextModel_noAutoPlay : tvnoauto.

Lemma confirmMenuSelection_noAutoPlay now a s : noAutoPlay s -> noAutoPlay (confirmMenuSelection now a s).
Proof. cbv beta delta [confirmMenuSelection]. walk noauto_leaf. Qed.

#[local] Hint Resolve confirmMenuSelection_noAutoPlay : tvnoauto.

Lemma setTvPower_noAutoPlay on now s : noAutoPlay s -> noAutoPlay (setTvPower on now s).
Proof. cbv beta delta [setTvPower]. walk noauto_leaf. Qed.

#[local] Hint Resolve setTvPower_noAutoPlay : tvnoauto.

Lemma openVideoOverlay_noAutoPlay s : noAutoPlay s -> noAutoPlay (openVideoOverlay s).
Proof. cbv beta delta [openVideoOverlay]. walk noauto_leaf. Qed.

#[local] Hint Resolve openVideoOverlay_noAutoPlay : tvnoauto.

Lemma closeVideoOverlay_noAutoPlay src time paused a s : noAutoPlay s -> noAutoPlay (closeVideoOverlay src time paused a s).
Proof. cbv beta delta [closeVideoOverlay]. walk noauto_leaf. Qed.

#[local] Hint Resolve closeVideoOverlay_noAutoPlay : tvnoauto.

Lemma openModelOverlay_noAutoPlay now s : noAutoPlay s -> noAutoPlay (openModelOverlay now s).
Proof. cbv beta delta [openModelOverlay]. walk noauto_leaf. Qed.

#[local] Hint Resolve openModelOverlay_noAutoPlay : tvnoauto.

Lemma closeModelOverlay_noAutoPlay src time paused a s : noAutoPlay s -> noAutoPlay (closeModelOverlay src time paused a s).
Proof. cbv beta delta [closeModelOverlay]. walk noauto_leaf. Qed.

#[local] Hint Resolve closeModelOverlay_noAutoPlay : tvnoauto.

Lemma overlayNextVideo_noAutoPlay d a s : noAutoPlay s -> noAutoPlay (overlayNextVideo d a s).
Proof. cbv beta delta [overlayNextVideo]. walk noauto_leaf. Qed.

#[local] Hint Resolve overlayNextVideo_noAutoPlay : tvnoauto.

Lemma overlayNextModel_noAutoPlay d a s : noAutoPlay s -> noAutoPlay (overlayNextModel d a s).
Proof. cbv beta delta [overlayNextModel]. walk noauto_leaf. Qed.

#[local] Hint Resolve overlayNextModel_noAutoPlay : tvnoauto.

Lemma videoFullscreenChange_noAutoPlay fs s : noAutoPlay s -> noAutoPlay (videoFullscreenChange fs s).
Proof. cbv beta delta [videoFullscreenChange]. walk noauto_leaf. Qed.

#[local] Hint Resolve videoFullscreenChange_noAutoPlay : tvnoauto.

Lemma modelFullscreenChange_noAutoPlay fs now s : noAutoPlay s -> noAutoPlay (modelFullscreenChange fs now s).
Proof. cbv beta delta [modelFullscreenChange]. walk noauto_leaf. Qed.

#[local] Hint Resolve modelFullscreenChange_noAutoPlay : tvnoauto.

Lemma onPointerDown_noAutoPlay hit now a s : noAutoPlay s -> noAutoPlay (onPointerDown hit now a s).
Proof. cbv beta delta [onPointerDown]. walk noauto_leaf. Qed.

#[local] Hint Resolve onPointerDown_noAutoPlay : tvnoauto.

Lemma animate_noAutoPlay dt now s : noAutoPlay s -> noAutoPlay (animate dt now s).
Proof. cbv beta delta [animate]. walk noauto_leaf. Qed.

#[local] Hint Resolve animate_noAutoPlay : tvnoauto.


Lemma step_noAutoPlay (s : State) (e : Event) : noAutoPlay s -> noAutoPlay (step s e).
Proof.
  destruct e; cbn [step]; intros H; first [ solve [auto with tvnoauto] | noauto_leaf; exact H ].
Qed.

Lemma run_noAutoPlay (evs : list Event) (s : State) : noAutoPlay s -> noAutoPlay (run evs s).
Proof.
  revert s. induction evs as [|e evs IH]; intros s H; cbn; [exact H|].
  apply IH, step_noAutoPlay, H.
Qed.

Lemma videoLoadedData_quiet w h a (s : State) :
  videoWantsAutoPlay (video s) = false ->
  video (videoLoadedData w h a s) =
    match videoEl (video s) with
    | Some el => set_videoReady true (set_videoEl (Some (elDecoded w h el)) (video s))
    | None => video s
    end.
Proof.
  intros H. unfold videoLoadedData. destruct (videoEl (video s)) as [el|] eqn:E;
    [|reflexivity].
  cbv beta iota delta [videoListener].
  set (s1 := withVideo (set_videoReady true) (updVideoEl (elDecoded w h) s)).
  assert (V1 : video s1 = set_videoReady true (set_videoEl (Some (elDecoded w h el)) (video s)))
    by (unfold s1, updVideoEl; cbn; rewrite E; reflexivity).
  cbv zeta.
  set (s2 := if tvOn (ui s1) && isUi VIDEO s1 then drawVideoFrameToTv s1 else s1).
  assert (V2 : video s2 = video s1)
    by (unfold s2; destruct (_ && _); autorewrite with tvframe; reflexivity).
  assert (A : videoWantsAutoPlay (video s2) = false) by (rewrite V2, V1; exact H).
  rewrite A, andb_false_r. cbn [andb]. rewrite V2. exact V1.
Qed.

Lemma modelLoadedData_quiet w h now a (s : State) :
  noAutoPlay s ->
  modelPlaying (model (modelLoadedData w h now a s)) = modelPlaying (model s) /\
  vPaused <$> modelVideoEl (model (modelLoadedData w h now a s))
    = vPaused <$> modelVideoEl (model s).
Proof.
  intros H. unfold modelLoadedData. destruct (modelVideoEl (model s)) as [el|] eqn:E;
    [|rewrite E; split; reflexivity].
  cbv beta iota delta [modelListener].
  set (s1 := withModel (set_modelReady true) (updModelVideoEl (elDecoded w h) s)).
  assert (N1 : noAutoPlay s1) by exact H.
  assert (V1 : modelPlayer s1 = (modelPlaying (model s), Some (vPaused el)))
    by (unfold s1, modelPlayer, updModelVideoEl; cbn; rewrite E; reflexivity).
  clearbody s1. cbv zeta.
  set (s2 := if tvOn (ui s1) && isUi MODEL3D s1 then drawModelToTv now s1 else s1).
  assert (N2 : noAutoPlay s2)
    by (unfold s2; destruct (_ && _); [apply drawModelToTv_noAutoPlay|]; exact N1).
  assert (V2 : modelPlayer s2 = modelPlayer s1)
    by (unfold s2; destruct (_ && _); [apply drawModelToTv_keeps_modelPlayer | reflexivity]).
  clearbody s2. rewrite (proj2 N2), andb_false_r. cbn [andb].
  rewrite V1 in V2. unfold modelPlayer in V2. injection V2 as P2 E2. auto.
Qed.

(** X12. The arrival of the first frame never starts playback.  The
    flags [videoWantsAutoPlay] and [modelWantsAutoPlay] are false in every
    state the TV can reach, so the branch of the ["loadeddata"] listeners
    that would call [playVideo] or [playModel] is never taken: the event
    marks the item ready, and leaves the playing flag and the element's
    paused state as they were.  (An item the browser refused to start
    when it was loaded stays paused until OK is pressed.) *)
Theorem loadeddata_never_starts_playback (now0 : Q) (hasScreen : bool)
    (evs : list Event) (w h : Z) (now : Q) (allowed : bool) :
  let s := run evs (init now0 hasScreen) in
  noAutoPlay s /\
  videoPlaying (video (videoLoadedData w h allowed s)) = videoPlaying (video s) /\
  (vPaused <$> videoEl (video (videoLoadedData w h allowed s)))
    = (vPaused <$> videoEl (video s)) /\
  modelPlaying (model (modelLoadedData w h now allowed s)) = modelPlaying (model s) /\
  (vPaused <$> modelVideoEl (model (modelLoadedData w h now allowed s)))
    = (vPaused <$> modelVideoEl (model s)).
Proof.
  intros s.
  assert (N : noAutoPlay s) by (apply run_noAutoPlay; split; reflexivity).
  clearbody s. split; [exact N|]. destruct N as [Nv Nm].
  rewrite (videoLoadedData_quiet w h allowed s Nv).
  destruct (modelLoadedData_quiet w h now allowed s (conj Nv Nm)) as [Pm Em].
  rewrite Pm, Em.
  destruct (videoEl (video s)) eqn:Ev; cbn; rewrite ?Ev; repeat split; reflexivity.
Qed.

(** *** An invariant: a waiting gallery has its load in flight *)

Lemma photoOk_same (s s' : State) : photo s' = photo s -> photoOk s -> photoOk s'.
Proof. unfold photoOk. intros ->. auto. Qed.

Lemma photoOk_notLoading (s : State) : photoLoading (photo s) = false -> photoOk s.
Proof. unfold photoOk. intros ->. discriminate. Qed.

Lemma loadPhotoAt_photoOk i (s : State) : photoOk s -> photoOk (loadPhotoAt i s).
Proof.
  intros H. unfold loadPhotoAt. destruct (negb _); [exact H|]. destruct (negb _); [exact H|].
  intros _. cbn. eexists. split; [apply last_snoc | reflexivity].
Qed.

Lemma photoLoaded_photoOk k w h (s : State) : photoOk s -> photoOk (photoLoaded k w h s).
Proof.
  intros H. unfold photoLoaded. destruct (_ !! k); [|exact H].
  apply photoOk_notLoading. rewrite drawPhotoToTv_keeps_photo. reflexivity.
Qed.

Lemma photoFailed_photoOk k (s : State) : photoOk s -> photoOk (photoFailed k s).
Proof.
  intros H. unfold photoFailed. destruct (_ !! k); [|exact H].
  apply photoOk_notLoading. reflexivity.
Qed.

Lemma openPhotoOverlay_photoOk u (s : State) : photoOk s -> photoOk (openPhotoOverlay u s).
Proof.
  intros H. unfold openPhotoOverlay. destruct u as [u|]; [|exact H].
  destruct (String.eqb u _); exact H.
Qed.

Lemma closePhotoOverlay_photoOk (s : State) : photoOk s -> photoOk (closePhotoOverlay s).
Proof. intros H. exact H. Qed.

Create HintDb tvphoto.

#[local] Hint Resolve loadPhotoAt_photoOk photoLoaded_photoOk photoFailed_photoOk
  openPhotoOverlay_photoOk closePhotoOverlay_photoOk : tvphoto.

Ltac photo_leaf :=
  idtac;
  match goal with
  | |- photoOk (withPhoto _ _) => apply photoOk_notLoading; reflexivity
  | |- photoOk (?f ?x) =>
      first [ solve [auto with tvphoto]
            | apply (photoOk_same x); [autorewrite with tvframe; reflexivity |] ]
  end.

Lemma nextPhoto_photoOk d s : photoOk s -> photoOk (nextPhoto d s).
Proof. cbv beta delta [nextPhoto]. walk photo_leaf. Qed.

#[local] Hint Resolve nextPhoto_photoOk : tvphoto.

Lemma overlayNextPhoto_photoOk d s : photoOk s -> photoOk (overlayNextPhoto d s).
Proof. cbv beta delta [overlayNextPhoto]. walk photo_leaf. Qed.

#[local] Hint Resolve overlayNextPhoto_photoOk : tvphoto.

Lemma confirmMenuSelection_photoOk now a s : photoOk s -> photoOk (confirmMenuSelection now a s).
Proof. cbv beta delta [confirmMenuSelection]. walk photo_leaf. Qed.

#[local] Hint Resolve confirmMenuSelection_photoOk : tvphoto.

Lemma animate_photoOk dt now s : photoOk s -> photoOk (animate dt now s).
Proof. cbv beta delta [animate]. walk photo_leaf. Qed.

#[local] Hint Resolve animate_photoOk : tvphoto.

Lemma onPointerDown_photoOk hit now a s : photoOk s -> photoOk (onPointerDown hit now a s).
Proof. cbv beta delta [onPointerDown]. walk photo_leaf. Qed.

#[local] Hint Resolve onPointerDown_photoOk : tvphoto.

Lemma step_photoOk (s : State) (e : Event) : photoOk s -> photoOk (step s e).
Proof.
  destruct e; cbn [step]; intros H; first [ solve [auto with tvphoto] | photo_leaf; exact H ].
Qed.

Lemma run_photoOk (evs : list Event) (s : State) : photoOk s -> photoOk (run evs s).
Proof.
  revert s. induction evs as [|e evs IH]; intros s H; cbn; [exact H|].
  apply IH, step_photoOk, H.
Qed.

Lemma last_lookup_length {A} (l : list A) (x : A) :
  last l = Some x -> exists k, l !! k = Some x /\ S k = List.length l.
Proof.
  intros H. exists (Nat.pred (List.length l)). rewrite <- last_lookup. split; [exact H|].
  destruct l; [discriminate | reflexivity].
Qed.

(** X13. A waiting gallery is never stuck.  In every state the TV can
    reach, if [photoLoading] is set then the load started last is still in
    flight and is a load of the current photo; when it delivers, the
    picture kept and shown is the current photo's and the flag is cleared,
    so the arrows work again; when it fails, the flag is cleared too. *)
Theorem photo_load_in_flight (now0 : Q) (hasScreen : bool) (evs : list Event) (w h : Z) :
  let s := run evs (init now0 hasScreen) in
  photoLoading (photo s) = true ->
  exists k req,
    photoRequests (photo s) !! k = Some req /\
    S k = List.length (photoRequests (photo s)) /\
    reqUrl req = currentPhotoUrl (photo s) /\
    photoLoading (photo (photoLoaded k w h s)) = false /\
    photoImage (photo (photoLoaded k w h s))
      = Some (mkImage (currentPhotoUrl (photo s)) w h) /\
    shownSource (canvas (screen (photoLoaded k w h s)))
      = Some (FromImage (mkImage (currentPhotoUrl (photo s)) w h)) /\
    photoLoading (photo (photoFailed k s)) = false.
Proof.
  intros s L.
  assert (P : photoOk s) by (apply run_photoOk, photoOk_notLoading; reflexivity).
  clearbody s. destruct (P L) as (req & La & U).
  destruct (last_lookup_length _ _ La) as (k & Hk & Len).
  exists k, req. split; [exact Hk|]. split; [exact Len|]. split; [exact U|].
  unfold photoLoaded, photoFailed. rewrite Hk, U.
  rewrite drawPhotoToTv_keeps_photo. cbn [photo withPhoto settle photoLoading photoImage
    set_photoLoading set_photoImage set_photoRequests].
  split; [reflexivity|]. split; [reflexivity|]. split; [|reflexivity].
  unfold drawPhotoToTv. cbv zeta.
  match goal with |- context [if ?b then _ else _] => destruct b end; reflexivity.
Qed.

Lemma photo_load_in_flight_witness :
  exists k req,
    photoRequests (photo photoMode) !! k = Some req /\
    S k = List.length (photoRequests (photo photoMode)) /\
    reqUrl req = currentPhotoUrl (photo photoMode) /\
    photoLoading (photo (photoLoaded k 800 600 photoMode)) = false /\
    photoImage (photo (photoLoaded k 800 600 photoMode))
      = Some (mkImage (currentPhotoUrl (photo photoMode)) 800 600) /\
    shownSource (canvas (screen (photoLoaded k 800 600 photoMode)))
      = Some (FromImage (mkImage (currentPhotoUrl (photo photoMode)) 800 600)) /\
    photoLoading (photo (photoFailed k photoMode)) = false.
Proof.
  assert (L : photoLoading (photo (run [press HitPower 1000; press HitOk 2000]
                                     (init 0 true))) = true)
    by (vm_compute; reflexivity).
  pose proof (photo_load_in_flight 0 true [press HitPower 1000; press HitOk 2000]
                800 600 L) as P.
  unfold photoMode. exact P.
Defined.

(** *** An invariant: every cursor points at something *)

Lemma draw_keeps_cursors op s : cursors (draw op s) = cursors s.
Proof. cbv beta delta [draw]. frame. Qed.

#[local] Hint Rewrite draw_keeps_cursors : tvframe.

Lemma texNeedsUpdate_keeps_cursors s : cursors (texNeedsUpdate s) = cursors s.
Proof. cbv beta delta [texNeedsUpdate]. frame. Qed.

#[local] Hint Rewrite texNeedsUpdate_keeps_cursors : tvframe.

Lemma clearTvScreen_keeps_cursors s : cursors (clearTvScreen s) = cursors s.
Proof. cbv beta delta [clearTvScreen]. frame. Qed.

#[local] Hint Rewrite clearTvScreen_keeps_cursors : tvframe.

Lemma applyTvTextureEnabled_keeps_cursors b s : cursors (applyTvTextureEnabled b s) = cursors s.
Proof. cbv beta delta [applyTvTextureEnabled]. frame. Qed.

#[local] Hint Rewrite applyTvTextureEnabled_keeps_cursors : tvframe.

Lemma drawTvMenu_keeps_cursors now s : cursors (drawTvMenu now s) = cursors s.
Proof. cbv beta delta [drawTvMenu]. frame. Qed.

#[local] Hint Rewrite drawTvMenu_keeps_cursors : tvframe.

Lemma drawPhotoToTv_keeps_cursors img s : cursors (drawPhotoToTv img s) = cursors s.
Proof. cbv beta delta [drawPhotoToTv]. frame. Qed.

#[local] Hint Rewrite drawPhotoToTv_keeps_cursors : tvframe.

Lemma drawVideoFrameToTv_keeps_cursors s : cursors (drawVideoFrameToTv s) = cursors s.
Proof. cbv beta delta [drawVideoFrameToTv]. frame. Qed.

#[local] Hint Rewrite drawVideoFrameToTv_keeps_cursors : tvframe.

Lemma drawModelFrameToTv_keeps_cursors now s : cursors (drawModelFrameToTv now s) = cursors s.
Proof. cbv beta delta [drawModelFrameToTv]. frame. Qed.

#[local] Hint Rewrite drawModelFrameToTv_keeps_cursors : tvframe.

Lemma drawModelToTv_keeps_cursors now s : cursors (drawModelToTv now s) = cursors s.
Proof. cbv beta delta [drawModelToTv]. frame. Qed.

#[local] Hint Rewrite drawModelToTv_keeps_cursors : tvframe.

Lemma settle_keeps_cursors k s : cursors (settle k s) = cursors s.
Proof. cbv beta delta [settle]. frame. Qed.

#[local] Hint Rewrite settle_keeps_cursors : tvframe.

Lemma photoLoaded_keeps_cursors k w h s : cursors (photoLoaded k w h s) = cursors s.
Proof. cbv beta delta [photoLoaded]. frame. Qed.

#[local] Hint Rewrite photoLoaded_keeps_cursors : tvframe.

Lemma photoFailed_keeps_cursors k s : cursors (photoFailed k s) = cursors s.
Proof. cbv beta delta [photoFailed]. frame. Qed.

#[local] Hint Rewrite photoFailed_keeps_cursors : tvframe.

Lemma openPhotoOverlay_keeps_cursors u s : cursors (openPhotoOverlay u s) = cursors s.
Proof. cbv beta delta [openPhotoOverlay]. frame. Qed.

#[local] Hint Rewrite openPhotoOverlay_keeps_cursors : tvframe.

Lemma closePhotoOverlay_keeps_cursors s : cursors (closePhotoOverlay s) = cursors s.
Proof. cbv beta delta [closePhotoOverlay]. frame. Qed.

#[local] Hint Rewrite closePhotoOverlay_keeps_cursors : tvframe.

Lemma updVideoEl_keeps_cursors f s : cursors (updVideoEl f s) = cursors s.
Proof. cbv beta delta [updVideoEl]. frame. Qed.

#[local] Hint Rewrite updVideoEl_keeps_cursors : tvframe.

Lemma ensureVideoEl_keeps_cursors s : cursors (ensureVideoEl s) = cursors s.
Proof. cbv beta delta [ensureVideoEl]. frame. Qed.

#[local] Hint Rewrite ensureVideoEl_keeps_cursors : tvframe.

Lemma playVideo_keeps_cursors a s : cursors (playVideo a s) = cursors s.
Proof. cbv beta delta [playVideo]. frame. Qed.

#[local] Hint Rewrite playVideo_keeps_cursors : tvframe.

Lemma videoListener_keeps_cursors ev a s : cursors (videoListener ev a s) = cursors s.
Proof. cbv beta delta [videoListener]. frame. Qed.

#[local] Hint Rewrite videoListener_keeps_cursors : tvframe.

Lemma pauseVideo_keeps_cursors s : cursors (pauseVideo s) = cursors s.
Proof. cbv beta delta [pauseVideo]. frame. Qed.

#[local] Hint Rewrite pauseVideo_keeps_cursors : tvframe.

Lemma stopVideoCompletely_keeps_cursors s : cursors (stopVideoCompletely s) = cursors s.
Proof. cbv beta delta [stopVideoCompletely]. frame. Qed.

#[local] Hint Rewrite stopVideoCompletely_keeps_cursors : tvframe.

Lemma toggleVideoPlayPause_keeps_cursors a s : cursors (toggleVideoPlayPause a s) = cursors s.
Proof. cbv beta delta [toggleVideoPlayPause]. frame. Qed.

#[local] Hint Rewrite toggleVideoPlayPause_keeps_cursors : tvframe.

Lemma videoLoadedData_keeps_cursors w h a s : cursors (videoLoadedData w h a s) = cursors s.
Proof. cbv beta delta [videoLoadedData]. frame. Qed.

#[local] Hint Rewrite videoLoadedData_keeps_cursors : tvframe.

Lemma videoReachesEnd_keeps_cursors s : cursors (videoReachesEnd s) = cursors s.
Proof. cbv beta delta [videoReachesEnd]. frame. Qed.

#[local] Hint Rewrite videoReachesEnd_keeps_cursors : tvframe.

Lemma updModelVideoEl_keeps_cursors f s : cursors (updModelVideoEl f s) = cursors s.
Proof. cbv beta delta [updModelVideoEl]. frame. Qed.

#[local] Hint Rewrite updModelVideoEl_keeps_cursors : tvframe.

Lemma ensureModelVideoEl_keeps_cursors s : cursors (ensureModelVideoEl s) = cursors s.
Proof. cbv beta delta [ensureModelVideoEl]. frame. Qed.

#[local] Hint Rewrite ensureModelVideoEl_keeps_cursors : tvframe.

Lemma ensureModelImageEl_keeps_cursors s : cursors (ensureModelImageEl s) = cursors s.
Proof. cbv beta delta [ensureModelImageEl]. frame. Qed.

#[local] Hint Rewrite ensureModelImageEl_keeps_cursors : tvframe.

Lemma playModel_keeps_cursors a s : cursors (playModel a s) = cursors s.
Proof. cbv beta delta [playModel]. frame. Qed.

#[local] Hint Rewrite playModel_keeps_cursors : tvframe.

Lemma modelListener_keeps_cursors ev now a s : cursors (modelListener ev now a s) = cursors s.
Proof. cbv beta delta [modelListener]. frame. Qed.

#[local] Hint Rewrite modelListener_keeps_cursors : tvframe.

Lemma modelElPause_keeps_cursors s : cursors (modelElPause s) = cursors s.
Proof. cbv beta delta [modelElPause]. frame. Qed.

#[local] Hint Rewrite modelElPause_keeps_cursors : tvframe.

Lemma pauseModel_keeps_cursors s : cursors (pauseModel s) = cursors s.
Proof. cbv beta delta [pauseModel]. frame. Qed.

#[local] Hint Rewrite pauseModel_keeps_cursors : tvframe.

Lemma stopModelCompletely_keeps_cursors s : cursors (stopModelCompletely s) = cursors s.
Proof. cbv beta delta [stopModelCompletely]. frame. Qed.

#[local] Hint Rewrite stopModelCompletely_keeps_cursors : tvframe.

Lemma modelImageLoaded_keeps_cursors w h now s : cursors (modelImageLoaded w h now s) = cursors s.
Proof. cbv beta delta [modelImageLoaded]. frame. Qed.

#[local] Hint Rewrite modelImageLoaded_keeps_cursors : tvframe.

Lemma modelImageFailed_keeps_cursors s : cursors (modelImageFailed s) = cursors s.
Proof. cbv beta delta [modelImageFailed]. frame. Qed.

#[local] Hint Rewrite modelImageFailed_keeps_cursors : tvframe.

Lemma modelLoadedData_keeps_cursors w h now a s : cursors (modelLoadedData w h now a s) = cursors s.
Proof. cbv beta delta [modelLoadedData]. frame. Qed.

#[local] Hint Rewrite modelLoadedData_keeps_cursors : tvframe.

Lemma toggleModelPlayPause_keeps_cursors a s : cursors (toggleModelPlayPause a s) = cursors s.
Proof. cbv beta delta [toggleModelPlayPause]. frame. Qed.

#[local] Hint Rewrite toggleModelPlayPause_keeps_cursors : tvframe.

Lemma updateTv_keeps_cursors now s : cursors (updateTv now s) = cursors s.
Proof. cbv beta delta [updateTv]. frame. Qed.

#[local] Hint Rewrite updateTv_keeps_cursors : tvframe.

Lemma openVideoOverlay_keeps_cursors s : cursors (openVideoOverlay s) = cursors s.
Proof. cbv beta delta [openVideoOverlay]. frame. Qed.

#[local] Hint Rewrite openVideoOverlay_keeps_cursors : tvframe.

Lemma closeVideoOverlay_keeps_cursors src time paused a s : cursors (closeVideoOverlay src time paused a s) = cursors s.
Proof. cbv beta delta [closeVideoOverlay]. frame. Qed.

#[local] Hint Rewrite closeVideoOverlay_keeps_cursors : tvframe.

Lemma openModelOverlay_keeps_cursors now s : cursors (openModelOverlay now s) = cursors s.
Proof. cbv beta delta [openModelOverlay]. frame. Qed.

#[local] Hint Rewrite openModelOverlay_keeps_cursors : tvframe.

Lemma closeModelOverlay_keeps_cursors src time paused a s : cursors (closeModelOverlay src time paused a s) = cursors s.
Proof. cbv beta delta [closeModelOverlay]. frame. Qed.

#[local] Hint Rewrite closeModelOverlay_keeps_cursors : tvframe.

Lemma videoFullscreenChange_keeps_cursors fs s : cursors (videoFullscreenChange fs s) = cursors s.
Proof. cbv beta delta [videoFullscreenChange]. frame. Qed.

#[local] Hint Rewrite videoFullscreenChange_keeps_cursors : tvframe.

Lemma modelFullscreenChange_keeps_cursors fs now s : cursors (modelFullscreenChange fs now s) = cursors s.
Proof. cbv beta delta [modelFullscreenChange]. frame. Qed.

#[local] Hint Rewrite modelFullscreenChange_keeps_cursors : tvframe.


Lemma cursorsOk_same (s s' : State) : cursors s' = cursors s -> cursorsOk s -> cursorsOk s'.
Proof. unfold cursors, cursorsOk. intros [= -> -> -> -> ->]. auto. Qed.

Lemma wrapIndex_range (i n : Z) : (0 < n)%Z -> (- n <= i)%Z -> (0 <= wrapIndex i n < n)%Z.
Proof. intros Hn Hi. unfold wrapIndex. apply Z.rem_bound_pos; lia. Qed.

Lemma rem_range (i d n : Z) :
  (0 <= i < n)%Z -> unitStep d -> (0 <= Z.rem (i + d + n) n < n)%Z.
Proof. intros Hi Hd. apply Z.rem_bound_pos; destruct Hd; lia. Qed.

Lemma loadPhotoAt_cursorsOk i (s : State) :
  (- 7 <= i)%Z -> cursorsOk s -> cursorsOk (loadPhotoAt i s).
Proof.
  intros Hi H. unfold loadPhotoAt. destruct (negb _); [exact H|]. destruct (negb _); [exact H|].
  destruct H as (U & M & P & V & Mo).
  refine (conj U (conj M (conj _ (conj V Mo)))). apply (wrapIndex_range i 7); lia.
Qed.

Lemma nextPhoto_cursorsOk d (s : State) :
  unitStep d -> cursorsOk s -> cursorsOk (nextPhoto d s).
Proof.
  intros Hd H. unfold nextPhoto. destruct (negb _); [exact H|]. destruct (negb _); [exact H|].
  destruct (photoLoading _); [exact H|].
  apply loadPhotoAt_cursorsOk; [|exact H].
  destruct H as (_ & _ & P & _). destruct Hd; lia.
Qed.

Lemma overlayNextPhoto_cursorsOk d (s : State) :
  unitStep d -> cursorsOk s -> cursorsOk (overlayNextPhoto d s).
Proof.
  intros Hd H. unfold overlayNextPhoto. destruct (negb _); [exact H|]. cbv zeta.
  apply (cursorsOk_same (nextPhoto d s)); [apply openPhotoOverlay_keeps_cursors|].
  apply nextPhoto_cursorsOk; assumption.
Qed.

Lemma loadVideoAt_cursorsOk i ap a (s : State) :
  (- 3 <= i)%Z -> cursorsOk s -> cursorsOk (loadVideoAt i ap a s).
Proof.
  intros Hi H. unfold loadVideoAt. destruct (negb _); [exact H|]. destruct (negb _); [exact H|].
  cbv zeta.
  set (s1 := clearTvScreen _).
  assert (H1 : cursorsOk s1).
  { destruct H as (U & M & P & V & Mo).
    unfold s1, cursorsOk, updVideoEl, videoListener, ensureVideoEl.
    destruct (videoEl (video s)); cbn;
      refine (conj U (conj M (conj P (conj _ Mo)))); apply (wrapIndex_range i 3); lia. }
  destruct ap; [|exact H1].
  apply (cursorsOk_same s1); [apply playVideo_keeps_cursors | exact H1].
Qed.

Lemma nextVideo_cursorsOk d a (s : State) :
  unitStep d -> cursorsOk s -> cursorsOk (nextVideo d a s).
Proof.
  intros Hd H. unfold nextVideo. destruct (negb _); [exact H|]. destruct (negb _); [exact H|].
  apply loadVideoAt_cursorsOk; [|exact H].
  destruct H as (_ & _ & _ & V & _). destruct Hd; lia.
Qed.

Lemma overlayNextVideo_cursorsOk d a (s : State) :
  unitStep d -> cursorsOk s -> cursorsOk (overlayNextVideo d a s).
Proof.
  intros Hd H. unfold overlayNextVideo. destruct (negb _); [exact H|].
  destruct (negb _); [exact H|]. cbv zeta.
  assert (J := rem_range (videoIndex (video s)) d 3 (proj1 (proj2 (proj2 (proj2 H)))) Hd).
  apply loadVideoAt_cursorsOk;
    [cbn [videoIndex video withVideo set_videoIndex];
     change (zlength VIDEO_PATHS) with 3%Z; lia|].
  destruct H as (U & M & P & V & Mo). exact (conj U (conj M (conj P (conj J Mo)))).
Qed.

Lemma loadModelAt_cursorsOk i ap a (s : State) :
  (- 5 <= i)%Z -> cursorsOk s -> cursorsOk (loadModelAt i ap a s).
Proof.
  intros Hi H. cbv beta delta [loadModelAt].
  destruct (negb _); [exact H|]. destruct (negb _); [exact H|].
  cbv zeta.
  set (i' := wrapIndex i (zlength MODEL_PATHS)).
  assert (I' : (0 <= i' < zlength MODEL_PATHS)%Z) by (apply (wrapIndex_range i 5); lia).
  set (s1 := clearTvScreen _).
  assert (H1 : cursorsOk s1).
  { destruct H as (U & M & P & V & Mo). exact (conj U (conj M (conj P (conj V I')))). }
  clearbody s1.
  destruct (isImageUrl _).
  - apply (cursorsOk_same s1); [|exact H1].
    unfold cursors. cbn [ui photo video model withModel].
    match goal with |- context [match ?x with Some _ => _ | None => _ end] =>
      set (s2 := x) end.
    assert (C : cursors match s2 with
                        | Some _ => modelElPause (ensureModelImageEl
                                      (withModel (set_modelMediaType MediaImage) s1))
                        | None => ensureModelImageEl
                                    (withModel (set_modelMediaType MediaImage) s1)
                        end = cursors s1).
    { destruct s2; autorewrite with tvframe; reflexivity. }
    unfold cursors in C. injection C as C1 C2 C3 C4 C5.
    cbn [modelIndex set_modelImageEl set_modelImageLoading set_modelPlaying].
    congruence.
  - set (s3 := updModelVideoEl _ _).
    assert (C : cursors s3 = cursors s1).
    { unfold s3. autorewrite with tvframe. reflexivity. }
    destruct ap; (eapply cursorsOk_same; [|exact H1]);
      autorewrite with tvframe; exact C.
Qed.

Lemma nextModel_cursorsOk d a (s : State) :
  unitStep d -> cursorsOk s -> cursorsOk (nextModel d a s).
Proof.
  intros Hd H. unfold nextModel. destruct (negb _); [exact H|]. destruct (negb _); [exact H|].
  apply loadModelAt_cursorsOk; [|exact H].
  destruct H as (_ & _ & _ & _ & V). destruct Hd; lia.
Qed.

Lemma overlayNextModel_cursorsOk d a (s : State) :
  unitStep d -> cursorsOk s -> cursorsOk (overlayNextModel d a s).
Proof.
  intros Hd H. unfold overlayNextModel. destruct (negb _); [exact H|].
  destruct (negb _); [exact H|]. cbv zeta.
  assert (J := rem_range (modelIndex (model s)) d 5 (proj2 (proj2 (proj2 (proj2 H)))) Hd).
  apply loadModelAt_cursorsOk;
    [cbn [modelIndex model withModel set_modelIndex];
     change (zlength MODEL_PATHS) with 5%Z; lia|].
  destruct H as (U & M & P & V & Mo). exact (conj U (conj M (conj P (conj V J)))).
Qed.

Lemma moveMenuSelection_cursorsOk d now (s : State) :
  unitStep d -> cursorsOk s -> cursorsOk (moveMenuSelection d now s).
Proof.
  intros Hd H. unfold moveMenuSelection. destruct (negb _); [exact H|].
  destruct (negb _); [exact H|]. cbv zeta.
  assert (J := rem_range (menuIndex (ui s)) d 3 (proj1 (proj2 H)) Hd).
  destruct H as (U & M & P & V & Mo). exact (conj U (conj J (conj P (conj V Mo)))).
Qed.

Lemma backToMenu_cursorsOk now (s : State) : cursorsOk s -> cursorsOk (backToMenu now s).
Proof.
  intros (U & M & P & V & Mo). refine (conj _ (conj M (conj P (conj V Mo)))). discriminate.
Qed.

Lemma confirmMenuSelection_cursorsOk now a (s : State) :
  cursorsOk s -> cursorsOk (confirmMenuSelection now a s).
Proof.
  intros H. unfold confirmMenuSelection. destruct (negb _); [exact H|].
  destruct (negb _); [exact H|]. cbv zeta.
  destruct H as (U & M & P & V & Mo).
  assert (G : forall st, st <> UiUndefined -> cursorsOk (withUi (set_tvUiState st) s))
    by (intros st Hst; exact (conj Hst (conj M (conj P (conj V Mo))))).
  change (zlength MENU_ITEMS) with 3%Z in M.
  assert (C : (menuIndex (ui s) = 0 \/ menuIndex (ui s) = 1 \/ menuIndex (ui s) = 2)%Z)
    by lia.
  destruct C as [-> | [-> | ->]]; cbn [jsIndex MENU_ITEMS default Z.ltb Z.to_nat nth_error
    Pos.to_nat Pos.iter_op Init.Nat.add Z.compare].
  - apply loadPhotoAt_cursorsOk; [lia|]. apply (G PHOTO). discriminate.
  - apply loadVideoAt_cursorsOk; [lia|].
    apply (cursorsOk_same (withUi (set_tvUiState VIDEO) s));
      [apply ensureVideoEl_keeps_cursors | apply G; discriminate].
  - apply loadModelAt_cursorsOk; [lia|].
    apply (cursorsOk_same (withUi (set_tvUiState MODEL3D) s));
      [apply ensureModelVideoEl_keeps_cursors | apply G; discriminate].
Qed.

Lemma setTvPower_cursorsOk on now (s : State) : cursorsOk s -> cursorsOk (setTvPower on now s).
Proof.
  intros H. cbv beta delta [setTvPower]. cbv zeta.
  destruct (_ =? _)%Z; [exact H|].
  set (s1 := withUi (set_tvOn on) s).
  assert (H1 : cursorsOk s1) by exact H. clearbody s1.
  set (s2 := if negb (tvOn (ui s1)) then _ else _).
  assert (H2 : cursorsOk s2).
  { unfold s2. destruct (negb _); (eapply cursorsOk_same; [|exact H1]);
      autorewrite with tvframe; reflexivity. }
  clearbody s2.
  destruct (tvOn (ui s2)); [|exact H2].
  destruct H2 as (U & M & P & V & Mo).
  refine (conj _ (conj _ (conj P (conj V Mo)))); cbn;
    [discriminate | change (zlength MENU_ITEMS) with 3%Z; lia].
Qed.

Create HintDb tvcursor.

Lemma unitStep_next : unitStep 1.
Proof. left; reflexivity. Qed.

Lemma unitStep_prev : unitStep (-1).
Proof. right; reflexivity. Qed.

#[local] Hint Resolve unitStep_next unitStep_prev loadPhotoAt_cursorsOk nextPhoto_cursorsOk
  overlayNextPhoto_cursorsOk loadVideoAt_cursorsOk nextVideo_cursorsOk
  overlayNextVideo_cursorsOk loadModelAt_cursorsOk nextModel_cursorsOk
  overlayNextModel_cursorsOk moveMenuSelection_cursorsOk backToMenu_cursorsOk
  confirmMenuSelection_cursorsOk setTvPower_cursorsOk : tvcursor.

#[local] Hint Extern 3 (Z.le _ _) =>
  repeat match goal with H : cursorsOk _ |- _ => destruct H as (? & ? & ? & ? & ?) end;
  lia : tvcursor.

#[local] Hint Extern 5 (cursorsOk (?f ?x)) =>
  apply (cursorsOk_same x); [autorewrite with tvframe; reflexivity |] : tvcursor.

Ltac cursor_leaf :=
  idtac;
  match goal with
  | |- cursorsOk (?f ?x) =>
      first [ solve [auto with tvcursor]
            | apply (cursorsOk_same x); [autorewrite with tvframe; reflexivity |] ]
  end.

Lemma animate_cursorsOk dt now (s : State) : cursorsOk s -> cursorsOk (animate dt now s).
Proof.
  cbv beta delta [animate]. walk cursor_leaf.
Qed.

Lemma onPointerDown_cursorsOk hit now a (s : State) :
  cursorsOk s -> cursorsOk (onPointerDown hit now a s).
Proof. cbv beta delta [onPointerDown]. walk cursor_leaf. Qed.

Lemma step_cursorsOk (s : State) (e : Event) :
  pageEvent e -> cursorsOk s -> cursorsOk (step s e).
Proof.
  destruct e; cbn [step pageEvent]; intros He H;
    first [ solve [auto using animate_cursorsOk, onPointerDown_cursorsOk with tvcursor]
          | cursor_leaf; exact H ].
Qed.

Lemma run_cursorsOk (evs : list Event) (s : State) :
  Forall pageEvent evs -> cursorsOk s -> cursorsOk (run evs s).
Proof.
  revert s. induction evs as [|e evs IH]; intros s He H; cbn; [exact H|].
  inversion He; subst. apply IH; [assumption|]. apply step_cursorsOk; assumption.
Qed.

(** X14. Every cursor always points at something.  Through any
    sequence of pointer presses, frames, loader callbacks, media events
    and overlay actions (the overlays' controls stepping by one item, as
    the page's buttons and arrow keys do), the screen shown is one of
    MENU, PHOTO, VIDEO and 3D MODEL, never the undefined state, and the
    menu selection and the three gallery indices stay within their lists,
    so that the menu entry and the file looked up at each of them exist. *)
Theorem cursors_always_valid (now0 : Q) (hasScreen : bool) (evs : list Event) :
  Forall pageEvent evs ->
  let s := run evs (init now0 hasScreen) in
  tvUiState (ui s) <> UiUndefined /\
  (0 <= menuIndex (ui s) < 3)%Z /\ (0 <= photoIndex (photo s) < 7)%Z /\
  (0 <= videoIndex (video s) < 3)%Z /\ (0 <= modelIndex (model s) < 5)%Z /\
  is_Some (jsIndex MENU_ITEMS (menuIndex (ui s))) /\
  is_Some (jsIndex PHOTO_PATHS (photoIndex (photo s))) /\
  is_Some (jsIndex VIDEO_PATHS (videoIndex (video s))) /\
  is_Some (jsIndex MODEL_PATHS (modelIndex (model s))).
Proof.
  intros He s.
  assert (C : cursorsOk s).
  { apply run_cursorsOk; [exact He|]. unfold cursorsOk. cbn.
    split; [discriminate|]. repeat split; discriminate. }
  clearbody s. destruct C as (U & M & P & V & Mo).
  split; [exact U|]. split; [exact M|]. split; [exact P|]. split; [exact V|].
  split; [exact Mo|].
  repeat split; apply jsIndex_in_range; assumption.
Qed.

Lemma cursors_always_valid_witness :
  cursorsOk (run [press HitPower 1000; press HitOk 2000; EvOverlayNextPhoto (-1)]
               (init 0 true)).
Proof.
  assert (He : Forall pageEvent
                 [press HitPower 1000; press HitOk 2000; EvOverlayNextPhoto (-1)]).
  { apply Forall_cons_2; [exact I|]. apply Forall_cons_2; [exact I|].
    apply Forall_cons_2; [right; reflexivity | apply Forall_nil_2]. }
  pose proof (cursors_always_valid 0 true _ He) as (U & M & P & V & Mo & _).
  exact (conj U (conj M (conj P (conj V Mo)))).
Defined.

(** *** An invariant: what plays, plays in its own gallery *)

(** Closes an equation between two views of states that differ by
    operations with frame lemmas. *)
Ltac frames :=
  unfold mode, videoPlayer, modelPlayer; autorewrite with tvframe; reflexivity.

Lemma UiState_eqb_true (a b : UiState) : UiState_eqb a b = true -> a = b.
Proof. destruct a, b; (reflexivity || discriminate). Qed.

Lemma playingOk_same (y s' : State) :
  mode s' = mode y -> videoPlayer s' = videoPlayer y -> modelPlayer s' = modelPlayer y ->
  playingOk y -> playingOk s'.
Proof.
  unfold mode, videoPlayer, modelPlayer, playingOk.
  intros M V Mo H. injection M as M1 M2. injection V as V1 V2. injection Mo as Mo1 Mo2.
  rewrite M1, M2, V1, V2, Mo1, Mo2. exact H.
Qed.

Lemma playingOk_videoOff (y s' : State) :
  videoPlaying (video s') = false -> mode s' = mode y -> modelPlayer s' = modelPlayer y ->
  playingOk y -> playingOk s'.
Proof.
  unfold mode, modelPlayer, playingOk.
  intros V M Mo [_ H]. injection M as M1 M2. injection Mo as Mo1 Mo2.
  rewrite V, M1, M2, Mo1, Mo2. split; [discriminate | exact H].
Qed.

Lemma playingOk_modelOff (y s' : State) :
  modelPlaying (model s') = false -> mode s' = mode y -> videoPlayer s' = videoPlayer y ->
  playingOk y -> playingOk s'.
Proof.
  unfold mode, videoPlayer, playingOk.
  intros Mo M V [H _]. injection M as M1 M2. injection V as V1 V2.
  rewrite Mo, M1, M2, V1, V2. split; [exact H | discriminate].
Qed.

Lemma playingOk_quiet (s : State) :
  videoPlaying (video s) = false -> modelPlaying (model s) = false -> playingOk s.
Proof. unfold playingOk. intros -> ->. split; discriminate. Qed.

Lemma playingOk_video_silent (s : State) :
  playingOk s ->
  tvOn (ui s) = false \/ tvUiState (ui s) <> VIDEO \/ videoEl (video s) = None ->
  videoPlaying (video s) = false.
Proof.
  intros [H _] C. destruct (videoPlaying (video s)); [|reflexivity].
  destruct (H eq_refl) as (On & St & El).
  destruct C as [C | [C | C]]; [congruence | contradiction | rewrite C in El; discriminate].
Qed.

Lemma playingOk_model_silent (s : State) :
  playingOk s ->
  tvOn (ui s) = false \/ tvUiState (ui s) <> MODEL3D \/ modelVideoEl (model s) = None ->
  modelPlaying (model s) = false.
Proof.
  intros [_ H] C. destruct (modelPlaying (model s)); [|reflexivity].
  destruct (H eq_refl) as (On & St & El).
  destruct C as [C | [C | C]]; [congruence | contradiction | rewrite C in El; discriminate].
Qed.

Lemma ensureVideoEl_playingOk (s : State) : playingOk s -> playingOk (ensureVideoEl s).
Proof.
  intros H. unfold ensureVideoEl. destruct (videoEl (video s)) eqn:E; [exact H|].
  apply (playingOk_videoOff s); [|reflexivity|reflexivity|exact H].
  apply (playingOk_video_silent s H). auto.
Qed.

Lemma ensureModelVideoEl_playingOk (s : State) :
  playingOk s -> playingOk (ensureModelVideoEl s).
Proof.
  intros H. unfold ensureModelVideoEl. destruct (modelVideoEl (model s)) eqn:E; [exact H|].
  apply (playingOk_modelOff s); [|reflexivity|reflexivity|exact H].
  apply (playingOk_model_silent s H). auto.
Qed.

Lemma playVideo_playingOk a (s : State) : playingOk s -> playingOk (playVideo a s).
Proof.
  intros H. unfold playVideo.
  destruct (tvOn (ui s)) eqn:On; [|exact H]. cbn [negb].
  destruct (isUi VIDEO s) eqn:St; [|exact H]. cbn [negb].
  destruct (videoEl (video s)) as [el|] eqn:E; [|exact H].
  destruct a.
  - split; [|exact (proj2 H)]. intros _.
    split; [exact On|]. split; [apply UiState_eqb_true, St|].
    unfold updVideoEl. cbn. rewrite E. reflexivity.
  - apply (playingOk_videoOff s); [reflexivity..|exact H].
Qed.

Lemma playModel_playingOk a (s : State) : playingOk s -> playingOk (playModel a s).
Proof.
  intros H. unfold playModel.
  destruct (tvOn (ui s)) eqn:On; [|exact H]. cbn [negb].
  destruct (isUi MODEL3D s) eqn:St; [|exact H]. cbn [negb].
  destruct (modelVideoEl (model s)) as [el|] eqn:E; [|exact H].
  destruct a.
  - split; [exact (proj1 H)|]. intros _.
    split; [exact On|]. split; [apply UiState_eqb_true, St|].
    unfold updModelVideoEl. cbn. rewrite E. reflexivity.
  - apply (playingOk_modelOff s); [reflexivity..|exact H].
Qed.

Lemma pauseVideo_playingOk (s : State) : playingOk s -> playingOk (pauseVideo s).
Proof.
  intros H. unfold pauseVideo. destruct (videoEl (video s)); [|exact H].
  apply (playingOk_videoOff s); [reflexivity..|exact H].
Qed.

Lemma stopVideoCompletely_playingOk (s : State) :
  playingOk s -> playingOk (stopVideoCompletely s).
Proof.
  intros H. unfold stopVideoCompletely. destruct (videoEl (video s)); [|exact H].
  apply (playingOk_videoOff s); [reflexivity..|exact H].
Qed.

Lemma modelElPause_playingOk (s : State) : playingOk s -> playingOk (modelElPause s).
Proof. intros H. apply (playingOk_modelOff s); [reflexivity..|exact H]. Qed.

Lemma pauseModel_playingOk (s : State) : playingOk s -> playingOk (pauseModel s).
Proof.
  intros H. unfold pauseModel.
  destruct (modelMediaType (model s)); [|exact H].
  destruct (modelVideoEl (model s)); [|exact H].
  apply (playingOk_modelOff s); [reflexivity..|exact H].
Qed.

Lemma stopModelCompletely_playingOk (s : State) :
  playingOk s -> playingOk (stopModelCompletely s).
Proof.
  intros H. unfold stopModelCompletely. destruct (modelVideoEl (model s)); [|exact H].
  apply (playingOk_modelOff s); [reflexivity..|exact H].
Qed.

Create HintDb tvplaying.

#[local] Hint Resolve ensureVideoEl_playingOk ensureModelVideoEl_playingOk
  playVideo_playingOk playModel_playingOk pauseVideo_playingOk
  stopVideoCompletely_playingOk modelElPause_playingOk pauseModel_playingOk
  stopModelCompletely_playingOk : tvplaying.

#[local] Hint Extern 5 (playingOk (?f ?x)) =>
  apply (playingOk_same x); [frames | frames | frames |] : tvplaying.

Ltac playing_leaf :=
  idtac;
  match goal with
  | |- playingOk (?f ?x) =>
      first [ solve [auto with tvplaying]
            | apply (playingOk_same x); [frames | frames | frames |] ]
  end.

Lemma videoListener_playingOk ev a (s : State) :
  ev <> PlayEvent -> playingOk s -> playingOk (videoListener ev a s).
Proof.
  intros Hev H. destruct ev; [| |contradiction|exact H].
  - cbv beta iota delta [videoListener]. walk playing_leaf.
  - apply (playingOk_videoOff s); [reflexivity..|exact H].
Qed.

Lemma modelListener_playingOk ev now a (s : State) :
  ev <> PlayEvent -> playingOk s -> playingOk (modelListener ev now a s).
Proof.
  intros Hev H. destruct ev; [| |contradiction|exact H].
  - cbv beta iota delta [modelListener]. walk playing_leaf.
  - apply (playingOk_modelOff s); [reflexivity..|exact H].
Qed.

Lemma PauseEvent_ne : PauseEvent <> PlayEvent.
Proof. discriminate. Qed.

Lemma LoadedData_ne : LoadedData <> PlayEvent.
Proof. discriminate. Qed.

Lemma Ended_ne : Ended <> PlayEvent.
Proof. discriminate. Qed.

#[local] Hint Resolve videoListener_playingOk modelListener_playingOk
  PauseEvent_ne LoadedData_ne Ended_ne : tvplaying.

Lemma videoQuietAs_playingOk (s x : State) : playingOk s -> videoQuietAs s x -> playingOk x.
Proof. intros H (V & M & Mo). exact (playingOk_videoOff s x V M Mo H). Qed.

Lemma modelQuietAs_playingOk (s x : State) : playingOk s -> modelQuietAs s x -> playingOk x.
Proof. intros H (Mo & M & V). exact (playingOk_modelOff s x Mo M V H). Qed.

Lemma videoQuietAs_step (s x x' : State) :
  videoQuietAs s x -> videoPlaying (video x') = videoPlaying (video x) ->
  mode x' = mode x -> modelPlayer x' = modelPlayer x -> videoQuietAs s x'.
Proof. intros (V & M & Mo) V' M' Mo'. repeat split; congruence. Qed.

Lemma modelQuietAs_step (s x x' : State) :
  modelQuietAs s x -> modelPlaying (model x') = modelPlaying (model x) ->
  mode x' = mode x -> videoPlayer x' = videoPlayer x -> modelQuietAs s x'.
Proof. intros (Mo & M & V) Mo' M' V'. repeat split; congruence. Qed.

Lemma videoQuietAs_off (s x x' : State) :
  videoQuietAs s x -> videoPlaying (video x') = false ->
  mode x' = mode x -> modelPlayer x' = modelPlayer x -> videoQuietAs s x'.
Proof. intros (V & M & Mo) V' M' Mo'. repeat split; congruence. Qed.

Lemma modelQuietAs_off (s x x' : State) :
  modelQuietAs s x -> modelPlaying (model x') = false ->
  mode x' = mode x -> videoPlayer x' = videoPlayer x -> modelQuietAs s x'.
Proof. intros (Mo & M & V) Mo' M' V'. repeat split; congruence. Qed.

Lemma loadVideoAt_playingOk i ap a (s : State) :
  playingOk s -> playingOk (loadVideoAt i ap a s).
Proof.
  intros H. unfold loadVideoAt. destruct (negb _); [exact H|]. destruct (negb _); [exact H|].
  cbv zeta. set (url := jsIndex VIDEO_PATHS _).
  set (s1 := videoListener PauseEvent false _).
  assert (Q1 : videoQuietAs s s1) by (split; [reflexivity | split; unfold s1; frames]).
  clearbody s1.
  set (s2 := clearTvScreen _).
  assert (Q2 : videoQuietAs s s2)
    by (apply (videoQuietAs_step s s1); [exact Q1|..]; unfold s2; frames).
  clearbody s2.
  destruct ap; [apply playVideo_playingOk|]; exact (videoQuietAs_playingOk s s2 H Q2).
Qed.

Lemma loadModelAt_playingOk i ap a (s : State) :
  playingOk s -> playingOk (loadModelAt i ap a s).
Proof.
  intros H. unfold loadModelAt. destruct (negb _); [exact H|]. destruct (negb _); [exact H|].
  cbv zeta. set (url := jsIndex MODEL_PATHS _).
  set (s1 := clearTvScreen _).
  assert (Q1 : modelQuietAs s s1) by (split; [reflexivity | split; unfold s1; frames]).
  clearbody s1.
  destruct (isImageUrl url).
  - set (s2 := ensureModelImageEl _).
    assert (Q2 : modelQuietAs s s2)
      by (apply (modelQuietAs_step s s1); [exact Q1|..]; unfold s2; frames).
    clearbody s2.
    set (s3 := match modelVideoEl (model s2) with Some _ => _ | None => _ end).
    assert (Q3 : modelQuietAs s s3).
    { unfold s3. destruct (modelVideoEl (model s2)); [|exact Q2].
      apply (modelQuietAs_off s s2); [exact Q2 | reflexivity | frames | frames]. }
    clearbody s3.
    apply (modelQuietAs_playingOk s); [exact H|].
    apply (modelQuietAs_off s s3); [exact Q3 | reflexivity | frames | frames].
  - set (s2 := modelElPause _).
    assert (Q2 : modelQuietAs s s2)
      by (apply (modelQuietAs_off s s1); [exact Q1 | reflexivity | unfold s2; frames..]).
    clearbody s2.
    set (s3 := updModelVideoEl _ _).
    assert (Q3 : modelQuietAs s s3)
      by (apply (modelQuietAs_step s s2); [exact Q2|..]; unfold s3; frames).
    clearbody s3.
    destruct ap; [apply playModel_playingOk | apply pauseModel_playingOk];
      exact (modelQuietAs_playingOk s s3 H Q3).
Qed.

#[local] Hint Resolve loadVideoAt_playingOk loadModelAt_playingOk : tvplaying.

Lemma toggleVideoPlayPause_playingOk a s : playingOk s -> playingOk (toggleVideoPlayPause a s).
Proof. cbv beta delta [toggleVideoPlayPause]. walk playing_leaf. Qed.

#[local] Hint Resolve toggleVideoPlayPause_playingOk : tvplaying.

Lemma nextVideo_playingOk d a s : playingOk s -> playingOk (nextVideo d a s).
Proof. cbv beta delta [nextVideo]. walk playing_leaf. Qed.

#[local] Hint Resolve nextVideo_playingOk : tvplaying.

Lemma videoLoadedData_playingOk w h a s : playingOk s -> playingOk (videoLoadedData w h a s).
Proof. cbv beta delta [videoLoadedData]. walk playing_leaf. Qed.

#[local] Hint Resolve videoLoadedData_playingOk : tvplaying.

Lemma openVideoOverlay_playingOk s : playingOk s -> playingOk (openVideoOverlay s).
Proof. cbv beta delta [openVideoOverlay]. walk playing_leaf. Qed.

#[local] Hint Resolve openVideoOverlay_playingOk : tvplaying.

Lemma closeVideoOverlay_playingOk src time paused a s : playingOk s -> playingOk (closeVideoOverlay src time paused a s).
Proof. cbv beta delta [closeVideoOverlay]. walk playing_leaf. Qed.

#[local] Hint Resolve closeVideoOverlay_playingOk : tvplaying.

Lemma overlayNextVideo_playingOk d a s : playingOk s -> playingOk (overlayNextVideo d a s).
Proof. cbv beta delta [overlayNextVideo]. walk playing_leaf. Qed.

#[local] Hint Resolve overlayNextVideo_playingOk : tvplaying.

Lemma videoFullscreenChange_playingOk fs s : playingOk s -> playingOk (videoFullscreenChange fs s).
Proof. cbv beta delta [videoFullscreenChange]. walk playing_leaf. Qed.

#[local] Hint Resolve videoFullscreenChange_playingOk : tvplaying.

Lemma toggleModelPlayPause_playingOk a s : playingOk s -> playingOk (toggleModelPlayPause a s).
Proof. cbv beta delta [toggleModelPlayPause]. walk playing_leaf. Qed.

#[local] Hint Resolve toggleModelPlayPause_playingOk : tvplaying.

Lemma nextModel_playingOk d a s : playingOk s -> playingOk (nextModel d a s).
Proof. cbv beta delta [nextModel]. walk playing_leaf. Qed.

#[local] Hint Resolve nextModel_playingOk : tvplaying.

Lemma modelLoadedData_playingOk w h now a s : playingOk s -> playingOk (modelLoadedData w h now a s).
Proof. cbv beta delta [modelLoadedData]. walk playing_leaf. Qed.

#[local] Hint Resolve modelLoadedData_playingOk : tvplaying.

Lemma openModelOverlay_playingOk now s : playingOk s -> playingOk (openModelOverlay now s).
Proof. cbv beta delta [openModelOverlay]. walk playing_leaf. Qed.

#[local] Hint Resolve openModelOverlay_playingOk : tvplaying.

Lemma closeModelOverlay_playingOk src time paused a s : playingOk s -> playingOk (closeModelOverlay src time paused a s).
Proof. cbv beta delta [closeModelOverlay]. walk playing_leaf. Qed.

#[local] Hint Resolve closeModelOverlay_playingOk : tvplaying.

Lemma overlayNextModel_playingOk d a s : playingOk s -> playingOk (overlayNextModel d a s).
Proof. cbv beta delta [overlayNextModel]. walk playing_leaf. Qed.

#[local] Hint Resolve overlayNextModel_playingOk : tvplaying.

Lemma modelFullscreenChange_playingOk fs now s : playingOk s -> playingOk (modelFullscreenChange fs now s).
Proof. cbv beta delta [modelFullscreenChange]. walk playing_leaf. Qed.

#[local] Hint Resolve modelFullscreenChange_playingOk : tvplaying.

Lemma backToMenu_playingOk now (s : State) :
  videoPlaying (video s) = false -> modelPlaying (model s) = false ->
  playingOk (backToMenu now s).
Proof. intros V M. apply playingOk_quiet; assumption. Qed.

Lemma confirmMenuSelection_playingOk now a (s : State) :
  playingOk s -> playingOk (confirmMenuSelection now a s).
Proof.
  intros H. unfold confirmMenuSelection. destruct (negb _); [exact H|].
  destruct (negb (isUi MENU s)) eqn:St; [exact H|]. cbv zeta.
  apply negb_false_iff, UiState_eqb_true in St.
  assert (V : videoPlaying (video s) = false)
    by (apply (playingOk_video_silent s H); right; left; rewrite St; discriminate).
  assert (M : modelPlaying (model s) = false)
    by (apply (playingOk_model_silent s H); right; left; rewrite St; discriminate).
  assert (G : forall st, playingOk (withUi (set_tvUiState st) s))
    by (intros st; apply playingOk_quiet; assumption).
  destruct (default UiUndefined (jsIndex MENU_ITEMS (menuIndex (ui s)))).
  - apply (playingOk_same (withUi (set_tvUiState MENU) s)); [frames..|apply G].
  - apply (playingOk_same (withUi (set_tvUiState PHOTO) s)); [frames..|apply G].
  - apply loadVideoAt_playingOk, ensureVideoEl_playingOk, G.
  - apply loadModelAt_playingOk, ensureModelVideoEl_playingOk, G.
  - apply (playingOk_same (withUi (set_tvUiState UiUndefined) s)); [frames..|apply G].
Qed.

Lemma stopVideoCompletely_silent (s : State) :
  (videoEl (video s) = None -> videoPlaying (video s) = false) ->
  videoPlaying (video (stopVideoCompletely s)) = false.
Proof.
  intros H. unfold stopVideoCompletely. destruct (videoEl (video s)); [reflexivity | auto].
Qed.

Lemma stopModelCompletely_silent (s : State) :
  (modelVideoEl (model s) = None -> modelPlaying (model s) = false) ->
  modelPlaying (model (stopModelCompletely s)) = false.
Proof.
  intros H. unfold stopModelCompletely. destruct (modelVideoEl (model s)); [reflexivity | auto].
Qed.

Lemma setTvPower_off now (s : State) :
  tvOn (ui s) = true ->
  setTvPower false now s =
    withUi (set_tvAnim (Some (mkAnim 1 0 (now / 1000))))
      (applyTvTextureEnabled false
         (clearTvScreen (stopModelCompletely (stopVideoCompletely
            (withUi (set_tvOn false) s))))).
Proof.
  intros On. unfold setTvPower. rewrite On. cbn [Z.eqb Pos.eqb]. cbv zeta.
  cbn [tvOn ui withUi set_tvOn negb].
  set (x := applyTvTextureEnabled false _).
  assert (E : tvOn (ui x) = false) by (unfold x; frames).
  rewrite E. reflexivity.
Qed.

Lemma setTvPower_on now (s : State) :
  tvOn (ui s) = false ->
  setTvPower true now s =
    withUi (set_tvAnim (Some (mkAnim 0 1 (now / 1000))))
      (drawTvMenu now
         (withUi (fun r => set_tvBooting true (set_tvBootT0 now r))
            (withUi (fun r => set_menuIndex 0 (set_tvUiState MENU (set_blinkT0 now r)))
               (applyTvTextureEnabled true (withUi (set_tvOn true) s))))).
Proof.
  intros On. unfold setTvPower. rewrite On. cbn [Z.eqb Pos.eqb]. cbv zeta.
  cbn [tvOn ui withUi set_tvOn negb].
  set (x := applyTvTextureEnabled true _).
  assert (E : tvOn (ui x) = true) by (unfold x; frames).
  rewrite E. reflexivity.
Qed.

Lemma setTvPower_same on now (s : State) : tvOn (ui s) = on -> setTvPower on now s = s.
Proof. intros <-. unfold setTvPower. destruct (tvOn (ui s)); reflexivity. Qed.

Lemma setTvPower_playingOk on now (s : State) :
  playingOk s -> playingOk (setTvPower on now s).
Proof.
  intros H. destruct (tvOn (ui s)) eqn:On, on;
    try (rewrite setTvPower_same by exact On; exact H).
  - rewrite (setTvPower_off now s On).
    set (s0 := withUi (set_tvOn false) s).
    apply playingOk_quiet.
    + transitivity (videoPlaying (video (stopVideoCompletely s0))); [frames|].
      apply stopVideoCompletely_silent. intros E.
      apply (playingOk_video_silent s H). auto.
    + transitivity (modelPlaying (model (stopModelCompletely (stopVideoCompletely s0))));
        [frames|].
      apply stopModelCompletely_silent. rewrite stopVideoCompletely_keeps_model. intros E.
      apply (playingOk_model_silent s H). auto.
  - rewrite (setTvPower_on now s On).
    apply playingOk_quiet.
    + transitivity (videoPlaying (video s)); [frames|].
      apply (playingOk_video_silent s H). auto.
    + transitivity (modelPlaying (model s)); [frames|].
      apply (playingOk_model_silent s H). auto.
Qed.

#[local] Hint Resolve confirmMenuSelection_playingOk setTvPower_playingOk : tvplaying.

Lemma gallery_silent (s : State) (st : UiState) (b c : bool) :
  playingOk s -> b && isUi st s && c = true ->
  (st <> VIDEO -> videoPlaying (video s) = false) /\
  (st <> MODEL3D -> modelPlaying (model s) = false).
Proof.
  intros H C. apply andb_true_iff in C as [C _]. apply andb_true_iff in C as [_ C].
  apply UiState_eqb_true in C. split; intros N.
  - apply (playingOk_video_silent s H). right; left. congruence.
  - apply (playingOk_model_silent s H). right; left. congruence.
Qed.

Lemma onPointerDown_playingOk hit now a (s : State) :
  playingOk s -> playingOk (onPointerDown hit now a s).
Proof.
  intros H. unfold onPointerDown. destruct hit as [h|]; [|exact H]. cbv zeta.
  assert (T : forall tap, playingOk (withModel (set_tvTapDebug tap) s))
    by (intros tap; apply (playingOk_same s); [frames..|exact H]).
  destruct (hitUv h) as [c|];
    repeat match goal with
      | |- playingOk (if ?b then _ else _) => destruct b eqn:?
      end;
    try exact H; try solve [auto with tvplaying].
  all: match goal with
       | C : _ && isUi ?st _ && _ = true |- playingOk (backToMenu _ _) =>
           destruct (gallery_silent s st _ _ H C) as [V M]
       end.
  all: apply backToMenu_playingOk.
  all: try (apply V; discriminate); try (apply M; discriminate).
  all: try (apply stopVideoCompletely_silent; intros E;
            apply (playingOk_video_silent s H); auto).
  all: try (rewrite stopVideoCompletely_keeps_model; apply M; discriminate).
  all: try (rewrite stopModelCompletely_keeps_video; apply V; discriminate).
  all: apply stopModelCompletely_silent; intros E;
       apply (playingOk_model_silent s H); auto.
Qed.

Lemma step_playingOk (s : State) (e : Event) : playingOk s -> playingOk (step s e).
Proof.
  destruct e; cbn [step]; intros H;
    first [ solve [auto using onPointerDown_playingOk with tvplaying]
          | playing_leaf; exact H ].
Qed.

Lemma run_playingOk (evs : list Event) (s : State) : playingOk s -> playingOk (run evs s).
Proof.
  revert s. induction evs as [|e evs IH]; intros s H; cbn; [exact H|].
  apply IH, step_playingOk, H.
Qed.

(** X15. What plays, plays in its own gallery.  In every state the TV
    can reach: if the video is playing then the TV is on, the VIDEO screen
    is shown and the video element is not paused; if the model video is
    playing then the TV is on, the 3D MODEL screen is shown and its
    element is not paused.  So the two never play at once, and nothing
    plays while the TV is off or while the menu or a photo is shown. *)
Theorem plays_only_in_own_gallery (now0 : Q) (hasScreen : bool) (evs : list Event) :
  let s := run evs (init now0 hasScreen) in
  (videoPlaying (video s) = true ->
     tvOn (ui s) = true /\ tvUiState (ui s) = VIDEO /\
     vPaused <$> videoEl (video s) = Some false) /\
  (modelPlaying (model s) = true ->
     tvOn (ui s) = true /\ tvUiState (ui s) = MODEL3D /\
     vPaused <$> modelVideoEl (model s) = Some false) /\
  (videoPlaying (video s) && modelPlaying (model s) = false) /\
  (tvOn (ui s) = false \/ tvUiState (ui s) = MENU \/ tvUiState (ui s) = PHOTO ->
     videoPlaying (video s) = false /\ modelPlaying (model s) = false).
Proof.
  intros s.
  assert (P : playingOk s) by (apply run_playingOk, playingOk_quiet; reflexivity).
  clearbody s. split; [exact (proj1 P)|]. split; [exact (proj2 P)|]. split.
  - destruct (videoPlaying (video s)) eqn:V, (modelPlaying (model s)) eqn:M;
      try reflexivity.
    destruct (proj1 P V) as (_ & A & _), (proj2 P M) as (_ & B & _). congruence.
  - intros C. split.
    + apply (playingOk_video_silent s P).
      destruct C as [C | [C | C]]; [auto | right; left; congruence..].
    + apply (playingOk_model_silent s P).
      destruct C as [C | [C | C]]; [auto | right; left; congruence..].
Qed.

End TvMore.
